(** * Arsip Kelurahan: metadata extraction and classification engine

    Shallow embedding of [app/services/metadata.py], of the quality,
    jenis and folder logic of [app/routers/upload.py], of the page loop
    of [app/services/ocr.py], of the extraction strategy of
    [app/services/text_extraction.py] and of the classifier of
    [app/services/classifier_ml.py].

    Conventions of the embedding.
    - A Python [str] is a [string]; the characters are the 7-bit ASCII
      code points, for which [str.isspace], [str.lower], [\d], [\w], [\s]
      are given below exactly as CPython defines them.  The entries of
      [quote_map] that lie outside ASCII have no preimage here.
    - [None] is [option]; a Python truth test is written out
      ([truthy_str], [truthy_Z]).
    - Regular expressions are values of [regex], run by a backtracking
      matcher with the priorities of [re]: leftmost start, alternatives in
      order, greedy repetition first.  Each pattern of the source is
      transcribed next to its text.
    - Floating point confidences are the decimal literals of the source,
      kept as rationals; those that [classify_rules] computes are
      binary64 floats.
    - File system calls are recorded as a list of actions, in order, and
      are taken to succeed. *)

From Stdlib Require Import Floats.
From Stdlib Require Import Strings.String Strings.Ascii.
From Stdlib Require Import Lists.List Bool.Bool Arith.Arith Arith.PeanoNat.
From Stdlib Require Import ZArith.ZArith QArith.QArith Lia.
From Stdlib Require Import Numbers.DecimalString.
Import ListNotations.

Open Scope list_scope.
Open Scope string_scope.
Open Scope nat_scope.

Set Warnings "-inexact-float".

(** ** Python string primitives *)

Module Py.

Definition code (c : ascii) : nat := nat_of_ascii c.

Definition between (lo hi : nat) (c : ascii) : bool :=
  (lo <=? code c) && (code c <=? hi).

(** [str.isspace] on ASCII: TAB LF VT FF CR, FS GS RS US, SPACE. *)
Definition is_space (c : ascii) : bool :=
  between 9 13 c || between 28 31 c || (code c =? 32).

Definition is_digit (c : ascii) : bool := between 48 57 c.
Definition is_upper (c : ascii) : bool := between 65 90 c.
Definition is_lower (c : ascii) : bool := between 97 122 c.
Definition is_alpha (c : ascii) : bool := is_upper c || is_lower c.
Definition is_alnum (c : ascii) : bool := is_alpha c || is_digit c.
(** [\w] *)
Definition is_word (c : ascii) : bool := is_alnum c || (code c =? 95).

(** [str.lower] and [str.upper], character by character, on ASCII text:
    the letters A-Z and a-z change case and every other code point below
    128 is kept.  On the whole of Unicode the two methods also map
    letters outside ASCII, some of them onto ASCII letters; such texts
    are outside the embedding. *)
Definition lower_c (c : ascii) : ascii :=
  if is_upper c then ascii_of_nat (code c + 32) else c.
Definition upper_c (c : ascii) : ascii :=
  if is_lower c then ascii_of_nat (code c - 32) else c.

Fixpoint smap (f : ascii -> ascii) (s : string) : string :=
  match s with
  | EmptyString => EmptyString
  | String c s' => String (f c) (smap f s')
  end.

Definition lower : string -> string := smap lower_c.
Definition upper : string -> string := smap upper_c.

Fixpoint sforall (p : ascii -> bool) (s : string) : bool :=
  match s with
  | EmptyString => true
  | String c s' => p c && sforall p s'
  end.

Fixpoint sexists (p : ascii -> bool) (s : string) : bool :=
  match s with
  | EmptyString => false
  | String c s' => p c || sexists p s'
  end.

Definition mem_c (c : ascii) (chars : string) : bool :=
  sexists (Ascii.eqb c) chars.

(** [bool(s)] *)
Definition truthy_str (s : string) : bool :=
  match s with EmptyString => false | _ => true end.

Definition truthy_opt (o : option string) : bool :=
  match o with Some s => truthy_str s | None => false end.

Definition truthy_Z (o : option Z) : bool :=
  match o with Some z => negb (z =? 0)%Z | None => false end.

(** [s.isupper()]: some cased character, and no lowercase one. *)
Definition isupper (s : string) : bool :=
  sexists is_upper s && negb (sexists is_lower s).

(** [s.isdigit()] *)
Definition isdigit (s : string) : bool :=
  truthy_str s && sforall is_digit s.

(** [s.title()] *)
Fixpoint title_from (prev_cased : bool) (s : string) : string :=
  match s with
  | EmptyString => EmptyString
  | String c s' =>
      String (if prev_cased then lower_c c else upper_c c)
             (title_from (is_alpha c) s')
  end.
Definition title : string -> string := title_from false.

(** [s[:n]] and [s[n:]] *)
Fixpoint take (n : nat) (s : string) : string :=
  match n, s with
  | S n', String c s' => String c (take n' s')
  | _, _ => EmptyString
  end.

Fixpoint drop (n : nat) (s : string) : string :=
  match n, s with
  | S n', String _ s' => drop n' s'
  | _, _ => s
  end.

Fixpoint rev_onto (s acc : string) : string :=
  match s with
  | EmptyString => acc
  | String c s' => rev_onto s' (String c acc)
  end.
Definition srev (s : string) : string := rev_onto s EmptyString.

(** [s.startswith(p)] *)
Fixpoint startswith (p s : string) : bool :=
  match p, s with
  | EmptyString, _ => true
  | String a p', String b s' => Ascii.eqb a b && startswith p' s'
  | _, _ => false
  end.

(** [p in s] *)
Fixpoint contains (p s : string) : bool :=
  startswith p s ||
  match s with
  | EmptyString => false
  | String _ s' => contains p s'
  end.

(** [s.lstrip(chars)], [s.rstrip(chars)], [s.strip(chars)] *)
Fixpoint lstrip_by (p : ascii -> bool) (s : string) : string :=
  match s with
  | EmptyString => EmptyString
  | String c s' => if p c then lstrip_by p s' else s
  end.
Definition rstrip_by (p : ascii -> bool) (s : string) : string :=
  srev (lstrip_by p (srev s)).
Definition strip_by (p : ascii -> bool) (s : string) : string :=
  rstrip_by p (lstrip_by p s).

Definition strip : string -> string := strip_by is_space.
Definition strip_chars (chars : string) : string -> string :=
  strip_by (fun c => mem_c c chars).
Definition lstrip_chars (chars : string) : string -> string :=
  lstrip_by (fun c => mem_c c chars).

(** [s.replace(old, new)]: occurrences taken left to right, not
    overlapping.  With an empty [old] Python puts [new] around every
    character. *)
Fixpoint replace_go (fuel : nat) (old new s : string) : string :=
  match fuel with
  | O => s
  | S fuel' =>
      match s with
      | EmptyString => if startswith old s then new else EmptyString
      | String c s' =>
          if startswith old s then
            match old with
            | EmptyString => new ++ String c (replace_go fuel' old new s')
            | _ => new ++ replace_go fuel' old new (drop (String.length old) s)
            end
          else String c (replace_go fuel' old new s')
      end
  end.
Definition replace (old new s : string) : string :=
  replace_go (S (String.length s)) old new s.

(** [s.split()] *)
Fixpoint split_ws_go (s cur : string) : list string :=
  match s with
  | EmptyString =>
      match cur with EmptyString => [] | _ => [srev cur] end
  | String c s' =>
      if is_space c then
        match cur with
        | EmptyString => split_ws_go s' EmptyString
        | _ => srev cur :: split_ws_go s' EmptyString
        end
      else split_ws_go s' (String c cur)
  end.
Definition split_ws (s : string) : list string := split_ws_go s EmptyString.

(** [s.split(sep, 1)] for a one-character [sep]: [None] when [sep] does
    not occur (the list then has the single element [s]). *)
Fixpoint split_once_go (sep : ascii) (s acc : string) : option (string * string) :=
  match s with
  | EmptyString => None
  | String c s' =>
      if Ascii.eqb c sep then Some (srev acc, s')
      else split_once_go sep s' (String c acc)
  end.
Definition split_once (sep : ascii) (s : string) : option (string * string) :=
  split_once_go sep s EmptyString.

(** [s.rsplit(sep, 1)[0]] for a one-character [sep] *)
Definition rsplit_once_head (sep : ascii) (s : string) : string :=
  match split_once sep (srev s) with
  | Some (_, before_rev) => srev before_rev
  | None => s
  end.

(** [s.splitlines()]: the ASCII line boundaries are LF, CR, CR LF, VT,
    FF, FS, GS and RS. *)
Definition is_linebreak (c : ascii) : bool :=
  between 10 13 c || between 28 30 c.

Fixpoint splitlines_go (s cur : string) : list string :=
  match s with
  | EmptyString =>
      match cur with EmptyString => [] | _ => [srev cur] end
  | String c s' =>
      if is_linebreak c then
        match s' with
        | String c2 s'' =>
            if (code c =? 13) && (code c2 =? 10)
            then srev cur :: splitlines_go s'' EmptyString
            else srev cur :: splitlines_go s' EmptyString
        | EmptyString => srev cur :: splitlines_go s' EmptyString
        end
      else splitlines_go s' (String c cur)
  end.
Definition splitlines (s : string) : list string := splitlines_go s EmptyString.

(** [sep.join(parts)] *)
Fixpoint join (sep : string) (parts : list string) : string :=
  match parts with
  | [] => EmptyString
  | [p] => p
  | p :: rest => p ++ sep ++ join sep rest
  end.

(** [int(s)] for a string of decimal digits *)
Fixpoint int_go (s : string) (acc : Z) : Z :=
  match s with
  | EmptyString => acc
  | String c s' => int_go s' (10 * acc + Z.of_nat (code c - 48))%Z
  end.
Definition int (s : string) : Z := int_go s 0%Z.

(** [str(n)] for an integer *)
Definition str_Z (z : Z) : string := NilZero.string_of_int (Z.to_int z).

Definition eqb_opt (a b : option string) : bool :=
  match a, b with
  | Some x, Some y => String.eqb x y
  | None, None => true
  | _, _ => false
  end.

Definition mem_str (s : string) (l : list string) : bool :=
  existsb (String.eqb s) l.

End Py.

(** ** Regular expressions, as Python's [re] runs them *)

Module Re.

Import Py.

Inductive citem : Type :=
| CChar (c : ascii)
| CRange (lo hi : ascii)
| CDigit                       (* \d *)
| CSpace                       (* \s *)
| CWord.                       (* \w *)

Inductive regex : Type :=
| Eps
| Lit (c : ascii)
| Cls (negated : bool) (items : list citem)
| Dot
| Bol                          (* ^ *)
| Eol                          (* $ *)
| WordB                        (* \b *)
| Seq (r1 r2 : regex)
| Alt (r1 r2 : regex)
| Rep (greedy : bool) (lo : nat) (hi : option nat) (r : regex)
| Grp (n : nat) (r : regex).

Record flags : Type := { icase : bool; dotall : bool }.

Definition plain : flags := {| icase := false; dotall := false |}.
Definition ignorecase : flags := {| icase := true; dotall := false |}.
Definition ignorecase_dotall : flags := {| icase := true; dotall := true |}.

(** Builders for the usual shapes. *)
Definition star (r : regex) : regex := Rep true 0 None r.
Definition plus (r : regex) : regex := Rep true 1 None r.
Definition opt (r : regex) : regex := Rep true 0 (Some 1) r.
Definition rep (lo hi : nat) (r : regex) : regex := Rep true lo (Some hi) r.
Definition atleast (lo : nat) (r : regex) : regex := Rep true lo None r.

Fixpoint lit (s : string) : regex :=
  match s with
  | EmptyString => Eps
  | String c EmptyString => Lit c
  | String c s' => Seq (Lit c) (lit s')
  end.

Fixpoint seqs (rs : list regex) : regex :=
  match rs with
  | [] => Eps
  | [r] => r
  | r :: rs' => Seq r (seqs rs')
  end.

Fixpoint alts (rs : list regex) : regex :=
  match rs with
  | [] => Cls false []
  | [r] => r
  | r :: rs' => Alt r (alts rs')
  end.

Definition digit : regex := Cls false [CDigit].
Definition space : regex := Cls false [CSpace].
Definition word : regex := Cls false [CWord].
Definition chars (s : string) : list citem :=
  (fix go (s : string) : list citem :=
     match s with
     | EmptyString => []
     | String c s' => CChar c :: go s'
     end) s.
Definition range (lo hi : string) : citem :=
  match lo, hi with
  | String a _, String b _ => CRange a b
  | _, _ => CRange "001"%char "000"%char
  end.

(** One class item against one character. *)
Definition item_has (c : ascii) (it : citem) : bool :=
  match it with
  | CChar x => Ascii.eqb c x
  | CRange lo hi => (code lo <=? code c) && (code c <=? code hi)
  | CDigit => is_digit c
  | CSpace => is_space c
  | CWord => is_word c
  end.

Definition set_has (items : list citem) (c : ascii) : bool :=
  existsb (item_has c) items.

(** Under IGNORECASE a set holds a character when it holds one of its
    two cases. *)
Definition cls_match (fl : flags) (negated : bool) (items : list citem)
           (c : ascii) : bool :=
  xorb negated
       (if icase fl
        then set_has items (lower_c c) || set_has items (upper_c c)
        else set_has items c).

Definition lit_match (fl : flags) (x c : ascii) : bool :=
  if icase fl then Ascii.eqb (lower_c x) (lower_c c) else Ascii.eqb x c.

(** A position in the subject: the character before it, what is left,
    the offset, and the groups closed so far (most recent first). *)
Record mstate : Type := {
  m_prev : option ascii;
  m_rest : string;
  m_pos : nat;
  m_caps : list (nat * string)
}.

Definition eat (st : mstate) (c : ascii) (rest : string) : mstate :=
  {| m_prev := Some c; m_rest := rest; m_pos := S (m_pos st);
     m_caps := m_caps st |}.

Definition close_group (n : nat) (opened closed : mstate) : mstate :=
  {| m_prev := m_prev closed; m_rest := m_rest closed; m_pos := m_pos closed;
     m_caps := (n, take (m_pos closed - m_pos opened) (m_rest opened))
                 :: m_caps closed |}.

Definition word_opt (o : option ascii) : bool :=
  match o with Some c => is_word c | None => false end.

Definition next_char (st : mstate) : option ascii :=
  match m_rest st with String c _ => Some c | EmptyString => None end.

Definition at_eol (st : mstate) : bool :=
  match m_rest st with
  | EmptyString => true
  | String c EmptyString => code c =? 10
  | _ => false
  end.

Definition one_char (p : ascii -> bool) (k : mstate -> option mstate)
           (st : mstate) : option mstate :=
  match m_rest st with
  | String c rest => if p c then k (eat st c rest) else None
  | EmptyString => None
  end.

Definition or_else (a b : option mstate) : option mstate :=
  match a with Some x => Some x | None => b end.

Definition within (hi : option nat) (count : nat) : bool :=
  match hi with Some h => count <? h | None => true end.

(** The loop of a repetition [r{lo,hi}], over the matcher [body] of [r]:
    [count] iterations are done.  Once the minimum is reached, an
    iteration that consumes nothing is refused, so the loop ends. *)
Fixpoint rep_loop (body : (mstate -> option mstate) -> mstate -> option mstate)
         (k : mstate -> option mstate) (greedy : bool) (lo : nat)
         (hi : option nat) (fuel count : nat) (st : mstate) {struct fuel}
  : option mstate :=
  match fuel with
  | O => None
  | S fuel' =>
      let more :=
        if within hi count then
          body (fun st' =>
                  if (lo <=? count) && (m_pos st' =? m_pos st)
                  then None
                  else rep_loop body k greedy lo hi fuel' (S count) st')
               st
        else None in
      let stop := if lo <=? count then k st else None in
      if greedy then or_else more stop else or_else stop more
  end.

(** The matcher, in continuation-passing style: [run fl r k st] tries
    [r] at [st] and hands every way it can end to [k], in the order of
    Python's backtracking, until [k] accepts. *)
Fixpoint run (fl : flags) (r : regex) (k : mstate -> option mstate)
         (st : mstate) {struct r} : option mstate :=
  match r with
  | Eps => k st
  | Lit x => one_char (lit_match fl x) k st
  | Cls negated items => one_char (cls_match fl negated items) k st
  | Dot => one_char (fun c => dotall fl || negb (code c =? 10)) k st
  | Bol => if m_pos st =? 0 then k st else None
  | Eol => if at_eol st then k st else None
  | WordB =>
      if xorb (word_opt (m_prev st)) (word_opt (next_char st))
      then k st else None
  | Seq r1 r2 => run fl r1 (run fl r2 k) st
  | Alt r1 r2 => or_else (run fl r1 k st) (run fl r2 k st)
  | Grp n r1 => run fl r1 (fun st' => k (close_group n st st')) st
  | Rep greedy lo hi r1 =>
      rep_loop (run fl r1) k greedy lo hi
               (S (lo + String.length (m_rest st))) 0 st
  end.

(** A match object. *)
Record mobj : Type := {
  mo_start : nat;
  mo_end : nat;
  mo_text : string;                 (* group(0) *)
  mo_caps : list (nat * string)
}.

Fixpoint assoc (n : nat) (caps : list (nat * string)) : option string :=
  match caps with
  | [] => None
  | (m, s) :: caps' => if m =? n then Some s else assoc n caps'
  end.

(** [m.group(n)], [None] for a group that took no part. *)
Definition group (m : mobj) (n : nat) : option string := assoc n (mo_caps m).

Definition group_or_empty (m : mobj) (n : nat) : string :=
  match group m n with Some s => s | None => EmptyString end.

Definition start_state (prev : option ascii) (s : string) (pos : nat) : mstate :=
  {| m_prev := prev; m_rest := s; m_pos := pos; m_caps := [] |}.

Definition accept (must_advance : bool) (pos : nat) (st : mstate)
  : option mstate :=
  if must_advance && (m_pos st =? pos) then None else Some st.

Definition match_here (fl : flags) (r : regex) (must_advance : bool)
           (prev : option ascii) (s : string) (pos : nat) : option mobj :=
  match run fl r (accept must_advance pos) (start_state prev s pos) with
  | Some e => Some {| mo_start := pos; mo_end := m_pos e;
                      mo_text := take (m_pos e - pos) s;
                      mo_caps := m_caps e |}
  | None => None
  end.

(** [re.match(r, s)] *)
Definition rmatch (fl : flags) (r : regex) (s : string) : option mobj :=
  match_here fl r false None s 0.

(** [re.search(r, s)] *)
Fixpoint search_from (fl : flags) (r : regex) (prev : option ascii)
         (s : string) (pos : nat) : option mobj :=
  match match_here fl r false prev s pos with
  | Some m => Some m
  | None =>
      match s with
      | EmptyString => None
      | String c s' => search_from fl r (Some c) s' (S pos)
      end
  end.

Definition search (fl : flags) (r : regex) (s : string) : option mobj :=
  search_from fl r None s 0.

Definition found (fl : flags) (r : regex) (s : string) : bool :=
  match search fl r s with Some _ => true | None => false end.

Definition matches (fl : flags) (r : regex) (s : string) : bool :=
  match rmatch fl r s with Some _ => true | None => false end.

Definition last_char (prev : option ascii) (s : string) : option ascii :=
  match srev s with String c _ => Some c | EmptyString => prev end.

(** [re.sub(r, repl, s)] with [repl] a function of the match (a template
    such as [\1/] is the function that builds it).  After an empty match
    the next one at the same place must advance. *)
Fixpoint sub_go (fl : flags) (r : regex) (repl : mobj -> string)
         (fuel : nat) (must_advance : bool) (prev : option ascii)
         (s : string) (pos : nat) : string :=
  match fuel with
  | O => s
  | S fuel' =>
      match match_here fl r must_advance prev s pos with
      | Some m =>
          let n := mo_end m - pos in
          if n =? 0
          then repl m ++ sub_go fl r repl fuel' true prev s pos
          else repl m ++ sub_go fl r repl fuel' false
                                (last_char prev (mo_text m)) (drop n s)
                                (mo_end m)
      | None =>
          match s with
          | EmptyString => EmptyString
          | String c s' =>
              String c (sub_go fl r repl fuel' false (Some c) s' (S pos))
          end
      end
  end.

Definition sub (fl : flags) (r : regex) (repl : mobj -> string) (s : string)
  : string :=
  sub_go fl r repl (2 * String.length s + 2) false None s 0.

(** [re.split(r, s)] for a pattern without groups. *)
Fixpoint split_go (fl : flags) (r : regex) (fuel : nat) (must_advance : bool)
         (prev : option ascii) (s : string) (pos : nat) (cur : string)
  : list string :=
  match fuel with
  | O => [srev cur ++ s]
  | S fuel' =>
      match match_here fl r must_advance prev s pos with
      | Some m =>
          let n := mo_end m - pos in
          if n =? 0
          then srev cur :: split_go fl r fuel' true prev s pos EmptyString
          else srev cur :: split_go fl r fuel' false
                                    (last_char prev (mo_text m)) (drop n s)
                                    (mo_end m) EmptyString
      | None =>
          match s with
          | EmptyString => [srev cur]
          | String c s' =>
              split_go fl r fuel' false (Some c) s' (S pos) (String c cur)
          end
      end
  end.

Definition split (fl : flags) (r : regex) (s : string) : list string :=
  split_go fl r (2 * String.length s + 2) false None s 0 EmptyString.

End Re.

(** ** app/services/metadata.py *)

Module Metadata.

Import Py Re.

Definition LF : ascii := "010"%char.
Definition CR : ascii := "013"%char.
Definition TAB : ascii := "009"%char.
Definition nl : string := String LF EmptyString.

Definition BULAN_ID : list (string * Z) :=
  [("januari", 1); ("februari", 2); ("maret", 3); ("april", 4); ("mei", 5);
   ("juni", 6); ("juli", 7); ("agustus", 8); ("september", 9);
   ("oktober", 10); ("november", 11); ("desember", 12)]%Z.

Definition HEADER_KEYWORDS : list string :=
  ["PEMERINTAH"; "DINAS"; "KELURAHAN"; "KECAMATAN"; "KOTA"; "KEMENTERIAN";
   "BADAN"; "DEWAN"; "SEKRETARIAT"; "PT"; "CV"; "YAYASAN"].

Definition LABEL_ALIASES : list (string * list string) :=
  [("nomor", ["nomor"; "no"; "nomer"; "nemor"]);
   ("perihal", ["perihal"; "hal"]);
   ("lampiran", ["lampiran"]);
   ("sifat", ["sifat"])].

(** [d.get(key)] on a dictionary kept as an association list *)
Fixpoint dict_get {V : Type} (key : string) (d : list (string * V)) : option V :=
  match d with
  | [] => None
  | (k, v) :: d' => if String.eqb k key then Some v else dict_get key d'
  end.

(** [d[key] = v] *)
Fixpoint dict_set {V : Type} (key : string) (v : V) (d : list (string * V))
  : list (string * V) :=
  match d with
  | [] => [(key, v)]
  | (k, v0) :: d' =>
      if String.eqb k key then (k, v) :: d' else (k, v0) :: dict_set key v d'
  end.

(** *** [_clean_text] *)

Definition replacements : list (string * string) :=
  [("/-", "-"); ("I/", "/"); ("|/", "/"); ("\ /", "");
   ("OS '/", "05 /"); ("OB '/", "08 /"); ("OI '/", "01 /"); ("O5 '/", "05 /")].

(* (\d)\\\s*/ *)
Definition re_digit_backslash : regex :=
  seqs [Grp 1 digit; Lit "\"; star space; Lit "/"].

(* (\d{2,3})\s*'\s*/ *)
Definition re_apostrophe : regex :=
  seqs [Grp 1 (rep 2 3 digit); star space; Lit "'"; star space; Lit "/"].

(* \b[A-Z0-9Ol]{1,8}[\-\/\.][A-Z0-9Ol\.\-\/]{2,}\b   with re.IGNORECASE *)
Definition re_nomor_shape : regex :=
  seqs [WordB;
        rep 1 8 (Cls false [range "A" "Z"; range "0" "9"; CChar "O"; CChar "l"]);
        Cls false (chars "-/.");
        atleast 2 (Cls false ([range "A" "Z"; range "0" "9"; CChar "O"; CChar "l"]
                                ++ chars ".-/")%list);
        WordB].

Definition fix_nomor (m : mobj) : string :=
  replace "l" "1" (replace "O" "0" (mo_text m)).

(* [ \t]+ *)
Definition re_blanks : regex := plus (Cls false [CChar " "; CChar TAB]).

(* \n\s*\n\s*\n+ *)
Definition re_blank_lines : regex :=
  seqs [Lit LF; star space; Lit LF; star space; plus (Lit LF)].

Definition _clean_text (text : string) : string :=
  if negb (truthy_str text) then EmptyString else
  let t := fold_left (fun t '(old, new) => replace old new t) replacements text in
  let t := sub plain re_digit_backslash (fun m => group_or_empty m 1 ++ "/") t in
  let t := sub plain re_apostrophe (fun m => group_or_empty m 1 ++ " /") t in
  let t := sub ignorecase re_nomor_shape fix_nomor t in
  let t := sub plain re_blanks (fun _ => " ") t in
  let t := sub plain re_blank_lines (fun _ => nl ++ nl) t in
  strip t.

(** *** [_normalize_line] *)

(* \s+ *)
Definition re_spaces : regex := plus space.

Definition _normalize_line (value : option string) : option string :=
  match value with
  | None => None
  | Some v =>
      if negb (truthy_str v) then None else
      let cleaned := strip_chars " :-" (sub plain re_spaces (fun _ => " ") v) in
      if negb (truthy_str cleaned) then None
      else if isupper cleaned then Some (title cleaned)
      else Some cleaned
  end.

(** *** [_is_label_line] *)

Definition _is_label_line (line : string) : option string :=
  let label_part :=
    match split_once ":" line with
    | Some (before, _) => before
    | None => line
    end in
  let lowered := strip_chars " :.-" (lower label_part) in
  option_map fst
    (find (fun '(_, aliases) => mem_str lowered aliases) LABEL_ALIASES).

Definition is_label (line : string) : bool :=
  match _is_label_line line with Some _ => true | None => false end.

(** *** [_filtered_label_value] *)

Definition blacklist_words : list string :=
  ["sifat"; "biasa"; "penting"; "segera"; "rahasia";
   "lampiran"; "hal"; "perihal"; "kepada"; "yth";
   "tanggal"; "tembusan"; "dari"].

(* \d+[/\-][A-Za-z0-9] *)
Definition re_digit_sep : regex :=
  seqs [plus digit; Cls false (chars "/-");
        Cls false [range "A" "Z"; range "a" "z"; range "0" "9"]].

(* ^\d *)
Definition re_starts_digit : regex := seqs [Bol; digit].

Definition _filtered_label_value (value : option string) (label_key : string)
  : option string :=
  match value with
  | None => None
  | Some v =>
      if negb (truthy_str v) then None
      else if String.eqb label_key "nomor" then
        if mem_str (strip (lower v)) blacklist_words then None
        else if negb (found plain re_digit_sep v) then None
        else if negb (matches plain re_starts_digit v) then None
        else Some v
      else Some v
  end.

(** *** [_find_label_value] *)

(* (?i)^(kepada|yth|dengan|sehubungan) *)
Definition re_new_section : regex :=
  seqs [Bol; Grp 1 (alts [lit "kepada"; lit "yth"; lit "dengan"; lit "sehubungan"])].

(** The inner [for offset in range(1, 5)] loops that gather the lines
    following a perihal value: [following] is [lines[idx+1:]]. *)
Fixpoint continuation (n : nat) (following : list string) : list string :=
  match n, following with
  | S n', l :: rest =>
      let next_line := strip l in
      if negb (truthy_str next_line) then []
      else if is_label next_line then []
      else if matches ignorecase re_new_section next_line then []
      else next_line :: continuation n' rest
  | _, _ => []
  end.

Definition first_token (value : string) : string :=
  match split_ws value with
  | tok :: _ => tok
  | [] => value
  end.

(** Priority 2, [for offset in range(1, 3)]: [following] is
    [lines[idx+1:]]. *)
Fixpoint next_lines_value (n : nat) (following : list string)
         (label_key : string) : option string :=
  match n, following with
  | S n', l :: rest =>
      let candidate := strip l in
      if negb (truthy_str candidate) then next_lines_value n' rest label_key
      else if is_label candidate then None
      else if startswith ":" candidate then
        let value := strip (drop 1 candidate) in
        if String.eqb label_key "perihal" && truthy_str value then
          let full_value := join " " (value :: continuation 4 rest) in
          _filtered_label_value (_normalize_line (Some full_value)) label_key
        else if String.eqb label_key "nomor" && truthy_str value then
          _filtered_label_value (Some (first_token value)) label_key
        else _filtered_label_value (_normalize_line (Some value)) label_key
      else _filtered_label_value (_normalize_line (Some candidate)) label_key
  | _, _ => None
  end.

Definition _find_label_value (lines : list string) (idx : nat)
           (label_key : string) : option string :=
  let current := nth idx lines EmptyString in
  let following := skipn (S idx) lines in
  let priority2 := next_lines_value 2 following label_key in
  match split_once ":" current with
  | Some (_, after) =>
      let value := strip after in
      if String.eqb label_key "perihal" && truthy_str value then
        let full_value := join " " (value :: continuation 4 following) in
        _filtered_label_value (_normalize_line (Some full_value)) label_key
      else if String.eqb label_key "nomor" && truthy_str value then
        match _filtered_label_value (Some (first_token value)) label_key with
        | Some filtered =>
            if truthy_str filtered then Some filtered else priority2
        | None => priority2
        end
      else if truthy_str value then
        _filtered_label_value (_normalize_line (Some value)) label_key
      else priority2
  | None => priority2
  end.

(** *** [extract_label_block_values] *)

Definition nonblank_lines (text : string) : list string :=
  map strip (filter (fun ln => truthy_str (strip ln)) (splitlines text)).

Definition enumerate {A : Type} (l : list A) : list (nat * A) :=
  combine (seq 0 (List.length l)) l.

Definition extract_label_block_values (text : string) : list (string * string) :=
  let lines := nonblank_lines text in
  fold_left
    (fun values '(idx, line) =>
       match _is_label_line line with
       | None => values
       | Some label_key =>
           match _find_label_value lines idx label_key with
           | Some value =>
               if truthy_str value then dict_set label_key value values
               else values
           | None => values
           end
       end)
    (enumerate lines) [].

(** *** [normalize_person_name] *)

(* [^A-Za-z .,'-] *)
Definition re_not_name_char : regex :=
  Cls true ([range "A" "Z"; range "a" "z"] ++ chars " .,'-")%list.

Definition normalize_person_name (value : option string) : option string :=
  match value with
  | None => None
  | Some v =>
      if negb (truthy_str v) then None else
      let cleaned := sub plain re_not_name_char (fun _ => " ") v in
      let cleaned := strip (sub plain re_spaces (fun _ => " ") cleaned) in
      if negb (truthy_str cleaned) then None
      else if isupper cleaned then Some (title cleaned)
      else Some cleaned
  end.

(** *** [extract_instansi_from_role] *)

(* (?i)(kepala|plt|plh|lurah|camat|ketua|direktur|manager|sekretaris)\s+(.+) *)
Definition re_role : regex :=
  seqs [Grp 1 (alts [lit "kepala"; lit "plt"; lit "plh"; lit "lurah";
                     lit "camat"; lit "ketua"; lit "direktur"; lit "manager";
                     lit "sekretaris"]);
        plus space; Grp 2 (plus Dot)].

Definition extract_instansi_from_role (line : option string) : option string :=
  match _normalize_line line with
  | None => None
  | Some cleaned =>
      if negb (truthy_str cleaned) then None else
      match search ignorecase re_role cleaned with
      | None => None
      | Some m =>
          let instansi := strip_chars " .,:-" (group_or_empty m 2) in
          if negb (truthy_str instansi) then None
          else if isupper instansi then Some (title instansi)
          else Some instansi
      end
  end.

(** *** [extract_signature_instansi_candidates] *)

(** [lines[-window:]]; with [window = 0] the slice is the whole list. *)
Definition last_lines {A : Type} (window : nat) (lines : list A) : list A :=
  if window =? 0 then lines else skipn (List.length lines - window) lines.

Definition extract_signature_instansi_candidates (text : string) (window : nat)
  : list string :=
  let cleaned := _clean_text text in
  let lines := nonblank_lines cleaned in
  let tail := last_lines window lines in
  fold_left
    (fun candidates line =>
       match extract_instansi_from_role (Some line) with
       | Some instansi =>
           if truthy_str instansi && negb (mem_str instansi candidates)
           then (candidates ++ [instansi])%list
           else candidates
       | None => candidates
       end)
    tail [].

(** *** [resolve_pengirim] *)

(** The first candidate that is neither [None] nor empty. *)
Definition first_truthy (candidates : list (option string)) : option string :=
  match find truthy_opt candidates with
  | Some candidate => candidate
  | None => None
  end.

(** [a or b] *)
Definition or_opt (a b : option string) : option string :=
  if truthy_opt a then a else b.

Definition resolve_pengirim
           (jenis fallback_pengirim instansi_hint signer_name role_line
              : option string)
           (signature_instansi : option (list string)) : option string :=
  if eqb_opt jenis (Some "keluar") then Some "Kelurahan Pela Mampang" else
  let header_instansi := _normalize_line instansi_hint in
  let role_instansi := extract_instansi_from_role role_line in
  let signer_instansi := extract_instansi_from_role signer_name in
  let fallback_instansi := extract_instansi_from_role fallback_pengirim in
  let fallback_line := _normalize_line fallback_pengirim in
  let normalized_signer := normalize_person_name signer_name in
  let signature_instansi :=
    match signature_instansi with Some l => l | None => [] end in
  if eqb_opt jenis (Some "masuk") then
    match first_truthy (map Some signature_instansi
                          ++ [role_instansi; signer_instansi; header_instansi;
                              fallback_instansi; fallback_line;
                              normalized_signer])%list with
    | Some candidate => Some candidate
    | None =>
        if truthy_opt role_line
        then or_opt (_normalize_line role_line) role_line
        else None
    end
  else
    match first_truthy ([fallback_line; header_instansi; normalized_signer;
                         role_instansi; signer_instansi]
                          ++ map Some signature_instansi)%list with
    | Some candidate => Some candidate
    | None => or_opt fallback_pengirim header_instansi
    end.

(** *** [extract_nomor_surat] *)

(** [str.translate(quote_map)]: of the seven keys only the grave accent
    is ASCII. *)
Definition translate_quotes : string -> string :=
  smap (fun c => if Ascii.eqb c "`" then " "%char else c).

Definition preclean (text : string) : string :=
  let t := translate_quotes text in
  let t := replace "OS  /" "05 /" t in
  let t := replace "OB  /" "08 /" t in
  let t := replace "OI  /" "01 /" t in
  let t := replace "OS /" "05 /" t in
  let t := replace "OB /" "08 /" t in
  replace "OI /" "01 /" t.

Definition candidate : Type := (string * nat)%type.

(* ^[:\-\s]+ *)
Definition re_leading_punct : regex :=
  seqs [Bol; plus (Cls false [CChar ":"; CChar "-"; CSpace])].

(* [/\-.] *)
Definition re_separator : regex := Cls false (chars "/-.").

(** Priority 1: the label block, weight 100. *)
Definition label_candidates (T : string) : list candidate :=
  match dict_get "nomor" (extract_label_block_values T) with
  | Some nomor_value =>
      if negb (truthy_str nomor_value) then [] else
      let nomor_value := strip (sub plain re_leading_punct (fun _ => "") nomor_value) in
      let nomor_value := strip_chars ".,;: " nomor_value in
      if (3 <? String.length nomor_value)
         && found plain digit nomor_value
         && found plain re_separator nomor_value
      then [(nomor_value, 100)] else []
  | None => []
  end.

Definition alnum_dot_sep : regex :=      (* [A-Za-z0-9./\-] *)
  Cls false ([range "A" "Z"; range "a" "z"; range "0" "9"] ++ chars "./-")%list.
Definition sep : regex := Cls false (chars "/-").          (* [/\-] *)
Definition colon_or_dot : regex := Cls false (chars ":.").   (* [:.] *)
Definition upper2 : regex := rep 2 2 (Cls false [range "A" "Z"]).  (* [A-Z]{2} *)
Definition digits_dots : regex :=                          (* [0-9.]+ *)
  plus (Cls false [range "0" "9"; CChar "."]).

Definition label4 : regex :=             (* (Nomor|No|Nomer|Nemor) *)
  Grp 1 (alts [lit "Nomor"; lit "No"; lit "Nomer"; lit "Nemor"]).

Definition patterns : list (flags * regex) :=
  [ (* (?i)\b(Nomor|No|Nomer|Nemor)\s*[:.]?\s*(e-\d+[/\-][A-Za-z0-9./\-]+) *)
    (ignorecase,
     seqs [WordB; label4; star space; opt colon_or_dot; star space;
           Grp 2 (seqs [lit "e-"; plus digit; sep; plus alnum_dot_sep])]);
    (* (?i)\b(Nomor|No|Nomer|Nemor)\s*[:.]?\s*(\d+[/\-][A-Za-z0-9./\-]+) *)
    (ignorecase,
     seqs [WordB; label4; star space; opt colon_or_dot; star space;
           Grp 2 (seqs [plus digit; sep; plus alnum_dot_sep])]);
    (* (?i)\b(Nomor|No|Nomer|Nemor)\s*[:.]?\s*(\d+\s+[/\-][A-Za-z0-9./\-]+) *)
    (ignorecase,
     seqs [WordB; label4; star space; opt colon_or_dot; star space;
           Grp 2 (seqs [plus digit; plus space; sep; plus alnum_dot_sep])]);
    (* (?i)\b(Nomor|No)\s*\n\s*[:.]?\s*(\d+[/\-][A-Za-z0-9./\-]+) *)
    (ignorecase,
     seqs [WordB; Grp 1 (alts [lit "Nomor"; lit "No"]); star space; Lit LF;
           star space; opt colon_or_dot; star space;
           Grp 2 (seqs [plus digit; sep; plus alnum_dot_sep])]);
    (* (?i)\b(Nomor|No|Nomer)\s*[:.]?\s*([A-Z]{1,2}\s*['\\/]\s*[A-Z]{2}\.[0-9.]+) *)
    (ignorecase,
     seqs [WordB; Grp 1 (alts [lit "Nomor"; lit "No"; lit "Nomer"]);
           star space; opt colon_or_dot; star space;
           Grp 2 (seqs [rep 1 2 (Cls false [range "A" "Z"]); star space;
                        Cls false (chars "'\/"); star space; upper2; Lit ".";
                        digits_dots])]);
    (* \b(\d{2,3})\s*[/\-]\s*([A-Z]{2}\.[0-9.]+)\b *)
    (plain,
     seqs [WordB; Grp 1 (rep 2 3 digit); star space; sep; star space;
           Grp 2 (seqs [upper2; Lit "."; digits_dots]); WordB]) ].

(* (\d+)\s+([/\-]) *)
Definition re_digits_gap_sep : regex :=
  seqs [Grp 1 (plus digit); plus space; Grp 2 sep].

(* ^\d{1,2}[-/]\d{1,2}[-/]\d{2,4}$ *)
Definition re_date_like : regex :=
  seqs [Bol; rep 1 2 digit; Cls false (chars "-/"); rep 1 2 digit;
        Cls false (chars "-/"); rep 2 4 digit; Eol].

(** The value a pattern match denotes; every pattern has two groups. *)
Definition pattern_value (m : mobj) : string :=
  match group m 2 with
  | Some g2 =>
      if truthy_str g2 then strip_chars ".,;: " (strip g2)
      else strip (group_or_empty m 1 ++ "/" ++ g2)
  | None => strip (group_or_empty m 1 ++ "/None")
  end.

(** Priority 2: directly after the label, weight 95. *)
Definition pattern_candidates (T : string) : list candidate :=
  flat_map
    (fun '(fl, pattern) =>
       match search fl pattern T with
       | Some m =>
           let nomor :=
             sub plain re_digits_gap_sep
                 (fun m => group_or_empty m 1 ++ group_or_empty m 2)
                 (pattern_value m) in
           if (3 <? String.length nomor) && negb (matches plain re_date_like nomor)
           then [(nomor, 95)] else []
       | None => []
       end)
    patterns.

(* ^\d+[/\-][A-Za-z0-9./\-]{2,}$ *)
Definition re_token : regex :=
  seqs [Bol; plus digit; sep; atleast 2 alnum_dot_sep; Eol].

(* (\d{2,3})\s+/\s+([A-Z]{2}\.\d{2}\.\d{2}) *)
Definition re_multi_token : regex :=
  seqs [Grp 1 (rep 2 3 digit); plus space; Lit "/"; plus space;
        Grp 2 (seqs [upper2; Lit "."; rep 2 2 digit; Lit "."; rep 2 2 digit])].

(** Priority 3: tokens of the first 15 lines, weights 70/60 and 75/65. *)
Definition scan_line (idx : nat) (l : string) : list candidate :=
  if negb (truthy_str l) || is_label l then [] else
  (flat_map
     (fun token =>
        if matches plain re_token token && negb (matches plain re_date_like token)
        then [(strip_chars ".,;" token, if idx <? 8 then 70 else 60)]
        else [])
     (split_ws l)
   ++
   match search plain re_multi_token l with
   | Some m =>
       [((group_or_empty m 1 ++ "/" ++ group_or_empty m 2)%string,
         if idx <? 8 then 75 else 65)]
   | None => []
   end)%list.

Definition scan_candidates (T : string) : list candidate :=
  let lines := map strip (splitlines T) in
  flat_map (fun '(idx, l) => scan_line idx l) (enumerate (firstn 15 lines)).

(* ^\d+[/\-][A-Za-z0-9./\-]+$ *)
Definition re_filename_nomor : regex :=
  seqs [Bol; plus digit; sep; plus alnum_dot_sep; Eol].

(** Priority 4: the file name, weight 50. *)
Definition filename_candidates (filename : option string) : list candidate :=
  match filename with
  | Some fname =>
      if negb (truthy_str fname) then [] else
      let name := rsplit_once_head "." fname in
      match split_ws name with
      | part0 :: _ =>
          if matches plain re_filename_nomor part0 then [(strip part0, 50)]
          else []
      | [] => []
      end
  | None => []
  end.

(** [candidates.sort(key=lambda x: x[1], reverse=True)]: Python's sort
    is stable, also with [reverse=True]. *)
Fixpoint insert_desc (x : candidate) (l : list candidate) : list candidate :=
  match l with
  | [] => [x]
  | y :: l' => if snd x <? snd y then y :: insert_desc x l' else x :: l
  end.

Definition sort_desc (l : list candidate) : list candidate :=
  fold_right insert_desc [] l.

Definition all_candidates (T : string) (filename : option string)
  : list candidate :=
  (label_candidates T ++ pattern_candidates T ++ scan_candidates T
     ++ filename_candidates filename)%list.

Definition extract_nomor_surat (text : string) (filename : option string)
  : option string :=
  let T := _clean_text (preclean text) in
  match sort_desc (all_candidates T filename) with
  | best :: _ => Some (fst best)
  | [] => None
  end.

(** *** [extract_tanggal] *)

Record datetime : Type := { year : Z; month : Z; day : Z }.

Definition is_leap (y : Z) : bool :=
  ((y mod 4 =? 0) && (negb (y mod 100 =? 0) || (y mod 400 =? 0)))%Z.

Definition days_in_month (y m : Z) : Z :=
  (if m =? 2 then (if is_leap y then 29 else 28)
   else if (m =? 4) || (m =? 6) || (m =? 9) || (m =? 11) then 30
   else 31)%Z.

(** [datetime(y, m, d)]; [None] stands for the [ValueError]. *)
Definition mk_datetime (y m d : Z) : option datetime :=
  if ((1 <=? y) && (y <=? 9999) && (1 <=? m) && (m <=? 12)
      && (1 <=? d) && (d <=? days_in_month y m))%Z
  then Some {| year := y; month := m; day := d |}
  else None.

Definition letters : regex :=                       (* [A-Za-z]+ *)
  plus (Cls false [range "A" "Z"; range "a" "z"]).
Definition year20 : regex := seqs [lit "20"; rep 2 2 digit].   (* 20\d{2} *)

(* (\d{1,2})\s+([A-Za-z]+)\s+(20\d{2})   with re.IGNORECASE *)
Definition re_tanggal_id : regex :=
  seqs [Grp 1 (rep 1 2 digit); plus space; Grp 2 letters; plus space;
        Grp 3 year20].

(* \b(\d{1,2})[-/](\d{1,2})[-/](20\d{2})\b *)
Definition re_tanggal_numeric : regex :=
  seqs [WordB; Grp 1 (rep 1 2 digit); Cls false (chars "-/");
        Grp 2 (rep 1 2 digit); Cls false (chars "-/"); Grp 3 year20; WordB].

(* (?i)\b(Tanggal|Tgl)\b\s*[:.]?\s*(\d{1,2})\s+([A-Za-z]+)\s+(20\d{2}) *)
Definition re_tanggal_label : regex :=
  seqs [WordB; Grp 1 (alts [lit "Tanggal"; lit "Tgl"]); WordB; star space;
        opt colon_or_dot; star space; Grp 2 (rep 1 2 digit); plus space;
        Grp 3 letters; plus space; Grp 4 year20].

(* \b(20\d{2})\b *)
Definition re_tahun : regex := seqs [WordB; Grp 1 year20; WordB].

(** Which of the four attempts of [extract_tanggal] produced the date. *)
Inductive date_source : Type :=
| IndonesianFormat      (* Pattern 1 *)
| NumericFormat         (* Pattern 2 *)
| AfterLabel            (* Pattern 3 *)
| YearOnly.             (* Fallback *)

Definition named_date (m : mobj) (gday gmonth gyear : nat) : option datetime :=
  let d := int (group_or_empty m gday) in
  let month_name := lower (group_or_empty m gmonth) in
  let y := int (group_or_empty m gyear) in
  match dict_get month_name BULAN_ID with
  | Some mo => if (mo =? 0)%Z then None else mk_datetime y mo d
  | None => None
  end.

Definition try_pattern1 (T : string) : option datetime :=
  match search ignorecase re_tanggal_id T with
  | Some m => named_date m 1 2 3
  | None => None
  end.

Definition try_pattern2 (T : string) : option datetime :=
  match search plain re_tanggal_numeric T with
  | Some m =>
      mk_datetime (int (group_or_empty m 3)) (int (group_or_empty m 2))
                  (int (group_or_empty m 1))
  | None => None
  end.

Definition try_pattern3 (T : string) : option datetime :=
  match search ignorecase re_tanggal_label T with
  | Some m => named_date m 2 3 4
  | None => None
  end.

Definition try_fallback (T : string) : option datetime :=
  match search plain re_tahun T with
  | Some y => mk_datetime (int (group_or_empty y 1)) 1 1
  | None => None
  end.

(** [extract_tanggal], keeping which attempt returned. *)
Definition extract_tanggal_traced (text : string)
  : option (date_source * datetime) :=
  let T := _clean_text text in
  match try_pattern1 T with
  | Some dt => Some (IndonesianFormat, dt)
  | None =>
  match try_pattern2 T with
  | Some dt => Some (NumericFormat, dt)
  | None =>
  match try_pattern3 T with
  | Some dt => Some (AfterLabel, dt)
  | None =>
  match try_fallback T with
  | Some dt => Some (YearOnly, dt)
  | None => None
  end end end end.

Definition extract_tanggal (text : string) : option datetime :=
  option_map snd (extract_tanggal_traced text).

(** *** [strftime] *)

(** [%B] is the month name of the process locale (LC_TIME).  The
    application never calls [setlocale], so it runs in the C locale. *)
Definition c_locale_month (m : Z) : string :=
  nth (Z.to_nat (m - 1))
      ["January"; "February"; "March"; "April"; "May"; "June"; "July";
       "August"; "September"; "October"; "November"; "December"]
      EmptyString.

Definition pad2 (d : Z) : string :=
  if (d <? 10)%Z then "0" ++ str_Z d else str_Z d.

Section Strftime.

Variable locale_month : Z -> string.

(* dt.strftime("%d %B %Y") *)
Definition strftime_dBY (dt : datetime) : string :=
  pad2 (day dt) ++ " " ++ locale_month (month dt) ++ " " ++ str_Z (year dt).

(* dt.strftime("%Y") *)
Definition strftime_Y (dt : datetime) : string := str_Z (year dt).

(* dt.strftime("%d %B %Y") if dt and dt.day != 1
   else (dt.strftime("%Y") if dt else None) *)
Definition tanggal_str (dt : option datetime) : option string :=
  match dt with
  | Some d =>
      if negb (day d =? 1)%Z then Some (strftime_dBY d)
      else Some (strftime_Y d)
  | None => None
  end.

End Strftime.

(** *** [detect_jenis] *)

Definition lainnya_keywords : list string :=
  ["PAPARAN"; "BUKU PANDUAN"; "PANDUAN"; "PRESENTASI"; "HANDBOOK";
   "GUIDE BOOK"; "MANUAL"; "MODUL"].

Definition kop_patterns : list string :=
  ["KELURAHAN PELA MAMPANG"; "BANGKA X UJUNG"; "PELAMAMAMPANGKELURAHAN";
   "718 2380"; "7182380"].

(* (?i)\b(Nomor|No)\b\s*[:=.\-]*\s*[A-Za-z0-9] *)
Definition re_nomor_label : regex :=
  seqs [WordB; Grp 1 (alts [lit "Nomor"; lit "No"]); WordB; star space;
        star (Cls false (chars ":=.-")); star space;
        Cls false [range "A" "Z"; range "a" "z"; range "0" "9"]].

(* (?i)(kepada|yth).{0,50}(lurah|kelurahan).{0,20}pela\s+mampang
   with re.DOTALL *)
Definition re_recipient : regex :=
  seqs [Grp 1 (alts [lit "kepada"; lit "yth"]); rep 0 50 Dot;
        Grp 2 (alts [lit "lurah"; lit "kelurahan"]); rep 0 20 Dot;
        lit "pela"; plus space; lit "mampang"].

(* ^\d{1,3}[-/][A-Z]{2}\.\d *)
Definition re_nomor_keluar_code : regex :=
  seqs [Bol; rep 1 3 digit; Cls false (chars "-/"); upper2; Lit "."; digit].

(* ^\d{1,3}/\d{2}/\d{2} *)
Definition re_nomor_keluar_segments : regex :=
  seqs [Bol; rep 1 3 digit; Lit "/"; rep 2 2 digit; Lit "/"; rep 2 2 digit].

(* (?i)(?:^|/|[-_])SM(?:/|[-_]|$)   and the same with SK *)
Definition re_marker (tag : string) : regex :=
  seqs [alts [Bol; Lit "/"; Cls false (chars "-_")]; lit tag;
        alts [Lit "/"; Cls false (chars "-_"); Eol]].

(* (?i)\bmasuk\b   and   (?i)\bkeluar\b *)
Definition re_whole_word (w : string) : regex := seqs [WordB; lit w; WordB].

Definition classification : Type := (option string * Q * string)%type.

Section Classifier.

(** [USE_ML_CLASSIFIER] and [ml_classify]: [None] when the import
    failed; the function gives [None] when the call raises. *)
Variable ml : option (string -> option (string * Q)).

Definition ml_fallback (text : string) : option classification :=
  match ml with
  | Some ml_classify =>
      if 50 <? String.length (strip text) then
        match ml_classify text with
        | Some (jenis, confidence) =>
            if negb (Qle_bool confidence 0.80%Q)
            then Some (Some jenis, confidence, "ml-classifier")
            else None
        | None => None
        end
      else None
  | None => None
  end.

Definition filename_hint (filename : option string) : option classification :=
  match filename with
  | Some fname =>
      if negb (truthy_str fname) then None else
      let name := rsplit_once_head "." fname in
      if found ignorecase (re_marker "SM") name
         || found ignorecase (re_whole_word "masuk") name
      then Some (Some "masuk", 0.70%Q, "filename-hint")
      else if found ignorecase (re_marker "SK") name
              || found ignorecase (re_whole_word "keluar") name
      then Some (Some "keluar", 0.70%Q, "filename-hint")
      else None
  | None => None
  end.

Definition nomor_pattern (nomor : option string) : option classification :=
  match nomor with
  | Some n =>
      if negb (truthy_str n) then None
      else if found plain re_nomor_keluar_code n
      then Some (Some "keluar", 0.90%Q, "nomor-pattern-keluar")
      else if found plain re_nomor_keluar_segments n
      then Some (Some "keluar", 0.90%Q, "nomor-pattern-keluar")
      else if found ignorecase (re_marker "SM") n
      then Some (Some "masuk", 0.90%Q, "nomor-pattern-SM")
      else None
  | None => None
  end.

Definition has_lainnya_keyword (T : string) : bool :=
  let first_500 := upper (take 500 T) in
  existsb (fun kw => contains kw first_500) lainnya_keywords.

Definition has_nomor_label (T : string) : bool :=
  found ignorecase re_nomor_label T.

Definition detect_jenis (text : string) (nomor filename : option string)
  : classification :=
  let T := _clean_text text in
  let lines := firstn 30 (splitlines T) in
  let header_text := upper (join " " lines) in
  if has_lainnya_keyword T then (Some "lainnya", 0.90%Q, "non-letter-keywords")
  else if negb (has_nomor_label T) then (Some "lainnya", 0.85%Q, "no-nomor-label")
  else
  let header_first_10_lines := upper (join " " (firstn 10 lines)) in
  let has_kop_pela_mampang_top :=
    existsb (fun p => contains p header_first_10_lines) kop_patterns
    || (contains "PELA MAMPANG" header_first_10_lines
        && contains "MAMPANG PRAPATAN" header_first_10_lines) in
  let is_recipient_pela_mampang :=
    found ignorecase_dotall re_recipient (take 1000 T) in
  if has_kop_pela_mampang_top && negb is_recipient_pela_mampang
  then (Some "keluar", 0.95%Q, "kop-pela-mampang")
  else if is_recipient_pela_mampang
  then (Some "masuk", 0.95%Q, "recipient-pela-mampang")
  else
  match nomor_pattern nomor with
  | Some result => result
  | None =>
  if contains "PEMERINTAH" header_text && negb has_kop_pela_mampang_top then
    if contains "KEPADA" header_text
       && (contains "YTH" header_text || contains "YANG TERHORMAT" header_text)
    then
      if is_recipient_pela_mampang
      then (Some "masuk", 0.95%Q, "pemerintah-to-pela-mampang")
      else (Some "keluar", 0.80%Q, "kepada-yth-pattern")
    else (Some "masuk", 0.85%Q, "pemerintah-header")
  else if contains "KEMENTERIAN" header_text || contains "DEWAN" header_text
          || contains "PT." header_text
  then (Some "masuk", 0.85%Q, "external-institution")
  else
  match filename_hint filename with
  | Some result => result
  | None =>
  match ml_fallback text with
  | Some result => result
  | None => (Some "lainnya", 0.60%Q, "default-fallback")
  end end end.

End Classifier.

(** *** [extract_perihal] *)

Definition DQUOTE : ascii := "034"%char.

(* \b[O0][S5IB0-9]\s*[Q]?\s*/\s*[A-Z]{2}\.[0-9.]+   with re.IGNORECASE,
   where Q stands for the three characters apostrophe, double quote and
   grave accent *)
Definition re_perihal_ocr_nomor : regex :=
  seqs [WordB; Cls false (chars "O0");
        Cls false (chars "S5IB" ++ [range "0" "9"])%list; star space;
        opt (Cls false [CChar "'"; CChar DQUOTE; CChar "`"]); star space;
        Lit "/"; star space; upper2; Lit "."; digits_dots].

(* ^\d{2,3}\s*/\s*[A-Z]{2}\.[0-9.]+\s+\d{1,2}\s+\w+\s+\d{4} *)
Definition re_perihal_nomor_tanggal : regex :=
  seqs [Bol; rep 2 3 digit; star space; Lit "/"; star space; upper2; Lit ".";
        digits_dots; plus space; rep 1 2 digit; plus space; plus word;
        plus space; rep 4 4 digit].

(* (?i)\bYth\.   and   (?i)\bKepada\b *)
Definition re_yth_dot : regex := seqs [WordB; lit "Yth"; Lit "."].
Definition re_kepada : regex := seqs [WordB; lit "Kepada"; WordB].

(* (?i)\s+(kebakaran|di|jakarta|tanggal|nomor)\s*$ *)
Definition re_trailing_label : regex :=
  seqs [plus space;
        Grp 1 (alts [lit "kebakaran"; lit "di"; lit "jakarta"; lit "tanggal";
                     lit "nomor"]);
        star space; Eol].

(* ^\d{1,2}[-/\s]\w+[-/\s]\d{2,4}$ *)
Definition re_perihal_date : regex :=
  seqs [Bol; rep 1 2 digit; Cls false [CChar "-"; CChar "/"; CSpace];
        plus word; Cls false [CChar "-"; CChar "/"; CSpace]; rep 2 4 digit; Eol].

Definition header_indicators : list string :=
  ["PEMERINTAH"; "PROVINSI"; "DAERAH"; "KHUSUS"; "IBUKOTA";
   "KOTA"; "ADMINISTRASI"; "KECAMATAN"; "KELURAHAN";
   "DINAS"; "KEMENTERIAN"; "REPUBLIK"].

(** The [for pattern in [...]] loop that cuts a trailing recipient. *)
Fixpoint cut_recipient (pats : list regex) (cleaned : string) : string :=
  match pats with
  | [] => cleaned
  | pattern :: pats' =>
      match split ignorecase pattern cleaned with
      | part0 :: _ =>
          if 3 <=? String.length (strip part0)
          then strip_chars " ,.;" part0
          else cut_recipient pats' cleaned
      | [] => cut_recipient pats' cleaned
      end
  end.

Definition _sanitize_perihal (value : string) : option string :=
  if negb (truthy_str value) then None else
  let cleaned := lstrip_chars ":- " (strip value) in
  if found ignorecase re_perihal_ocr_nomor cleaned then None
  else if found plain re_perihal_nomor_tanggal cleaned then None
  else
  let cleaned := cut_recipient [re_yth_dot; re_kepada] cleaned in
  let cleaned := strip (sub ignorecase re_trailing_label (fun _ => "") cleaned) in
  let header_count :=
    List.length (filter (fun keyword => contains keyword (upper cleaned))
                        header_indicators) in
  if 3 <=? header_count then None
  else if mem_str (upper cleaned) HEADER_KEYWORDS then None
  else if (String.length cleaned <? 5) || isdigit cleaned then None
  else if matches plain re_perihal_date cleaned then None
  else if isupper cleaned && (40 <? String.length cleaned) then None
  else Some cleaned.

(** [if sanitized:] *)
Definition nonempty (o : option string) : option string :=
  match o with
  | Some s => if truthy_str s then Some s else None
  | None => None
  end.

(* (?i)\b(Hal|Perihal)\b *)
Definition re_hal : regex :=
  seqs [WordB; Grp 1 (alts [lit "Hal"; lit "Perihal"]); WordB].

(** Priority 2, the loop over [remainder.splitlines()[:10]]. *)
Fixpoint collect_direct (lines : list string) (collected : list string)
  : list string :=
  match lines with
  | [] => collected
  | l :: rest =>
      let line := strip l in
      if negb (truthy_str line) then
        match collected with
        | [] => collect_direct rest collected
        | _ => collected
        end
      else if is_label line then collected
      else if matches ignorecase re_new_section line then collected
      else collect_direct rest (collected ++ [line])%list
  end.

Definition perihal_direct (T : string) : option string :=
  match search ignorecase re_hal T with
  | Some label_match =>
      let remainder :=
        lstrip_chars (String TAB (String CR (String LF " :-")))
                     (drop (mo_end label_match) T) in
      match collect_direct (firstn 10 (splitlines remainder)) [] with
      | [] => None
      | collected => nonempty (_sanitize_perihal (join " " collected))
      end
  | None => None
  end.

(* (?i)\b(Permohonan|Balasan|Undangan|Disposisi|Pemberitahuan|Pengajuan|
        Laporan|Penyampaian|Permintaan)\b *)
Definition re_keywords : regex :=
  seqs [WordB;
        Grp 1 (alts [lit "Permohonan"; lit "Balasan"; lit "Undangan";
                     lit "Disposisi"; lit "Pemberitahuan"; lit "Pengajuan";
                     lit "Laporan"; lit "Penyampaian"; lit "Permintaan"]);
        WordB].

(** Priority 3, the loop over [lines[5:40]]. *)
Fixpoint perihal_keyword (lines : list string) : option string :=
  match lines with
  | [] => None
  | l :: rest =>
      if found ignorecase re_keywords l then
        match nonempty (_sanitize_perihal (strip l)) with
        | Some sanitized =>
            if 10 <? String.length sanitized then Some sanitized
            else perihal_keyword rest
        | None => perihal_keyword rest
        end
      else perihal_keyword rest
  end.

(* ^\s*[A-Za-z0-9.\-\/]+\s+(.+)$ *)
Definition re_filename_perihal : regex :=
  seqs [Bol; star space; plus alnum_dot_sep; plus space; Grp 1 (plus Dot); Eol].

Definition perihal_filename (filename : option string) : option string :=
  match filename with
  | Some fname =>
      if negb (truthy_str fname) then None else
      let name := rsplit_once_head "." fname in
      match rmatch plain re_filename_perihal name with
      | Some mm =>
          let perihal_candidate := strip (group_or_empty mm 1) in
          if 3 <? String.length perihal_candidate
          then Some perihal_candidate else None
      | None => None
      end
  | None => None
  end.

Definition first_some (a b : option string) : option string :=
  match a with Some x => Some x | None => b end.

Definition extract_perihal (text : string) (filename : option string)
  : option string :=
  let T := _clean_text (preclean text) in
  let perihal_value := dict_get "perihal" (extract_label_block_values T) in
  let from_label :=
    match perihal_value with
    | Some v => if truthy_str v then nonempty (_sanitize_perihal v) else None
    | None => None
    end in
  first_some from_label
    (first_some (perihal_direct T)
       (first_some (perihal_keyword (firstn 35 (skipn 5 (splitlines T))))
                   (perihal_filename filename))).

(** *** [parse_metadata] *)

Record extraction_stats : Type := {
  fields_extracted : nat;
  total_fields : nat;
  text_length : nat;
  has_header : bool;
  has_signature : bool;
  stats_jenis_confidence : Q;
  stats_jenis_method : string
}.

(** The dictionary [parse_metadata] returns.  The key ["perihal"] may be
    missing: [perihal = None] is the missing key, [Some None] the key
    holding [None]. *)
Record parsed : Type := {
  nomor : option string;
  tanggal_surat : option string;
  tahun : option Z;
  jenis : option string;
  jenis_confidence : Q;
  jenis_method : string;
  _extraction_stats : extraction_stats;
  perihal : option (option string)
}.

(** [parsed.get("perihal")] *)
Definition get_perihal (p : parsed) : option string :=
  match perihal p with Some v => v | None => None end.

Definition is_keluar (jenis : option string) : bool :=
  eqb_opt jenis (Some "keluar").

Definition bool_nat (b : bool) : nat := if b then 1 else 0.

Section Parser.

Variable ml : option (string -> option (string * Q)).
Variable locale_month : Z -> string.

(** [parse_metadata] with the subject extractor it calls left open, so
    that an invocation can be told from none.  The argument [uploaded_at]
    is never read and is left out. *)
Definition parse_metadata_with
           (extract_subject : string -> option string -> option string)
           (text : string) (filename : option string) : parsed :=
  let nomor := extract_nomor_surat text filename in
  let dt := extract_tanggal text in
  let tanggal_str := tanggal_str locale_month dt in
  let tahun := option_map year dt in
  let '(jenis, jenis_confidence, jenis_method) :=
    detect_jenis ml text nomor filename in
  let perihal :=
    if negb (is_keluar jenis) then extract_subject text filename else None in
  let stats :=
    {| fields_extracted :=
         bool_nat (truthy_opt nomor)
         + bool_nat (if negb (is_keluar jenis) then truthy_opt perihal else false)
         + bool_nat (truthy_opt tanggal_str)
         + bool_nat (truthy_Z tahun)
         + bool_nat (truthy_opt jenis);
       total_fields := 5;
       text_length := String.length text;
       has_header := false;
       has_signature := false;
       stats_jenis_confidence := jenis_confidence;
       stats_jenis_method := jenis_method |} in
  {| nomor := nomor;
     tanggal_surat := tanggal_str;
     tahun := tahun;
     jenis := jenis;
     jenis_confidence := jenis_confidence;
     jenis_method := jenis_method;
     _extraction_stats := stats;
     perihal := if negb (is_keluar jenis) then Some perihal else None |}.

Definition parse_metadata : string -> option string -> parsed :=
  parse_metadata_with extract_perihal.

End Parser.

End Metadata.

(** ** app/routers/upload.py *)

Module Upload.

Import Py Re Metadata.

(** *** [extract_bulan] *)

Definition MONTHS : list string :=
  ["Januari"; "Februari"; "Maret"; "April"; "Mei"; "Juni";
   "Juli"; "Agustus"; "September"; "Oktober"; "November"; "Desember"].

Definition MONTHS_EN : list string :=
  ["January"; "February"; "March"; "April"; "May"; "June";
   "July"; "August"; "September"; "October"; "November"; "December"].

Definition extract_bulan (tanggal_surat : option string) : option string :=
  match tanggal_surat with
  | None => None
  | Some tanggal =>
      if negb (truthy_str tanggal) then None else
      let tanggal_lower := lower tanggal in
      match find (fun month => contains (lower month) tanggal_lower) MONTHS with
      | Some month => Some month
      | None =>
          match find (fun '(i, month_en) =>
                        contains (lower month_en) tanggal_lower)
                     (enumerate MONTHS_EN) with
          | Some (i, _) => Some (nth i MONTHS EmptyString)
          | None => None
          end
      end
  end.

(** *** Metadata quality *)

Record quality : Type := {
  score : Z;
  warnings : list string;
  q_ocr_used : bool
}.

Definition add_score (w : Z) (q : quality) : quality :=
  {| score := score q + w; warnings := warnings q; q_ocr_used := q_ocr_used q |}.

Definition add_warning (w : string) (q : quality) : quality :=
  {| score := score q; warnings := (warnings q ++ [w])%list;
     q_ocr_used := q_ocr_used q |}.

(** max(0, score - n), with its warning *)
Definition penalize (n : Z) (w : string) (q : quality) : quality :=
  {| score := Z.max 0 (score q - n); warnings := (warnings q ++ [w])%list;
     q_ocr_used := q_ocr_used q |}.

(** [value and value != default] for each row of [quality_checks]; only
    the nomor row has a default, the sentinel. *)
Definition quality_checks (p : parsed) : list (bool * Z * string) :=
  [ (truthy_opt (nomor p) && negb (eqb_opt (nomor p) (Some "TANPA-NOMOR")),
     30%Z, "Nomor surat tidak terdeteksi");
    (truthy_opt (tanggal_surat p), 20%Z, "Tanggal surat tidak terdeteksi");
    (truthy_Z (tahun p), 10%Z, "Tahun tidak terdeteksi");
    (truthy_opt (jenis p), 10%Z, "Jenis surat tidak terdeteksi") ].

Definition perihal_warning : string :=
  "Perihal tidak terdeteksi (wajib untuk surat keluar)".

Definition has_perihal (p : parsed) : bool :=
  truthy_opt (get_perihal p)
  && negb (eqb_opt (get_perihal p) (Some "Tidak ada perihal")).

Definition check_field (q : quality) (row : bool * Z * string) : quality :=
  let '(ok, weight, warning) := row in
  if ok then add_score weight q else add_warning warning q.

(** The score and warnings once the four fields and the perihal have
    been weighed, before the text and OCR checks. *)
Definition field_quality (p : parsed) (ocr_used : bool) : quality :=
  let q0 := {| score := 0; warnings := []; q_ocr_used := ocr_used |} in
  let q1 := fold_left check_field (quality_checks p) q0 in
  if is_keluar (jenis p) then
    if has_perihal p then add_score 25 q1 else add_warning perihal_warning q1
  else
    if has_perihal p then add_score 15 q1 else q1.

Section Quality.

(** How an f-string prints the float [success_rate]. *)
Variable show_rate : Q -> string.

Definition text_quality (text_length : nat) (ocr_used : bool) (q : quality)
  : quality :=
  if text_length <? 100 then
    penalize 15 "Teks terekstrak sangat pendek (kualitas OCR buruk)" q
  else if ocr_used && (text_length <? 300) then
    penalize 5 "Teks hasil OCR kurang lengkap" q
  else q.

(** [ocr_stats]: [None] for a missing or empty dictionary, [Some None]
    for one without the key [success_rate]. *)
Definition ocr_quality (ocr_used : bool) (ocr_stats : option (option Q))
           (q : quality) : quality :=
  match ocr_stats with
  | Some stats =>
      if ocr_used then
        let success_rate := match stats with Some r => r | None => 0%Q end in
        if negb (Qle_bool 50 success_rate) then
          penalize 10 ("OCR success rate rendah (" ++ show_rate success_rate ++ "%)") q
        else q
      else q
  | None => q
  end.

Definition metadata_quality (p : parsed) (text_length : nat) (ocr_used : bool)
           (ocr_stats : option (option Q)) : quality :=
  ocr_quality ocr_used ocr_stats
    (text_quality text_length ocr_used (field_quality p ocr_used)).

End Quality.

(** *** Final values *)

(* parsed.get("nomor") or "TANPA-NOMOR" *)
Definition nomor_final (p : parsed) : string :=
  match nomor p with
  | Some n => if truthy_str n then n else "TANPA-NOMOR"
  | None => "TANPA-NOMOR"
  end.

(** [int(tahun)], [None] when it raises or is not positive. *)
Definition tahun_final (tahun : option Z) : option Z :=
  match tahun with
  | Some t => if (t <=? 0)%Z then None else Some t
  | None => None
  end.

Definition allowed_jenis : list string := ["masuk"; "keluar"; "lainnya"].

(** The fallback for a missing jenis, then the check against the
    allowed values. *)
Definition jenis_fallback (jenis : option string) (confidence : Q)
           (method : string) (nomor_final : string) : string * Q * string :=
  let '(jenis_final, jenis_confidence, jenis_method) :=
    match jenis with
    | Some j => (j, confidence, method)
    | None =>
        if found ignorecase (re_marker "SM") nomor_final
        then ("masuk", 0.75%Q, "nomor-pattern")
        else if found ignorecase (re_marker "SK") nomor_final
        then ("keluar", 0.75%Q, "nomor-pattern")
        else ("masuk", 0.50%Q, "default-fallback")
    end in
  if negb (mem_str jenis_final allowed_jenis)
  then ("masuk", 0.50%Q, "invalid-fallback")
  else (jenis_final, jenis_confidence, jenis_method).

(** [perihal_final]: the subject kept for the stored document. *)
Definition perihal_final (p : parsed) : option string :=
  if negb (is_keluar (jenis p)) then
    (if truthy_opt (get_perihal p) then get_perihal p else None)
  else None.

Definition jenis_final (p : parsed) : string * Q * string :=
  jenis_fallback (jenis p) (jenis_confidence p) (jenis_method p) (nomor_final p).

(** *** Foldering *)

(** [base_dir] as the segments appended to [settings.STORAGE_ROOT_DIR]. *)
Definition str_opt_Z (o : option Z) : string :=
  match o with Some z => str_Z z | None => "None" end.

Definition value_of (o : option string) : string :=
  match o with Some s => s | None => EmptyString end.

Definition base_dir (tahun_final : option Z) (jenis_final : string)
           (bulan_final : option string) (slug : string) : list string :=
  if truthy_Z tahun_final && truthy_opt bulan_final then
    [str_opt_Z tahun_final; jenis_final; value_of bulan_final; slug]
  else if truthy_Z tahun_final then
    [str_opt_Z tahun_final; jenis_final; slug]
  else
    [jenis_final; slug].

Definition as_posix (segments : list string) : string := join "/" segments.

Section Foldering.

(** [slugify_nomor] of [app.utils.slugs]. *)
Variable slugify_nomor : string -> string.

(** The folder [upload_document] stores a parsed document in. *)
Definition upload_base_dir (p : parsed) : list string :=
  let bulan_final := extract_bulan (tanggal_surat p) in
  let '(jenis, _, _) := jenis_final p in
  base_dir (tahun_final (tahun p)) jenis bulan_final
           (slugify_nomor (nomor_final p)).

End Foldering.

End Upload.

(** ** app/services/ocr.py *)

Module Ocr.

Import Py.

(** What a call does: it returns, or it raises. *)
Inductive outcome (A : Type) : Type :=
| Returned (a : A)
| Raised.
Arguments Returned {A} a.
Arguments Raised {A}.

(** One page of the document, as the calls made on it behave.
    - [load_page]: the step of [enumerate(doc, start=1)] that yields the
      page, with the message of its exception when it raises;
    - [get_pixmap]: [page.get_pixmap(dpi=dpi)];
    - [prepare]: writing the pixmap as a PNG into the temporary
      directory, [Image.open] and [img.convert];
    - [enhance]: the contrast and sharpness step, whose exception is
      caught and dropped;
    - [ocr_lang]: [image_to_string(img, lang=TESSERACT_LANG)];
    - [ocr_default]: [image_to_string(img)], tried when the first raises. *)
Record page : Type := {
  load_page : unit + string;
  get_pixmap : outcome unit;
  prepare : outcome unit;
  enhance : outcome unit;
  ocr_lang : outcome string;
  ocr_default : outcome string
}.

Record ocr_state : Type := {
  text_chunks : list string;
  success_pages : nat;
  failed_pages : nat
}.

Definition initial : ocr_state :=
  {| text_chunks := []; success_pages := 0; failed_pages := 0 |}.

(* bool(txt and txt.strip()) *)
Definition page_success (txt : string) : bool :=
  truthy_str txt && truthy_str (strip txt).

(** The text and success flag of the recognition step. *)
Definition recognize (p : page) : string * bool :=
  match ocr_lang p with
  | Returned txt => (txt, page_success txt)
  | Raised =>
      match ocr_default p with
      | Returned txt => (txt, page_success txt)
      | Raised => (EmptyString, false)
      end
  end.

(** The body of [for page_number, page in enumerate(doc, start=1)]. *)
Definition process_page (st : ocr_state) (p : page) : ocr_state :=
  match get_pixmap p with
  | Raised =>
      {| text_chunks := text_chunks st;
         success_pages := success_pages st;
         failed_pages := S (failed_pages st) |}
  | Returned _ =>
      match prepare p with
      | Raised =>
          {| text_chunks := (text_chunks st ++ [EmptyString])%list;
             success_pages := success_pages st;
             failed_pages := failed_pages st |}
      | Returned _ =>
          let '(txt, ok) := recognize p in
          {| text_chunks := (text_chunks st ++ [txt])%list;
             success_pages := if ok then S (success_pages st) else success_pages st;
             failed_pages := if ok then failed_pages st else S (failed_pages st) |}
      end
  end.

(** The loop [for page_number, page in enumerate(doc, start=1)].  The
    iteration yields the next page, or it raises: the exception is caught
    by the outer handler alone, so it ends the loop with the state
    reached so far and its message. *)
Fixpoint for_pages (st : ocr_state) (doc : list page)
  : ocr_state * option string :=
  match doc with
  | [] => (st, None)
  | p :: doc' =>
      match load_page p with
      | inl _ => for_pages (process_page st p) doc'
      | inr e => (st, Some e)
      end
  end.

(** The state in which the loop ends. *)
Definition process_pages (doc : list page) : ocr_state :=
  fst (for_pages initial doc).

Record ocr_stats : Type := {
  total_pages : nat;
  stat_success_pages : nat;
  stat_failed_pages : nat;
  total_chars : nat;
  error : option string
}.

(** The libraries the module imports at load time. *)
Record deps : Type := { pytesseract : bool; fitz : bool; Image : bool }.

Definition empty_stats (err : string) : ocr_stats :=
  {| total_pages := 0; stat_success_pages := 0; stat_failed_pages := 0;
     total_chars := 0; error := Some err |}.

(** [ocr_pdf_to_text]; [doc] is what [fitz.open(path)] gives, with the
    message of the exception when it or [doc.page_count] raises.  When
    the loop is left by an exception, the outer handler returns the empty
    text with the counters as they stand and the error.  The keys [dpi],
    [language], [method] and the rounded float [success_rate] are not
    carried. *)
Definition ocr_pdf_to_text (d : deps) (doc : list page + string)
  : string * ocr_stats :=
  if negb (pytesseract d) then (EmptyString, empty_stats "pytesseract not available")
  else if negb (fitz d) then (EmptyString, empty_stats "PyMuPDF not available")
  else if negb (Image d) then (EmptyString, empty_stats "PIL/Pillow not available")
  else
    match doc with
    | inr e => (EmptyString, empty_stats e)
    | inl pages =>
        let st := process_pages pages in
        match snd (for_pages initial pages) with
        | Some e =>
            (EmptyString,
             {| total_pages := List.length pages;
                stat_success_pages := success_pages st;
                stat_failed_pages := failed_pages st;
                total_chars := 0;
                error := Some e |})
        | None =>
            let result :=
              join Metadata.nl (filter page_success (text_chunks st)) in
            (strip result,
             {| total_pages := List.length pages;
                stat_success_pages := success_pages st;
                stat_failed_pages := failed_pages st;
                total_chars := String.length result;
                error := None |})
        end
    end.

End Ocr.

(** ** app/services/text_extraction.py *)

Module TextExtraction.

Import Py Ocr.

Definition PDF_MIME : string := "application/pdf".
Definition DOCX_MIME : string :=
  "application/vnd.openxmlformats-officedocument.wordprocessingml.document".

(** A path, as the segments of its [as_posix()]. *)
Definition path : Type := list string.

(** What the function does to the file system, in order. *)
Inductive fs_action : Type :=
| Mkdir (p : path)
| WriteBytes (p : path) (content : string)
| WriteText (p : path) (text : string)
| Unlink (p : path).

(** The dictionary [ocr_stats]: the statistics of [ocr_pdf_to_text], the
    marker of the external function, or an error message. *)
Inductive stats : Type :=
| OcrStats (s : ocr_stats)
| ExternalStats
| ErrorStats (message : string).

(** How the lazy import and the call of [ocr_pdf_to_text] end. *)
Inductive internal_ocr : Type :=
| ImportFailed (message : string)
| OcrRaised (message : string)
| OcrReturned (text : string) (s : ocr_stats).

Record extraction : Type := {
  text_path : option path;
  text_content : string;
  ocr_used : bool;
  extraction_ocr_stats : option stats
}.

(** The function returns, or an exception of the PDF parser leaves it;
    either way with the file system actions done so far. *)
Inductive result : Type :=
| Done (e : extraction) (effects : list fs_action)
| Failed (effects : list fs_action).

Section Extractor.

(** [settings.TEMP_UPLOAD_PATH], [TMP_UPLOAD_NAME] and [TEXT_FILENAME]. *)
Variable temp_upload_path : path.
Variable TMP_UPLOAD_NAME : string.
Variable TEXT_FILENAME : string.

(** [extract_text_from_pdf] and [extract_text_from_docx] of the parser
    modules, as they answer for the uploaded file: the text may be
    [None]. *)
Variable extract_text_from_pdf : path -> outcome (option string * bool).
Variable extract_text_from_docx : path -> outcome (option string).

(** [self.external_ocr_pdf], when one was given; an exception carries
    its message. *)
Variable external_ocr_pdf : option (path -> string + string).

(** [app.services.ocr.ocr_pdf_to_text], with its import. *)
Variable ocr_pdf_to_text : path -> internal_ocr.

(* (text or "") *)
Definition or_empty (text : option string) : string :=
  match text with Some t => t | None => EmptyString end.

(** The OCR fallback: the recognised text and the statistics. *)
Definition run_ocr (tmp_path : path) : string * option stats :=
  match external_ocr_pdf with
  | Some external =>
      match external tmp_path with
      | inl ocr_text => (ocr_text, Some ExternalStats)
      | inr e => (EmptyString, Some (ErrorStats e))
      end
  | None =>
      match ocr_pdf_to_text tmp_path with
      | OcrReturned ocr_text s => (ocr_text, Some (OcrStats s))
      | ImportFailed e =>
          (EmptyString, Some (ErrorStats ("Import error: " ++ e)%string))
      | OcrRaised e => (EmptyString, Some (ErrorStats e))
      end
  end.

Definition extract_text_and_save (content mime_type : string) (base_dir : path)
           (temp_file_name : option string) : result :=
  let name :=
    match temp_file_name with
    | Some n => if truthy_str n then n else TMP_UPLOAD_NAME
    | None => TMP_UPLOAD_NAME
    end in
  let ext := if String.eqb mime_type PDF_MIME then ".pdf" else ".docx" in
  let tmp_path := (temp_upload_path ++ [(name ++ ext)%string])%list in
  let written := [Mkdir temp_upload_path; WriteBytes tmp_path content] in
  let finish (text_content : string) (ocr_used : bool)
             (ocr_stats : option stats) : result :=
    let text_path :=
      if truthy_str text_content then Some (base_dir ++ [TEXT_FILENAME])%list
      else None in
    Done {| text_path := text_path; text_content := text_content;
            ocr_used := ocr_used; extraction_ocr_stats := ocr_stats |}
         (written
            ++ match text_path with
               | Some p => [WriteText p text_content]
               | None => []
               end
            ++ [Unlink tmp_path])%list in
  if String.eqb mime_type PDF_MIME then
    match extract_text_from_pdf tmp_path with
    | Raised => Failed written
    | Returned (text, is_scanned) =>
        let text_content := strip (or_empty text) in
        let word_count := List.length (split_ws text_content) in
        let needs_ocr := is_scanned && (word_count <? 50) in
        if needs_ocr then
          let '(ocr_text, ocr_stats) := run_ocr tmp_path in
          if truthy_str ocr_text && (0 <? String.length (strip ocr_text))
          then finish ocr_text true ocr_stats
          else finish text_content false ocr_stats
        else finish text_content false None
    end
  else if String.eqb mime_type DOCX_MIME then
    match extract_text_from_docx tmp_path with
    | Returned text => finish (strip (or_empty text)) false None
    | Raised => finish EmptyString false None
    end
  else finish EmptyString false None.

End Extractor.

(** The extractor of the module, [_default_extractor]: no external
    function, and the OCR of [app/services/ocr.py] on the document that
    [fitz] opens. *)
Definition default_ocr (d : deps) (open : path -> list page + string)
           (p : path) : internal_ocr :=
  let '(text, s) := Ocr.ocr_pdf_to_text d (open p) in OcrReturned text s.

End TextExtraction.

(** ** app/services/classifier_ml.py *)

Module ClassifierMl.

Import Py Re Ocr.

(** Confidences are binary64 floats, computed as Python computes them. *)
Definition float_of_nat (n : nat) : float :=
  PrimFloat.of_uint63 (Uint63.of_Z (Z.of_nat n)).

(** [min(a, b)]: the first of the smallest. *)
Definition py_min (a b : float) : float :=
  if PrimFloat.ltb b a then b else a.

Definition ws : regex := plus space.                (* \s+ *)

Definition SURAT_KELUAR_INDICATORS : list regex :=
  [ (* kepada\s+yth\.? *)
    seqs [lit "kepada"; ws; lit "yth"; opt (Lit ".")];
    (* kepada\s+yang\s+terhormat *)
    seqs [lit "kepada"; ws; lit "yang"; ws; lit "terhormat"];
    (* yth\.?\s+(bapak|ibu|saudara) *)
    seqs [lit "yth"; opt (Lit "."); ws;
          Grp 1 (alts [lit "bapak"; lit "ibu"; lit "saudara"])];
    (* di\s+tempat *)
    seqs [lit "di"; ws; lit "tempat"];
    (* di\s+-\s+ *)
    seqs [lit "di"; ws; Lit "-"; ws];
    (* demikian\s+(kami\s+)?sampaikan *)
    seqs [lit "demikian"; ws; opt (Grp 1 (seqs [lit "kami"; ws]));
          lit "sampaikan"];
    (* atas\s+perhatian(nya)?\s+(kami\s+)?ucapkan *)
    seqs [lit "atas"; ws; lit "perhatian"; opt (Grp 1 (lit "nya")); ws;
          opt (Grp 2 (seqs [lit "kami"; ws])); lit "ucapkan"];
    (* hormat\s+kami *)
    seqs [lit "hormat"; ws; lit "kami"];
    (* (lurah|camat|kepala\s+seksi|kasi)\s+pela\s+mampang *)
    seqs [Grp 1 (alts [lit "lurah"; lit "camat";
                       seqs [lit "kepala"; ws; lit "seksi"]; lit "kasi"]);
          ws; lit "pela"; ws; lit "mampang"];
    (* (an\.\s+)?(lurah|camat) *)
    seqs [opt (Grp 1 (seqs [lit "an"; Lit "."; ws]));
          Grp 2 (alts [lit "lurah"; lit "camat"])];
    (* pemerintah\s+(provinsi|kota).*kelurahan\s+pela\s+mampang *)
    seqs [lit "pemerintah"; ws; Grp 1 (alts [lit "provinsi"; lit "kota"]);
          star Dot; lit "kelurahan"; ws; lit "pela"; ws; lit "mampang"];
    (* kelurahan\s+pela\s+mampang.*kecamatan\s+mampang\s+prapatan *)
    seqs [lit "kelurahan"; ws; lit "pela"; ws; lit "mampang"; star Dot;
          lit "kecamatan"; ws; lit "mampang"; ws; lit "prapatan"];
    (* surat\s+keputusan *)
    seqs [lit "surat"; ws; lit "keputusan"];
    (* surat\s+perintah *)
    seqs [lit "surat"; ws; lit "perintah"];
    (* surat\s+tugas *)
    seqs [lit "surat"; ws; lit "tugas"];
    (* surat\s+keterangan *)
    seqs [lit "surat"; ws; lit "keterangan"];
    (* surat\s+edaran *)
    seqs [lit "surat"; ws; lit "edaran"] ].

Definition SURAT_INDICATORS : list regex :=
  [ (* no(mor)?\.?\s*[:.]?\s*\d+ *)
    seqs [lit "no"; opt (Grp 1 (lit "mor")); opt (Lit "."); star space;
          opt (Cls false (chars ":.")); star space; plus digit];
    (* \d+/\w+/\w+/\d+ *)
    seqs [plus digit; Lit "/"; plus word; Lit "/"; plus word; Lit "/";
          plus digit];
    (* perihal\s*: *)
    seqs [lit "perihal"; star space; Lit ":"];
    (* hal\s*: *)
    seqs [lit "hal"; star space; Lit ":"];
    (* lampiran\s*: *)
    seqs [lit "lampiran"; star space; Lit ":"];
    (* surat\s+(masuk|keluar|undangan|permohonan) *)
    seqs [lit "surat"; ws;
          Grp 1 (alts [lit "masuk"; lit "keluar"; lit "undangan";
                       lit "permohonan"])];
    (* (kepada|dari)\s+(yth|yang terhormat) *)
    seqs [Grp 1 (alts [lit "kepada"; lit "dari"]); ws;
          Grp 2 (alts [lit "yth"; lit "yang terhormat"])];
    (* dengan\s+hormat *)
    seqs [lit "dengan"; ws; lit "hormat"] ].

(** The number of patterns of a list found in [t], with IGNORECASE. *)
Definition count_found (patterns : list regex) (t : string) : nat :=
  List.length (filter (fun pattern => found ignorecase pattern t) patterns).

Definition classify_rules (text : string) : string * float :=
  let t := lower text in
  let keluar_count := count_found SURAT_KELUAR_INDICATORS t in
  let surat_count := count_found SURAT_INDICATORS t in
  if 3 <=? keluar_count then
    ("keluar", py_min 0.95 (0.6 + float_of_nat keluar_count * 0.1)%float)
  else if 1 <=? surat_count then
    ("masuk", py_min 0.90 (0.55 + float_of_nat surat_count * 0.1)%float)
  else ("lainnya", 0.65%float).

Section Model.

(** [ML_MODEL]: [None] when no model file was loaded; the model gives
    its prediction and the greatest of its probabilities, or raises. *)
Variable ML_MODEL : option (string -> outcome (string * float)).

Definition classify_ml (predict : string -> outcome (string * float))
           (text : string) : string * float :=
  match predict text with
  | Returned (prediction, confidence) =>
      let jenis := if String.eqb prediction "keluar" then "keluar" else "masuk" in
      if PrimFloat.ltb confidence 0.70
      then classify_rules text
      else (jenis, confidence)
  | Raised => classify_rules text
  end.

Definition classify (text : string) : string * float :=
  match ML_MODEL with
  | Some predict => classify_ml predict text
  | None => classify_rules text
  end.

(** [predict_jenis] of app/routers/upload.py: the answer of the
    endpoint, as (predicted_jenis, confidence, method). *)
Definition predict_jenis (text : string) : string * float * string :=
  let '(jenis, confidence) := classify text in
  (jenis, confidence,
   if PrimFloat.ltb 0.7 confidence then "ml" else "rule-based").

End Model.

End ClassifierMl.

(** * Notions used in the statements *)

Import Py Re Metadata Upload Ocr.

(** ** Inputs of the examples *)

(** The text of the end-to-end scenario. *)
Definition scenario_text : string :=
  "Nomor: 12/AB.01.02" ++ nl ++ "Tanggal: 5 Mei 2024" ++ nl
  ++ "Perihal: Undangan Rapat" ++ nl.

(** A text without a slash, with a number to repair. *)
Definition slash_free_sample : string :=
  "  Nomor:   O12-AB.l3 " ++ nl ++ nl ++ " " ++ nl ++ nl
  ++ String TAB "Rapat RW 05  ".

(** Records as [parse_metadata] builds them. *)
Definition parsed_with_jenis (j : option string) : parsed :=
  {| nomor := Some "12/X/2024"; tanggal_surat := None; tahun := None;
     jenis := j; jenis_confidence := 0.91%Q; jenis_method := "ml-classifier";
     _extraction_stats :=
       {| fields_extracted := 2; total_fields := 5; text_length := 60;
          has_header := false; has_signature := false;
          stats_jenis_confidence := 0.91%Q;
          stats_jenis_method := "ml-classifier" |};
     perihal := Some None |}.

Definition parsed_masuk_no_subject : parsed :=
  {| nomor := Some "12/SM/2024"; tanggal_surat := Some "05 May 2024";
     tahun := Some 2024%Z; jenis := Some "masuk";
     jenis_confidence := 0.90%Q; jenis_method := "nomor-pattern-SM";
     _extraction_stats :=
       {| fields_extracted := 4; total_fields := 5; text_length := 40;
          has_header := false; has_signature := false;
          stats_jenis_confidence := 0.90%Q;
          stats_jenis_method := "nomor-pattern-SM" |};
     perihal := Some None |}.

Definition all_deps : deps :=
  {| pytesseract := true; fitz := true; Image := true |}.

(** A page that renders and is read. *)
Definition readable_page : page :=
  {| load_page := inl tt;
     get_pixmap := Returned tt; prepare := Returned tt; enhance := Returned tt;
     ocr_lang := Returned "Nomor: 12/SM/2024"; ocr_default := Raised |}.

(** A page that renders, and whose PNG cannot be written or opened. *)
Definition unreadable_page : page :=
  {| load_page := inl tt;
     get_pixmap := Returned tt; prepare := Raised; enhance := Returned tt;
     ocr_lang := Returned "never read"; ocr_default := Raised |}.

(** ** OCR pages and candidates *)

(** A page that cannot be loaded from the document. *)
Definition damaged_page : page :=
  {| load_page := inr "cannot load page";
     get_pixmap := Returned tt; prepare := Returned tt; enhance := Returned tt;
     ocr_lang := Returned "never read"; ocr_default := Raised |}.

(** The iteration yields the page. *)
Definition loads (p : page) : bool :=
  match load_page p with inl _ => true | inr _ => false end.

(** The pages the loop reaches: those before the first that does not
    load. *)
Fixpoint reached (doc : list page) : list page :=
  match doc with
  | [] => []
  | p :: doc' => if loads p then p :: reached doc' else []
  end.

(** The pages whose failure reaches the handler at the end of the body
    of the loop. *)
Definition escapes (p : page) : bool :=
  match get_pixmap p, prepare p with
  | Returned _, Raised => true
  | _, _ => false
  end.

(** The first candidate of greatest weight. *)
Fixpoint first_max (l : list candidate) : option candidate :=
  match l with
  | [] => None
  | x :: l' =>
      match first_max l' with
      | Some y => if snd x <? snd y then Some y else Some x
      | None => Some x
      end
  end.

(** ** What a pattern needs *)

Definition all_ascii : list ascii := map ascii_of_nat (seq 0 256).

(** Every character accepted by [f] satisfies [P]. *)
Definition only (f P : ascii -> bool) : bool :=
  forallb (fun c => implb (f c) (P c)) all_ascii.

(** [needs fl P r]: every match of [r] consumes a character satisfying
    [P]. *)
Fixpoint needs (fl : flags) (P : ascii -> bool) (r : regex) : bool :=
  match r with
  | Lit x => only (lit_match fl x) P
  | Cls negated items => only (cls_match fl negated items) P
  | Dot => only (fun c => dotall fl || negb (code c =? 10)) P
  | Seq r1 r2 => needs fl P r1 || needs fl P r2
  | Alt r1 r2 => needs fl P r1 && needs fl P r2
  | Rep _ lo _ r1 => (0 <? lo) && needs fl P r1
  | Grp _ r1 => needs fl P r1
  | Eps | Bol | Eol | WordB => false
  end.

(** [st'] lies further in the subject than [st]; when [nd] holds, a
    character satisfying [P] lies between them. *)
Definition reaches (P : ascii -> bool) (nd : Prop) (st st' : mstate) : Prop :=
  exists pre, m_rest st = pre ++ m_rest st'
              /\ (nd -> sexists P pre = true).

(** ** Lengths of matches *)

Definition mk (prev : option ascii) (rest : string) (pos : nat)
           (caps : list (nat * string)) : mstate :=
  {| m_prev := prev; m_rest := rest; m_pos := pos; m_caps := caps |}.

(** Greedy [c*]: the longest run first, then shorter ones. *)
Fixpoint span_try (p : ascii -> bool) (k : mstate -> option mstate)
         (prev : option ascii) (rest : string) (pos : nat)
         (caps : list (nat * string)) : option mstate :=
  match rest with
  | String c rest' =>
      if p c
      then or_else (span_try p k (Some c) rest' (S pos) caps)
                   (k (mk prev rest pos caps))
      else k (mk prev rest pos caps)
  | EmptyString => k (mk prev rest pos caps)
  end.

(** The length of the longest prefix made of [p]. *)
Fixpoint run_len (p : ascii -> bool) (s : string) : nat :=
  match s with
  | String c s' => if p c then S (run_len p s') else 0
  | EmptyString => 0
  end.

(** [o] is a failure when [n = 0], and otherwise a state [n] characters
    after [pos] with the groups [caps]. *)
Definition lands (o : option mstate) (n pos : nat) (caps : list (nat * string))
  : Prop :=
  match n with
  | O => o = None
  | S _ => exists e, o = Some e /\ m_pos e = pos + n /\ m_caps e = caps
  end.

(** Past [pos0], [k] lands where [f] says. *)
Definition lands_from (pos0 : nat) (k : mstate -> option mstate)
           (f : string -> nat) : Prop :=
  forall prev rest pos caps,
    pos0 < pos -> lands (k (mk prev rest pos caps)) (f rest) pos caps.

(** Lengths matched by a pattern that begins with a greedy run of [p]
    followed by one of length [f], and by a character [p] followed by
    a match of length [f]. *)
Fixpoint longest (p : ascii -> bool) (f : string -> nat) (s : string) : nat :=
  match s with
  | String c s' =>
      if p c then
        match longest p f s' with
        | O => f s
        | S m => S (S m)
        end
      else f s
  | EmptyString => f s
  end.

Definition after_char (p : ascii -> bool) (f : string -> nat) (s : string) : nat :=
  match s with
  | String c s' =>
      if p c then match f s' with O => O | S m => S (S m) end else O
  | EmptyString => O
  end.

(** [mlen] gives the length of the match of [r] at the head of every
    subject, 0 for none. *)
Definition measures (fl : flags) (r : regex) (mlen : string -> nat) : Prop :=
  forall must prev s pos,
    match mlen s with
    | O => match_here fl r must prev s pos = None
    | S _ => exists m, match_here fl r must prev s pos = Some m
                       /\ mo_end m = pos + mlen s
    end.

(** The scan [re.sub] makes when the match at a place is [mlen] long
    (none when 0) and is replaced by the constant [rep]. *)
Fixpoint scan (mlen : string -> nat) (rep : string) (fuel : nat) (s : string)
  : string :=
  match fuel with
  | O => s
  | S fuel' =>
      match mlen s with
      | O =>
          match s with
          | EmptyString => EmptyString
          | String c s' => String c (scan mlen rep fuel' s')
          end
      | S _ => rep ++ scan mlen rep fuel' (drop (mlen s) s)
      end
  end.

(** ** The whitespace steps of [_clean_text] *)

(** The classes [ \t], \n and \s of the two patterns. *)
Definition blank : ascii -> bool :=
  cls_match plain false [CChar " "; CChar TAB].
Definition is_lf : ascii -> bool := lit_match plain LF.
Definition spacey : ascii -> bool := cls_match plain false [CSpace].

(** The length matched by [ \t]+ at the head of a string. *)
Definition blanks_len : string -> nat := run_len blank.

(** The length matched by \n\s*\n\s*\n+ at the head of a string. *)
Definition blank_lines_len : string -> nat :=
  after_char is_lf
    (longest spacey (after_char is_lf (longest spacey (run_len is_lf)))).

Definition squeeze_blanks : nat -> string -> string := scan blanks_len " ".

Definition squeeze_lines : nat -> string -> string :=
  scan blank_lines_len (nl ++ nl).

(** Every run of spaces and tabs is a single space. *)
Fixpoint squeezed (s : string) : bool :=
  match s with
  | EmptyString => true
  | String c s' =>
      (negb (blank c) || (Ascii.eqb c " " && (blanks_len s' =? 0)))
      && squeezed s'
  end.

(** The line feeds in the whitespace a string begins with. *)
Fixpoint nlf (s : string) : nat :=
  match s with
  | String c s' =>
      if spacey c then (if is_lf c then 1 else 0) + nlf s' else 0
  | EmptyString => 0
  end.

(** The offset just after the last of them. *)
Definition lf_end : string -> nat := longest spacey (run_len is_lf).

(** No place where \n\s*\n\s*\n+ matches. *)
Fixpoint calm (s : string) : bool :=
  match s with
  | EmptyString => true
  | String c s' => (blank_lines_len s =? 0) && calm s'
  end.

(** [s] holds none of [chars]. *)
Definition free_of (chars s : string) : bool :=
  sforall (fun c => negb (mem_c c chars)) s.

Definition slash (c : ascii) : bool := Ascii.eqb c "/".

(** ** The number repair of [_clean_text] *)

(** Greedy repetition of one character class, between [lo] and [hi]
    times, as [rep_loop] runs it once every iteration consumes. *)
Fixpoint greedy_try (p : ascii -> bool) (k : mstate -> option mstate)
         (lo : nat) (hi : option nat) (count : nat)
         (prev : option ascii) (rest : string) (pos : nat)
         (caps : list (nat * string)) : option mstate :=
  let stop := if lo <=? count then k (mk prev rest pos caps) else None in
  match rest with
  | String c rest' =>
      if within hi count && p c
      then or_else (greedy_try p k lo hi (S count) (Some c) rest' (S pos) caps)
                   stop
      else stop
  | EmptyString => stop
  end.

(** The length of the match at the head of a string, if any, given
    whether the character before is a word character. *)
Definition lenfun : Type := bool -> string -> option nat.

Definition head_word (s : string) : bool :=
  match s with String c _ => is_word c | EmptyString => false end.

(** End of the pattern, \b, one character of a class and a greedy
    repetition of a class, each followed by the rest of the pattern. *)
Definition done_len : lenfun := fun _ _ => Some 0.

Definition wb_len (f : lenfun) : lenfun :=
  fun pw rest => if xorb pw (head_word rest) then f pw rest else None.

Definition one_len (p : ascii -> bool) (f : lenfun) : lenfun :=
  fun _ rest =>
    match rest with
    | String c rest' => if p c then option_map S (f (is_word c) rest') else None
    | EmptyString => None
    end.

Fixpoint greedy_len (p : ascii -> bool) (lo : nat) (hi : option nat)
         (f : lenfun) (count : nat) (pw : bool) (rest : string) : option nat :=
  let stop := if lo <=? count then f pw rest else None in
  match rest with
  | String c rest' =>
      if within hi count && p c then
        match greedy_len p lo hi f (S count) (is_word c) rest' with
        | Some n => Some (S n)
        | None => stop
        end
      else stop
  | EmptyString => stop
  end.

(** The matcher stops [r] characters on, or fails when [r] is [None]. *)
Definition lands_o (o : option mstate) (r : option nat) (pos : nat)
           (caps : list (nat * string)) : Prop :=
  match r with
  | None => o = None
  | Some n => exists e, o = Some e /\ m_pos e = pos + n /\ m_caps e = caps
  end.

(** Past [pos0], [k] lands where [f] says. *)
Definition models (pos0 : nat) (k : mstate -> option mstate) (f : lenfun)
  : Prop :=
  forall prev rest pos caps,
    pos0 < pos ->
    lands_o (k (mk prev rest pos caps)) (f (word_opt prev) rest) pos caps.

(** The three classes of the number pattern. *)
Definition head_class : ascii -> bool :=
  cls_match ignorecase false
            [range "A" "Z"; range "0" "9"; CChar "O"; CChar "l"].
Definition sep_class : ascii -> bool :=
  cls_match ignorecase false (chars "-/.").
Definition tail_class : ascii -> bool :=
  cls_match ignorecase false
            ([range "A" "Z"; range "0" "9"; CChar "O"; CChar "l"]
               ++ chars ".-/")%list.

(** The length matched by \b[A-Z0-9Ol]{1,8}[\-\/\.][A-Z0-9Ol\.\-\/]{2,}\b
    (IGNORECASE) at the head of a string, after a word character or not. *)
Definition nomor_len : lenfun :=
  wb_len (greedy_len head_class 1 (Some 8)
            (one_len sep_class
               (greedy_len tail_class 2 None (wb_len done_len) 0)) 0).

(** What the replacement function does to a character and to a match. *)
Definition sigma (c : ascii) : ascii :=
  if Ascii.eqb c "O" then "0"%char
  else if Ascii.eqb c "l" then "1"%char else c.

Definition fix_text (x : string) : string :=
  replace "l" "1" (replace "O" "0" x).

(** Whether the last character of [x], or else the one before, is a word
    character. *)
Definition last_is_word (pw : bool) (x : string) : bool :=
  match srev x with String c _ => is_word c | EmptyString => pw end.

(** [re.sub] of the number pattern with the repair as replacement. *)
Fixpoint scan_nomor (fuel : nat) (pw : bool) (s : string) : string :=
  match fuel with
  | O => s
  | S fuel' =>
      match nomor_len pw s with
      | Some (S n) =>
          fix_text (take (S n) s)
          ++ scan_nomor fuel' (last_is_word pw (take (S n) s)) (drop (S n) s)
      | _ =>
          match s with
          | EmptyString => EmptyString
          | String c s' => String c (scan_nomor fuel' (is_word c) s')
          end
      end
  end.

(** A match lies within the subject. *)
Definition bounded (f : lenfun) : Prop :=
  forall pw s n, f pw s = Some n -> n <= String.length s.

(** Two strings that differ by repaired characters only. *)
Fixpoint sim (s s' : string) : Prop :=
  match s, s' with
  | EmptyString, EmptyString => True
  | String c r, String c' r' => sigma c = sigma c' /\ sim r r'
  | _, _ => False
  end.

(** [p] does not tell a character from its repaired form. *)
Definition blind (p : ascii -> bool) : bool :=
  forallb (fun c => Bool.eqb (p c) (p (sigma c))) all_ascii.

Definition invariant (f : lenfun) : Prop :=
  forall pw s s', sim s s' -> f pw s = f pw s'.

(** [f] does not look past the non-word character [w]. *)
Definition local (w : ascii) (b : string) (f : lenfun) : Prop :=
  forall pw a, f pw (a ++ String w b) = f pw a.

(** Whitespace is in none of the classes of the pattern. *)
Definition unspaced (p : ascii -> bool) : bool :=
  forallb (fun c => implb (is_space c) (negb (p c))) all_ascii.

(** A text the number repair leaves alone. *)
Definition settled (s : string) : Prop :=
  scan_nomor (S (String.length s)) false s = s.

(** ** The slash repairs of [_clean_text] and what they take away *)

(** The steps of [_clean_text] that need a slash: the literal
    substitutions and the two pattern repairs, in the order of the
    source. *)
Definition slash_repairs (t : string) : string :=
  let t := fold_left (fun t '(old, new) => replace old new t) replacements t in
  let t := sub plain re_digit_backslash (fun m => group_or_empty m 1 ++ "/") t in
  sub plain re_apostrophe (fun m => group_or_empty m 1 ++ " /") t.

(** The number of characters that are not whitespace. *)
Fixpoint ink (s : string) : nat :=
  match s with
  | EmptyString => 0
  | String c s' => (if is_space c then 0 else 1) + ink s'
  end.

(** Words that one after the other make [w], with the groups they
    close, most recent first. *)
Inductive iter (P : string -> list (nat * string) -> Prop)
  : string -> list (nat * string) -> Prop :=
| iter_nil : iter P "" []
| iter_cons (w1 : string) (c1 : list (nat * string))
            (w2 : string) (c2 : list (nat * string)) :
    P w1 c1 -> iter P w2 c2 -> iter P (w1 ++ w2) (c2 ++ c1).

(** [spells fl r w caps]: [w] is a word of the pattern [r], and matching
    it closes the groups [caps]. *)
Fixpoint spells (fl : flags) (r : regex) (w : string)
         (caps : list (nat * string)) : Prop :=
  match r with
  | Eps | Bol | Eol | WordB => w = "" /\ caps = []
  | Lit x => exists c, w = String c "" /\ lit_match fl x c = true /\ caps = []
  | Cls negated items =>
      exists c, w = String c "" /\ cls_match fl negated items c = true
                /\ caps = []
  | Dot => exists c, w = String c "" /\ caps = []
  | Seq r1 r2 =>
      exists w1 c1 w2 c2,
        spells fl r1 w1 c1 /\ spells fl r2 w2 c2
        /\ w = w1 ++ w2 /\ caps = (c2 ++ c1)%list
  | Alt r1 r2 => spells fl r1 w caps \/ spells fl r2 w caps
  | Rep _ _ _ r1 => iter (spells fl r1) w caps
  | Grp n r1 => exists c1, spells fl r1 w c1 /\ caps = (n, w) :: c1
  end.

(** [st'] is [st] after the word [w], with the groups [caps] closed. *)
Definition after (st : mstate) (w : string) (caps : list (nat * string))
           (st' : mstate) : Prop :=
  m_rest st = w ++ m_rest st'
  /\ m_pos st' = m_pos st + String.length w
  /\ m_caps st' = (caps ++ m_caps st)%list.

(** A function on texts that takes ink away wherever it changes
    something. *)
Definition shrinks (f : string -> string) : Prop :=
  forall s, ink (f s) <= ink s /\ (ink (f s) = ink s -> f s = s).

(** * Notions of the further properties *)

Import TextExtraction ClassifierMl.

(** ** Classification *)

(** The classifier, when it is consulted, answers with one of the three
    types. *)
Definition well_labelled (ml : option (string -> option (string * Q))) : Prop :=
  forall f text j c, ml = Some f -> f text = Some (j, c) -> In j allowed_jenis.

(** The methods by which the rules of [detect_jenis] answer. *)
Definition rule_methods : list string :=
  ["non-letter-keywords"; "no-nomor-label"; "kop-pela-mampang";
   "recipient-pela-mampang"; "nomor-pattern-keluar"; "nomor-pattern-SM";
   "kepada-yth-pattern"; "pemerintah-header"; "external-institution";
   "filename-hint"].

(** ** Classes of characters *)

(** A text of ASCII characters, on which [upper] and [lower] are
    [str.upper] and [str.lower]. *)
Definition ascii_text (s : string) : bool :=
  sforall (fun c => code c <? 128) s.

(** Not an ASCII letter. *)
Definition unlettered (c : ascii) : bool := negb (is_alpha c).

(** ** Runs of a class replaced by one space *)

(** [re.sub] of [c+] by a space, for a class [p]. *)
Definition pack (p : ascii -> bool) : nat -> string -> string :=
  scan (run_len p) " ".

(** Every character of [p] is a space, and the next one is not of [p]. *)
Fixpoint packed (p : ascii -> bool) (s : string) : bool :=
  match s with
  | EmptyString => true
  | String c s' =>
      (negb (p c) || (Ascii.eqb c " " && (run_len p s' =? 0))) && packed p s'
  end.

(** [t] is [s] with the case of some letters changed. *)
Fixpoint recased (s t : string) : Prop :=
  match s, t with
  | EmptyString, EmptyString => True
  | String c s', String d t' => (d = lower_c c \/ d = upper_c c) /\ recased s' t'
  | _, _ => False
  end.

(** [p] does not tell a letter from its other case. *)
Definition caseless (p : ascii -> bool) : bool :=
  forallb (fun c => Bool.eqb (p (lower_c c)) (p c)
                    && Bool.eqb (p (upper_c c)) (p c)) all_ascii.

(** The characters [_normalize_line] strips. *)
Definition trim_class (c : ascii) : bool := mem_c c " :-".

(** The separators a registration number must hold. *)
Definition slash_or_hyphen (c : ascii) : bool := mem_c c "/-".

(** ** Names and institutions *)

(** Length of the match of a one-character class. *)
Definition head_len (p : ascii -> bool) (s : string) : nat :=
  match s with
  | String c _ => if p c then 1 else 0
  | EmptyString => 0
  end.

(** [re.sub] of a class by a space, character by character. *)
Definition blot (p : ascii -> bool) : string -> string :=
  smap (fun c => if p c then " "%char else c).

(** The characters [normalize_person_name] keeps. *)
Definition name_char (c : ascii) : bool := is_alpha c || mem_c c " .,'-".

(** The class [[^A-Za-z .,'-]] that it blots out. *)
Definition not_name_char : ascii -> bool :=
  cls_match plain true ([range "A" "Z"; range "a" "z"] ++ chars " .,'-")%list.

(** The characters [extract_instansi_from_role] strips. *)
Definition instansi_trim (c : ascii) : bool := mem_c c " .,:-".

(** ** Characters a substitution can bring in *)

(** What is left of the subject and every group hold characters of [q]
    only. *)
Definition clean (q : ascii -> bool) (st : mstate) : Prop :=
  sforall q (m_rest st) = true
  /\ Forall (fun cap => sforall q (snd cap) = true) (m_caps st).

(** The same of a match: its text and its groups. *)
Definition clean_match (q : ascii -> bool) (m : mobj) : Prop :=
  sforall q (mo_text m) = true
  /\ Forall (fun cap => sforall q (snd cap) = true) (mo_caps m).

(** The characters the repairs of [_clean_text] write. *)
Definition repair_chars : string := String LF " /-0158".

(** ** Text extraction *)

(** A scanned PDF of one readable page, whose parser finds no text. *)
Definition scanned_pdf (p : path) : outcome (option string * bool) :=
  Returned (None, true).

(** A DOCX parser that is never reached. *)
Definition no_docx (p : path) : outcome (option string) := Raised.

(** The document [fitz] opens: one readable page. *)
Definition one_page (p : path) : list page + string := inl [readable_page].

(** ** Confidences of the rules of [classify_rules] *)

(** [min(0.95, 0.6 + (keluar_count * 0.1))] *)
Definition keluar_confidence (k : nat) : float :=
  py_min 0.95 (0.6 + float_of_nat k * 0.1)%float.

(** [min(0.90, 0.55 + (surat_count * 0.1))] *)
Definition masuk_confidence (k : nat) : float :=
  py_min 0.90 (0.55 + float_of_nat k * 0.1)%float.

(** * Properties *)

(** ** Type of the stored document *)

Lemma mem_str_In (s : string) (l : list string) :
  mem_str s l = true <-> In s l.
Proof.
  unfold mem_str. rewrite existsb_exists. split.
  - intros [x [Hin Heq]]. apply String.eqb_eq in Heq. now subst.
  - intros Hin. exists s. split; [assumption | apply String.eqb_refl].
Qed.

Lemma jenis_fallback_cases (j : option string) (c : Q) (m nomor : string) :
  jenis_fallback j c m nomor = ("masuk", 0.50%Q, "invalid-fallback")
  \/ (exists j' c' m', jenis_fallback j c m nomor = (j', c', m')
                       /\ mem_str j' allowed_jenis = true).
Proof.
  unfold jenis_fallback.
  destruct j as [label|].
  - destruct (mem_str label allowed_jenis) eqn:E; cbn [negb].
    + right. now exists label, c, m.
    + now left.
  - destruct (found ignorecase (re_marker "SM") nomor).
    + right. now exists "masuk", 0.75%Q, "nomor-pattern".
    + destruct (found ignorecase (re_marker "SK") nomor).
      * right. now exists "keluar", 0.75%Q, "nomor-pattern".
      * right. now exists "masuk", 0.50%Q, "default-fallback".
Qed.

(** C10.  The jenis that [upload_document] stores is always one of
    "masuk", "keluar", "lainnya"; a parsed label outside these three is
    replaced by "masuk" with confidence 0.50 and method
    "invalid-fallback". *)
Theorem jenis_final_allowed (p : parsed) :
  In (fst (fst (jenis_final p))) allowed_jenis
  /\ (forall label,
         jenis p = Some label -> ~ In label allowed_jenis ->
         jenis_final p = ("masuk", 0.50%Q, "invalid-fallback")).
Proof.
  split.
  - unfold jenis_final.
    destruct (jenis_fallback_cases (jenis p) (jenis_confidence p)
                                   (jenis_method p) (nomor_final p))
      as [H | [j' [c' [m' [H Hmem]]]]]; rewrite H; cbn [fst].
    + cbn. auto.
    + now apply mem_str_In.
  - intros label Hj Hnot. unfold jenis_final, jenis_fallback. rewrite Hj.
    destruct (mem_str label allowed_jenis) eqn:E.
    + apply mem_str_In in E. contradiction.
    + reflexivity.
Qed.

Lemma jenis_final_allowed_witness :
  jenis_final (parsed_with_jenis (Some "surat_masuk"))
  = ("masuk", 0.50%Q, "invalid-fallback").
Proof.
  apply (proj2 (jenis_final_allowed (parsed_with_jenis (Some "surat_masuk")))
               "surat_masuk").
  - reflexivity.
  - cbn. intros [H | [H | [H | []]]]; discriminate H.
Defined.

(** ** Folder of the stored document *)

Lemma tahun_final_truthy (t : option Z) (y : Z) :
  tahun_final t = Some y -> truthy_Z (tahun_final t) = true /\ (0 < y)%Z.
Proof.
  unfold tahun_final. destruct t as [z|]; [|discriminate].
  destruct (z <=? 0)%Z eqn:E; [discriminate|].
  intros H. injection H as <-. apply Z.leb_gt in E. split; [|assumption].
  cbn. destruct (z =? 0)%Z eqn:E0; [|reflexivity].
  apply Z.eqb_eq in E0. lia.
Qed.

Lemma extract_bulan_month (t : option string) (b : string) :
  extract_bulan t = Some b -> In b MONTHS.
Proof.
  unfold extract_bulan. destruct t as [s|]; [|discriminate].
  destruct (negb (truthy_str s)); [discriminate|].
  destruct (find _ MONTHS) as [month|] eqn:Ef.
  - intros H. injection H as <-. now apply find_some in Ef.
  - destruct (find _ (enumerate MONTHS_EN)) as [[i en]|] eqn:Ee; [|discriminate].
    intros H. injection H as <-. apply find_some in Ee. destruct Ee as [Hin _].
    cbn in Hin.
    repeat (destruct Hin as [Hin | Hin];
            [injection Hin as <- _; cbn; tauto|]).
    destruct Hin.
Qed.

Lemma month_truthy (b : string) : In b MONTHS -> truthy_str b = true.
Proof.
  cbn. intros H.
  repeat (destruct H as [H | H]; [subst b; reflexivity|]).
  destruct H.
Qed.

(** C9.  The folder is a function of (tahun, jenis, bulan, slug): with a
    year and a month it is tahun/jenis/bulan/slug, with a year and no
    month tahun/jenis/slug, without a year jenis/slug; for instance
    2024/masuk/Mei/12-ab-01-02 and masuk/12-ab-01-02. *)
Theorem base_dir_segments
        (tahun : option Z) (tanggal : option string) (jenis slug : string) :
  match tahun_final tahun, extract_bulan tanggal with
  | Some y, Some b =>
      base_dir (tahun_final tahun) jenis (extract_bulan tanggal) slug
      = [str_Z y; jenis; b; slug]
  | Some y, None =>
      base_dir (tahun_final tahun) jenis (extract_bulan tanggal) slug
      = [str_Z y; jenis; slug]
  | None, _ =>
      base_dir (tahun_final tahun) jenis (extract_bulan tanggal) slug
      = [jenis; slug]
  end
  /\ as_posix (base_dir (tahun_final (Some 2024%Z)) "masuk"
                        (extract_bulan (Some "05 Mei 2024")) "12-ab-01-02")
     = "2024/masuk/Mei/12-ab-01-02"
  /\ as_posix (base_dir (tahun_final None) "masuk"
                        (extract_bulan (Some "05 Mei 2024")) "12-ab-01-02")
     = "masuk/12-ab-01-02".
Proof.
  split; [|split; reflexivity].
  destruct (tahun_final tahun) as [y|] eqn:Et.
  - destruct (tahun_final_truthy tahun y Et) as [Ht _]. rewrite Et in Ht.
    destruct (extract_bulan tanggal) as [b|] eqn:Eb.
    + pose proof (month_truthy b (extract_bulan_month tanggal b Eb)) as Hb.
      unfold base_dir. rewrite Ht. cbn [truthy_opt]. rewrite Hb. reflexivity.
    + unfold base_dir. rewrite Ht. reflexivity.
  - destruct (extract_bulan tanggal); reflexivity.
Qed.

(** ** Quality score *)

(** C8.  A record with a number that is not the sentinel, a date, a year
    and jenis "masuk", and with no subject, scores 30+20+10+10 = 70 before
    the text-length and OCR penalties, with no warning at all; the
    penalties never add the subject warning. *)
Theorem quality_score_masuk_no_subject (p : parsed) (ocr_used : bool) :
  truthy_opt (nomor p) = true ->
  nomor p <> Some "TANPA-NOMOR" ->
  truthy_opt (tanggal_surat p) = true ->
  truthy_Z (tahun p) = true ->
  jenis p = Some "masuk" ->
  has_perihal p = false ->
  score (field_quality p ocr_used) = (30 + 20 + 10 + 10)%Z
  /\ score (field_quality p ocr_used) = 70%Z
  /\ warnings (field_quality p ocr_used) = []
  /\ (forall show_rate text_length ocr_stats,
         ~ In perihal_warning
              (warnings (metadata_quality show_rate p text_length ocr_used
                                          ocr_stats))).
Proof.
  intros Hn Hs Ht Hy Hj Hp.
  assert (Hfq : field_quality p ocr_used
                = {| score := 70; warnings := []; q_ocr_used := ocr_used |}).
  { unfold field_quality, quality_checks. rewrite Hn, Ht, Hy, Hj, Hp.
    assert (Hs' : eqb_opt (nomor p) (Some "TANPA-NOMOR") = false).
    { destruct (nomor p) as [n|]; [|reflexivity]. cbn.
      destruct (String.eqb n "TANPA-NOMOR") eqn:E; [|reflexivity].
      apply String.eqb_eq in E. subst n. now elim Hs. }
    rewrite Hs'. reflexivity. }
  rewrite Hfq. cbn [score warnings].
  repeat split.
  intros show_rate text_length ocr_stats.
  unfold metadata_quality. rewrite Hfq.
  unfold text_quality, ocr_quality, penalize, perihal_warning.
  destruct (text_length <? 100); [|destruct (ocr_used && (text_length <? 300))];
    destruct ocr_stats as [[r|]|]; destruct ocr_used; cbn;
    repeat match goal with
           | |- context [if ?b then _ else _] => destruct b
           end; cbn; intuition discriminate.
Qed.

Lemma quality_score_masuk_no_subject_witness :
  score (field_quality parsed_masuk_no_subject false) = 70%Z.
Proof.
  apply (quality_score_masuk_no_subject parsed_masuk_no_subject false);
    solve [reflexivity | discriminate].
Defined.

(** ** OCR page loop *)

Lemma process_page_accounts (st : ocr_state) (p : page) :
  success_pages (process_page st p) + failed_pages (process_page st p)
  + (if escapes p then 1 else 0)
  = S (success_pages st + failed_pages st).
Proof.
  unfold process_page, escapes.
  destruct (get_pixmap p); [|cbn; lia].
  destruct (prepare p); [|cbn; lia].
  destruct (recognize p) as [txt [|]]; cbn; lia.
Qed.

(** The loop is the fold of its body over the pages it reaches. *)
Lemma for_pages_reached (doc : list page) (st : ocr_state) :
  fst (for_pages st doc) = fold_left process_page (reached doc) st.
Proof.
  revert st. induction doc as [|p doc IH]; intros st; [reflexivity|].
  cbn [for_pages reached]. unfold loads.
  destruct (load_page p); [apply IH | reflexivity].
Qed.

Lemma for_pages_error (doc : list page) (st : ocr_state) :
  snd (for_pages st doc) = None <-> forallb loads doc = true.
Proof.
  revert st. induction doc as [|p doc IH]; intros st; [easy|].
  cbn [for_pages forallb]. unfold loads at 1.
  destruct (load_page p); [apply IH | easy].
Qed.

Lemma reached_all (doc : list page) :
  forallb loads doc = true -> reached doc = doc.
Proof.
  induction doc as [|p doc IH]; [reflexivity|]. cbn [forallb reached].
  destruct (loads p); [|discriminate]. intros H. now rewrite IH.
Qed.

Lemma reached_length (doc : list page) :
  List.length (reached doc) <= List.length doc
  /\ (List.length (reached doc) = List.length doc -> forallb loads doc = true).
Proof.
  induction doc as [|p doc [IH1 IH2]]; [easy|]. cbn [reached forallb].
  destruct (loads p); cbn [List.length andb]; split; try lia.
  intros H. apply IH2. lia.
Qed.

(** Every page that is reached is processed, and each one is counted as
    a success or as a failure except those whose preparation raised. *)
Lemma process_pages_accounts (doc : list page) :
  success_pages (process_pages doc) + failed_pages (process_pages doc)
  + List.length (filter escapes (reached doc))
  = List.length (reached doc).
Proof.
  unfold process_pages. rewrite for_pages_reached.
  generalize (reached doc). clear doc. intros doc.
  enough (H : forall st,
             success_pages (fold_left process_page doc st)
             + failed_pages (fold_left process_page doc st)
             + List.length (filter escapes doc)
             = success_pages st + failed_pages st + List.length doc)
    by (rewrite H; reflexivity).
  induction doc as [|p doc IH]; intros st; cbn [fold_left filter List.length].
  - lia.
  - pose proof (process_page_accounts st p) as Hp.
    specialize (IH (process_page st p)).
    destruct (escapes p); cbn [List.length]; lia.
Qed.

(** A page that cannot be rendered is counted as failed and adds no
    chunk; one whose two recognitions raise is counted as failed and adds
    the empty string.  Either way the fold goes on with the next page. *)
Lemma render_failure_counted (st : ocr_state) (p : page) :
  get_pixmap p = Raised ->
  failed_pages (process_page st p) = S (failed_pages st)
  /\ success_pages (process_page st p) = success_pages st
  /\ text_chunks (process_page st p) = text_chunks st.
Proof. intros H. unfold process_page. rewrite H. repeat split. Qed.

Lemma recognition_failure_counted (st : ocr_state) (p : page) :
  get_pixmap p = Returned tt -> prepare p = Returned tt ->
  ocr_lang p = Raised -> ocr_default p = Raised ->
  failed_pages (process_page st p) = S (failed_pages st)
  /\ success_pages (process_page st p) = success_pages st
  /\ text_chunks (process_page st p) = (text_chunks st ++ [EmptyString])%list.
Proof.
  intros H1 H2 H3 H4. unfold process_page, recognize.
  rewrite H1, H2, H3, H4. repeat split.
Qed.

Lemma preparation_failure_not_counted (st : ocr_state) (p : page) :
  get_pixmap p = Returned tt -> prepare p = Raised ->
  failed_pages (process_page st p) = failed_pages st
  /\ success_pages (process_page st p) = success_pages st
  /\ text_chunks (process_page st p) = (text_chunks st ++ [EmptyString])%list.
Proof.
  intros H1 H2. unfold process_page. rewrite H1, H2. repeat split.
Qed.

(** C7.  A page whose image preparation raises gives an empty string and
    leaves the remaining pages to be processed, but it is not counted in
    [failed_pages]: of three pages, one readable, one unreadable, one
    readable, two are successes and none is a failure. *)
Theorem ocr_unreadable_page_not_counted :
  let st := process_pages [readable_page; unreadable_page; readable_page] in
  let stats := snd (ocr_pdf_to_text all_deps
                      (inl [readable_page; unreadable_page; readable_page])) in
  text_chunks st = ["Nomor: 12/SM/2024"; ""; "Nomor: 12/SM/2024"]
  /\ total_pages stats = 3
  /\ stat_success_pages stats = 2
  /\ stat_failed_pages stats = 0.
Proof. vm_compute. repeat split. Qed.

(** ** Date of the letter *)

(** C6.  "Tanggal: 1 Mei 2024" has an explicit day, found by the first
    pattern, and yet the record carries the year alone, from which no
    month can be read. *)
Theorem first_of_month_loses_day :
  extract_tanggal_traced "Tanggal: 1 Mei 2024"
  = Some (IndonesianFormat, {| year := 2024; month := 5; day := 1 |})
  /\ tanggal_surat (parse_metadata None c_locale_month "Tanggal: 1 Mei 2024" None)
     = Some "2024"
  /\ extract_bulan (Some "2024") = None.
Proof. vm_compute. repeat split. Qed.

(** The format follows the day of the date alone: a date found by any
    pattern keeps its day and month unless it falls on the 1st, and the
    fallback, which always gives January 1st, yields the year alone. *)
Lemma tanggal_str_by_day (locale_month : Z -> string) (dt : datetime) :
  tanggal_str locale_month (Some dt)
  = if (day dt =? 1)%Z then Some (strftime_Y dt)
    else Some (strftime_dBY locale_month dt).
Proof. unfold tanggal_str. now destruct (day dt =? 1)%Z. Qed.

Lemma fallback_is_first_of_january (text : string) (dt : datetime) :
  extract_tanggal_traced text = Some (YearOnly, dt) ->
  day dt = 1%Z /\ month dt = 1%Z.
Proof.
  unfold extract_tanggal_traced.
  destruct (try_pattern1 _); [discriminate|].
  destruct (try_pattern2 _); [discriminate|].
  destruct (try_pattern3 _); [discriminate|].
  unfold try_fallback. destruct (search _ _ _) as [y|]; [|discriminate].
  unfold mk_datetime. destruct (_ && _)%bool; [|discriminate].
  intros H. injection H as <-. split; reflexivity.
Qed.

Lemma tanggal_surat_format
      (ml : option (string -> option (string * Q)))
      (locale_month : Z -> string) (text : string) (filename : option string)
      (source : date_source) (dt : datetime) :
  extract_tanggal_traced text = Some (source, dt) ->
  tanggal_surat (parse_metadata ml locale_month text filename)
  = if (day dt =? 1)%Z then Some (strftime_Y dt)
    else Some (strftime_dBY locale_month dt).
Proof.
  intros H. unfold parse_metadata, parse_metadata_with, extract_tanggal.
  rewrite H. cbn [option_map snd].
  destruct (detect_jenis _ _ _ _) as [[j c] m]. cbn [tanggal_surat].
  apply tanggal_str_by_day.
Qed.

(** ** Classification *)

(** C3, as stated, fails: "PAPARAN" has no "Nomor"/"No" token and is
    classified by the keyword rule, which comes first. *)
Lemma no_label_not_always_085 :
  has_nomor_label (_clean_text "PAPARAN") = false
  /\ detect_jenis None "PAPARAN" None None
     <> (Some "lainnya", 0.85%Q, "no-nomor-label").
Proof.
  split; [vm_compute; reflexivity|].
  vm_compute. intros H. inversion H.
Qed.

(** C3, amended.  A text whose cleaned form has no non-letter keyword in
    its first 500 characters and no "Nomor"/"No" label token is classified
    ("lainnya", 0.85, "no-nomor-label"), whatever else it contains and
    whatever the nomor and filename arguments are. *)
Theorem no_label_is_lainnya
        (ml : option (string -> option (string * Q)))
        (text : string) (nomor filename : option string) :
  has_lainnya_keyword (_clean_text text) = false ->
  has_nomor_label (_clean_text text) = false ->
  detect_jenis ml text nomor filename
  = (Some "lainnya", 0.85%Q, "no-nomor-label").
Proof.
  intros Hk Hn. unfold detect_jenis. rewrite Hk, Hn. reflexivity.
Qed.

Lemma no_label_is_lainnya_witness :
  detect_jenis None "Daftar hadir rapat RW 05" (Some "12/SM/2024")
               (Some "surat masuk.pdf")
  = (Some "lainnya", 0.85%Q, "no-nomor-label").
Proof.
  apply (no_label_is_lainnya None "Daftar hadir rapat RW 05"
                             (Some "12/SM/2024") (Some "surat masuk.pdf"));
    vm_compute; reflexivity.
Defined.

(** ** Subject of an outgoing letter *)

(** C2.  When the classification is "keluar" the record has no perihal
    key, the stored document has no subject, and the record is the same
    whatever subject extractor is supplied: the extractor is not called. *)
Theorem keluar_has_no_perihal
        (ml : option (string -> option (string * Q)))
        (locale_month : Z -> string)
        (text : string) (filename : option string) :
  jenis (parse_metadata ml locale_month text filename) = Some "keluar" ->
  perihal (parse_metadata ml locale_month text filename) = None
  /\ get_perihal (parse_metadata ml locale_month text filename) = None
  /\ perihal_final (parse_metadata ml locale_month text filename) = None
  /\ (forall extract_subject,
         parse_metadata_with ml locale_month extract_subject text filename
         = parse_metadata ml locale_month text filename).
Proof.
  unfold parse_metadata, perihal_final, get_perihal, parse_metadata_with.
  destruct (detect_jenis ml text (extract_nomor_surat text filename) filename)
    as [[j c] m].
  cbn [jenis perihal]. intros ->. cbn. repeat split.
Qed.

(** ** Selection of the registration number *)

Lemma first_max_spec (l : list candidate) (c : candidate) :
  first_max l = Some c ->
  exists before after,
    l = (before ++ c :: after)%list
    /\ (forall b, In b before -> snd b < snd c)
    /\ (forall a, In a after -> snd a <= snd c).
Proof.
  revert c. induction l as [|x l IH]; intros c; cbn [first_max]; [discriminate|].
  destruct (first_max l) as [y|] eqn:Ey.
  - destruct (IH y eq_refl) as [before [after [Hl [Hb Ha]]]].
    destruct (snd x <? snd y) eqn:E; intros H; injection H as <-.
    + apply Nat.ltb_lt in E.
      exists (x :: before), after. rewrite Hl. repeat split; [|assumption].
      intros b [<- | Hin]; [assumption | now apply Hb].
    + apply Nat.ltb_ge in E.
      exists [], l. repeat split; [intros b []|].
      intros a Hin. rewrite Hl in Hin. apply in_app_or in Hin.
      destruct Hin as [Hin | [<- | Hin]].
      * specialize (Hb a Hin). lia.
      * assumption.
      * specialize (Ha a Hin). lia.
  - intros H. injection H as <-.
    destruct l as [|z l]; [|cbn [first_max] in Ey; destruct (first_max l);
                            [destruct (snd z <? snd c)|]; discriminate Ey].
    exists [], []. repeat split; intros z [].
Qed.

Lemma hd_insert_desc (x : candidate) (l : list candidate) :
  hd_error (insert_desc x l)
  = match hd_error l with
    | Some y => if snd x <? snd y then Some y else Some x
    | None => Some x
    end.
Proof.
  destruct l as [|y l]; cbn [insert_desc hd_error]; [reflexivity|].
  now destruct (snd x <? snd y).
Qed.

Lemma hd_sort_desc (l : list candidate) :
  hd_error (sort_desc l) = first_max l.
Proof.
  induction l as [|x l IH]; [reflexivity|].
  unfold sort_desc in *. cbn [fold_right first_max].
  rewrite hd_insert_desc, IH. reflexivity.
Qed.

Lemma extract_nomor_surat_first_max (text : string) (filename : option string) :
  extract_nomor_surat text filename
  = option_map fst
      (first_max (all_candidates (_clean_text (preclean text)) filename)).
Proof.
  unfold extract_nomor_surat. rewrite <- hd_sort_desc.
  now destruct (sort_desc _).
Qed.

Lemma first_max_head_100 (v : string) (rest : list candidate) :
  (forall c, In c rest -> snd c <= 100) ->
  first_max ((v, 100) :: rest) = Some (v, 100).
Proof.
  intros Hle. cbn [first_max].
  destruct (first_max rest) as [y|] eqn:Ey; [|reflexivity].
  destruct (first_max_spec rest y Ey) as [before [after [Hl _]]].
  assert (Hy : snd y <= 100).
  { apply Hle. rewrite Hl. apply in_or_app. right. now left. }
  cbn [snd]. destruct (100 <? snd y) eqn:E; [|reflexivity].
  apply Nat.ltb_lt in E. lia.
Qed.

Lemma pattern_candidates_weight (T : string) (c : candidate) :
  In c (pattern_candidates T) -> snd c = 95.
Proof.
  unfold pattern_candidates. intros H. apply in_flat_map in H.
  destruct H as [[fl pat] [_ H]].
  destruct (search fl pat T); [|destruct H].
  match type of H with
  | In _ (if ?b then _ else _) => destruct b
  end; [|destruct H].
  destruct H as [<- | []]. reflexivity.
Qed.

Lemma scan_line_weight (idx : nat) (l : string) (c : candidate) :
  In c (scan_line idx l) -> snd c <= 75.
Proof.
  unfold scan_line. destruct (negb (truthy_str l) || is_label l); [intros []|].
  intros H. apply in_app_or in H. destruct H as [H | H].
  - apply in_flat_map in H. destruct H as [token [_ H]].
    match type of H with
    | In _ (if ?b then _ else _) => destruct b
    end; [|destruct H].
    destruct H as [<- | []]. cbn [snd]. destruct (idx <? 8); lia.
  - destruct (search plain re_multi_token l); [|destruct H].
    destruct H as [<- | []]. cbn [snd]. destruct (idx <? 8); lia.
Qed.

Lemma scan_candidates_weight (T : string) (c : candidate) :
  In c (scan_candidates T) -> snd c <= 75.
Proof.
  unfold scan_candidates. intros H. apply in_flat_map in H.
  destruct H as [[idx l] [_ H]]. now apply scan_line_weight in H.
Qed.

Lemma filename_candidates_weight (filename : option string) (c : candidate) :
  In c (filename_candidates filename) -> snd c = 50.
Proof.
  unfold filename_candidates. destruct filename as [fname|]; [|intros []].
  destruct (negb (truthy_str fname)); [intros []|].
  destruct (split_ws (rsplit_once_head "." fname)) as [|part0 parts]; [intros []|].
  destruct (matches plain re_filename_nomor part0); [|intros []].
  intros [<- | []]. reflexivity.
Qed.

(** A candidate of the label block is the value returned, whatever the
    other strategies and the file name give. *)
Lemma label_candidate_wins (text : string) (filename : option string)
      (v : string) :
  label_candidates (_clean_text (preclean text)) = [(v, 100)] ->
  extract_nomor_surat text filename = Some v.
Proof.
  intros Hl. rewrite extract_nomor_surat_first_max.
  unfold all_candidates. rewrite Hl. cbn [app].
  rewrite first_max_head_100; [reflexivity|].
  intros c H. apply in_app_or in H. destruct H as [H | H].
  - apply pattern_candidates_weight in H. lia.
  - apply in_app_or in H. destruct H as [H | H].
    + apply scan_candidates_weight in H. lia.
    + apply filename_candidates_weight in H. lia.
Qed.

Lemma first_max_none (l : list candidate) : first_max l = None -> l = [].
Proof.
  destruct l as [|x l]; [reflexivity|]. cbn [first_max].
  destruct (first_max l) as [y|]; [|discriminate].
  destruct (snd x <? snd y); discriminate.
Qed.

(** C4.  [extract_nomor_surat] gathers the candidates of all four
    strategies and returns the first one of greatest weight: in the list
    of all candidates, every candidate before the returned one is
    lighter and none after it is heavier, and nothing is returned only
    when there is no candidate at all.  So when the label block gives a
    candidate (weight 100) and the file name gives one (weight 50), the
    value of the label block is returned. *)
Theorem label_block_beats_filename
        (text : string) (filename : option string) :
  match extract_nomor_surat text filename with
  | Some n =>
      exists w before after,
        (label_candidates (_clean_text (preclean text))
           ++ pattern_candidates (_clean_text (preclean text))
           ++ scan_candidates (_clean_text (preclean text))
           ++ filename_candidates filename)%list
        = (before ++ (n, w) :: after)%list
        /\ (forall b, In b before -> snd b < w)
        /\ (forall a, In a after -> snd a <= w)
  | None =>
      (label_candidates (_clean_text (preclean text))
         ++ pattern_candidates (_clean_text (preclean text))
         ++ scan_candidates (_clean_text (preclean text))
         ++ filename_candidates filename)%list = []
  end
  /\ (forall v f,
        label_candidates (_clean_text (preclean text)) = [(v, 100)] ->
        filename_candidates filename = [(f, 50)] ->
        extract_nomor_surat text filename = Some v).
Proof.
  split.
  - rewrite extract_nomor_surat_first_max. unfold all_candidates.
    destruct (first_max _) as [[n w]|] eqn:E; cbn [option_map fst].
    + apply first_max_spec in E.
      destruct E as [before [after [Hl [Hb Ha]]]].
      exists w, before, after. split; [exact Hl|]. split; assumption.
    + apply first_max_none. exact E.
  - intros v f Hl _. apply label_candidate_wins. exact Hl.
Qed.

Lemma label_block_beats_filename_witness :
  extract_nomor_surat scenario_text (Some "99/ZZ.01 Surat.pdf")
  = Some "12/AB.01.02".
Proof.
  pose proof (label_block_beats_filename scenario_text
                                         (Some "99/ZZ.01 Surat.pdf")) as H.
  destruct H as [_ H].
  apply (H "12/AB.01.02" "99/ZZ.01"); vm_compute; reflexivity.
Defined.

Lemma keluar_has_no_perihal_witness :
  perihal (parse_metadata None c_locale_month scenario_text None) = None.
Proof.
  apply (keluar_has_no_perihal None c_locale_month scenario_text None).
  vm_compute. reflexivity.
Defined.

(** ** End-to-end scenario *)

(** C1, as stated, fails: the number 12/AB.01.02 has the shape of an
    internal outgoing number, so the scenario is classified "keluar". *)
Lemma scenario_not_masuk :
  ~ (jenis (parse_metadata None c_locale_month scenario_text None)
     = Some "masuk"
     /\ nomor (parse_metadata None c_locale_month scenario_text None)
        = Some "12/AB.01.02"
     /\ tanggal_surat (parse_metadata None c_locale_month scenario_text None)
        = Some "05 Mei 2024"
     /\ tahun (parse_metadata None c_locale_month scenario_text None)
        = Some 2024%Z
     /\ get_perihal (parse_metadata None c_locale_month scenario_text None)
        = Some "Undangan Rapat").
Proof.
  intros [H _]. vm_compute in H. discriminate H.
Qed.

(** C1, amended.  For the scenario text, with any file name, any
    statistical model and any locale, [parse_metadata] returns nomor
    12/AB.01.02, year 2024, the date "05 <month 5 of the locale> 2024"
    ("05 May 2024" in the C locale), jenis "keluar" by the rule
    "nomor-pattern-keluar" with confidence 0.90, and no perihal key. *)
Theorem scenario_parsed
        (ml : option (string -> option (string * Q)))
        (locale_month : Z -> string) (filename : option string) :
  let r := parse_metadata ml locale_month scenario_text filename in
  nomor r = Some "12/AB.01.02"
  /\ tanggal_surat r = Some ("05 " ++ locale_month 5%Z ++ " 2024")
  /\ tahun r = Some 2024%Z
  /\ jenis r = Some "keluar"
  /\ jenis_confidence r = 0.90%Q
  /\ jenis_method r = "nomor-pattern-keluar"
  /\ perihal r = None
  /\ tanggal_surat (parse_metadata ml c_locale_month scenario_text filename)
     = Some "05 May 2024".
Proof.
  assert (Hn : extract_nomor_surat scenario_text filename = Some "12/AB.01.02").
  { apply label_candidate_wins. vm_compute. reflexivity. }
  assert (Hd : extract_tanggal scenario_text
               = Some {| year := 2024; month := 5; day := 5 |}).
  { vm_compute. reflexivity. }
  assert (Hj : detect_jenis ml scenario_text (Some "12/AB.01.02") filename
               = (Some "keluar", 0.90%Q, "nomor-pattern-keluar")).
  { vm_compute. reflexivity. }
  unfold parse_metadata, parse_metadata_with.
  rewrite Hn, Hd, Hj. cbn. repeat split.
Qed.

(** ** The normalizer is not idempotent *)

(** ** Strings *)

Lemma append_empty_r (s : string) : s ++ "" = s.
Proof. induction s as [|c s IH]; cbn; [reflexivity | now rewrite IH]. Qed.

Lemma append_assoc (a b c : string) : (a ++ b) ++ c = a ++ (b ++ c).
Proof. induction a as [|x a IH]; cbn; [reflexivity | now rewrite IH]. Qed.

Lemma rev_onto_app (s acc : string) : rev_onto s acc = srev s ++ acc.
Proof.
  unfold srev. revert acc.
  induction s as [|c s IH]; intros acc; cbn; [reflexivity|].
  rewrite (IH (String c acc)), (IH (String c "")), append_assoc. reflexivity.
Qed.

Lemma srev_cons (c : ascii) (s : string) : srev (String c s) = srev s ++ String c "".
Proof. unfold srev at 1. cbn. apply rev_onto_app. Qed.

Lemma srev_app (a b : string) : srev (a ++ b) = srev b ++ srev a.
Proof.
  induction a as [|c a IH]; cbn [append].
  - now rewrite append_empty_r.
  - now rewrite !srev_cons, IH, append_assoc.
Qed.

Lemma srev_involutive (s : string) : srev (srev s) = s.
Proof.
  induction s as [|c s IH]; [reflexivity|].
  now rewrite srev_cons, srev_app, IH.
Qed.

Lemma sforall_app (p : ascii -> bool) (a b : string) :
  sforall p (a ++ b) = sforall p a && sforall p b.
Proof.
  induction a as [|c a IH]; cbn; [reflexivity|].
  now rewrite IH, andb_assoc.
Qed.

Lemma sforall_srev (p : ascii -> bool) (s : string) :
  sforall p (srev s) = sforall p s.
Proof.
  induction s as [|c s IH]; [reflexivity|].
  rewrite srev_cons, sforall_app, IH. cbn. rewrite andb_true_r. apply andb_comm.
Qed.

Lemma sforall_drop (p : ascii -> bool) (n : nat) (s : string) :
  sforall p s = true -> sforall p (drop n s) = true.
Proof.
  revert s. induction n as [|n IH]; intros [|c s]; cbn; try easy.
  intros H. apply andb_prop in H. now apply IH.
Qed.

(** ** Stripping *)

Lemma lstrip_by_suffix (p : ascii -> bool) (s : string) :
  exists pre, s = pre ++ lstrip_by p s.
Proof.
  induction s as [|c s [pre IH]]; cbn.
  - now exists "".
  - destruct (p c).
    + exists (String c pre). cbn. now rewrite <- IH.
    + now exists "".
Qed.

Lemma lstrip_by_head (p : ascii -> bool) (s : string) :
  match lstrip_by p s with
  | String c _ => p c = false
  | EmptyString => True
  end.
Proof.
  induction s as [|c s IH]; cbn; [exact I|].
  destruct (p c) eqn:E; [assumption | exact E].
Qed.

Lemma lstrip_by_fixed (p : ascii -> bool) (s : string) :
  match s with String c _ => p c = false | EmptyString => True end ->
  lstrip_by p s = s.
Proof. destruct s as [|c s]; cbn; [reflexivity|]. now intros ->. Qed.

Lemma lstrip_by_idem (p : ascii -> bool) (s : string) :
  lstrip_by p (lstrip_by p s) = lstrip_by p s.
Proof. apply lstrip_by_fixed, lstrip_by_head. Qed.

Lemma lstrip_by_snoc (p : ascii -> bool) (s : string) (c : ascii) :
  p c = false -> exists y, lstrip_by p (s ++ String c "") = y ++ String c "".
Proof.
  intros Hc. induction s as [|x s [y IH]]; cbn.
  - rewrite Hc. now exists "".
  - destruct (p x); [now exists y|]. now exists (String x s).
Qed.

Lemma rstrip_by_prefix (p : ascii -> bool) (s : string) :
  exists post, s = rstrip_by p s ++ post.
Proof.
  unfold rstrip_by. destruct (lstrip_by_suffix p (srev s)) as [pre H].
  exists (srev pre).
  rewrite <- srev_app, <- H. symmetry. apply srev_involutive.
Qed.

Lemma rstrip_by_keeps_head (p : ascii -> bool) (c : ascii) (s : string) :
  p c = false -> exists s', rstrip_by p (String c s) = String c s'.
Proof.
  intros Hc. unfold rstrip_by. rewrite srev_cons.
  destruct (lstrip_by_snoc p (srev s) c Hc) as [y ->].
  rewrite srev_app. cbn. now exists (srev y).
Qed.

Lemma rstrip_by_idem (p : ascii -> bool) (s : string) :
  rstrip_by p (rstrip_by p s) = rstrip_by p s.
Proof.
  unfold rstrip_by. now rewrite srev_involutive, lstrip_by_idem.
Qed.

Lemma strip_by_idem (p : ascii -> bool) (s : string) :
  strip_by p (strip_by p s) = strip_by p s.
Proof.
  unfold strip_by.
  assert (H : lstrip_by p (rstrip_by p (lstrip_by p s))
              = rstrip_by p (lstrip_by p s)).
  { pose proof (lstrip_by_head p s) as Hh.
    destruct (lstrip_by p s) as [|c a]; [reflexivity|].
    destruct (rstrip_by_keeps_head p c a Hh) as [s' ->].
    cbn. now rewrite Hh. }
  rewrite H. apply rstrip_by_idem.
Qed.

Lemma sforall_strip_by (q p : ascii -> bool) (s : string) :
  sforall q s = true -> sforall q (strip_by p s) = true.
Proof.
  intros H. unfold strip_by.
  destruct (lstrip_by_suffix p s) as [pre Hs].
  destruct (rstrip_by_prefix p (lstrip_by p s)) as [post Hr].
  rewrite Hs, Hr, !sforall_app in H.
  apply andb_prop in H. destruct H as [_ H].
  apply andb_prop in H. now destruct H as [H _].
Qed.

(** ** [str.replace] finds nothing without one of its characters *)

Lemma startswith_sexists (p : ascii -> bool) (old s : string) :
  startswith old s = true -> sexists p old = true -> sexists p s = true.
Proof.
  revert s. induction old as [|a old IH]; intros [|b s]; cbn; try easy.
  intros H1 H2. apply andb_prop in H1. destruct H1 as [Hab Hs].
  apply Ascii.eqb_eq in Hab. subst b.
  destruct (p a); [reflexivity|]. cbn in *. now apply IH.
Qed.

Lemma sexists_false_sforall (p : ascii -> bool) (s : string) :
  sforall (fun c => negb (p c)) s = true -> sexists p s = false.
Proof.
  induction s as [|c s IH]; cbn; [reflexivity|].
  intros H. apply andb_prop in H. destruct H as [Hc Hs].
  apply negb_true_iff in Hc. now rewrite Hc, IH.
Qed.

Lemma replace_go_absent (p : ascii -> bool) (old new : string) (fuel : nat)
      (s : string) :
  sexists p old = true -> sexists p s = false ->
  replace_go fuel old new s = s.
Proof.
  intros Hold. revert s. induction fuel as [|fuel IH]; intros s Hs; [reflexivity|].
  cbn [replace_go].
  assert (Hsw : startswith old s = false).
  { destruct (startswith old s) eqn:E; [|reflexivity].
    rewrite (startswith_sexists p old s E Hold) in Hs. discriminate. }
  rewrite Hsw. destruct s as [|c s]; [reflexivity|].
  cbn in Hs. apply orb_false_iff in Hs. destruct Hs as [_ Hs].
  now rewrite IH.
Qed.

Lemma replace_absent (p : ascii -> bool) (old new s : string) :
  sexists p old = true -> sexists p s = false -> replace old new s = s.
Proof. intros. unfold replace. now apply replace_go_absent with (p := p). Qed.

(** ** What a pattern cannot match without *)

Lemma sexists_app (p : ascii -> bool) (a b : string) :
  sexists p (a ++ b) = sexists p a || sexists p b.
Proof.
  induction a as [|c a IH]; cbn; [reflexivity|].
  now rewrite IH, orb_assoc.
Qed.

Lemma in_all_ascii (c : ascii) : In c all_ascii.
Proof.
  unfold all_ascii. apply in_map_iff. exists (nat_of_ascii c). split.
  - apply ascii_nat_embedding.
  - apply in_seq. pose proof (nat_ascii_bounded c). lia.
Qed.

Lemma only_spec (f P : ascii -> bool) (c : ascii) :
  only f P = true -> f c = true -> P c = true.
Proof.
  unfold only. rewrite forallb_forall. intros H Hf.
  specialize (H c (in_all_ascii c)). now rewrite Hf in H.
Qed.

Lemma reaches_refl (P : ascii -> bool) (st : mstate) : reaches P False st st.
Proof. exists "". split; [reflexivity | intros []]. Qed.

Lemma reaches_trans (P : ascii -> bool) (n1 n2 : Prop) (a b c : mstate) :
  reaches P n1 a b -> reaches P n2 b c -> reaches P (n1 \/ n2) a c.
Proof.
  intros [p1 [H1 N1]] [p2 [H2 N2]]. exists (p1 ++ p2). split.
  - now rewrite H1, H2, append_assoc.
  - rewrite sexists_app. intros [H | H].
    + now rewrite N1.
    + rewrite N2 by assumption. apply orb_true_r.
Qed.

Lemma reaches_weaken (P : ascii -> bool) (n1 n2 : Prop) (a b : mstate) :
  (n2 -> n1) -> reaches P n1 a b -> reaches P n2 a b.
Proof. intros Himp [pre [H N]]. exists pre. split; [assumption | auto]. Qed.

Lemma one_char_inv (P f : ascii -> bool) (k : mstate -> option mstate)
      (st e : mstate) :
  one_char f k st = Some e ->
  exists st', k st' = Some e /\ reaches P (only f P = true) st st'.
Proof.
  unfold one_char. destruct (m_rest st) as [|c rest] eqn:Er; [discriminate|].
  destruct (f c) eqn:Ef; [|discriminate].
  intros Hk. exists (eat st c rest). split; [assumption|].
  exists (String c ""). split; [now rewrite Er|].
  intros Ho. cbn. now rewrite (only_spec f P c Ho Ef).
Qed.

Section RepLoop.

Variable P : ascii -> bool.
Variable body : (mstate -> option mstate) -> mstate -> option mstate.
Variable nb : Prop.
Hypothesis body_inv :
  forall k st e, body k st = Some e ->
                 exists st', k st' = Some e /\ reaches P nb st st'.

Lemma rep_loop_inv (k : mstate -> option mstate) (greedy : bool) (lo : nat)
      (hi : option nat) (fuel count : nat) (st e : mstate) :
  rep_loop body k greedy lo hi fuel count st = Some e ->
  exists st', k st' = Some e /\ reaches P (nb /\ count < lo) st st'.
Proof.
  revert count st. induction fuel as [|fuel IH]; intros count st; [discriminate|].
  cbn [rep_loop].
  set (more := if within hi count then _ else None).
  set (stop := if lo <=? count then k st else None).
  assert (Hmore : more = Some e ->
                  exists st', k st' = Some e /\ reaches P (nb /\ count < lo) st st').
  { unfold more. destruct (within hi count); [|discriminate].
    intros H. apply body_inv in H. destruct H as [st1 [H R1]].
    destruct ((lo <=? count) && (m_pos st1 =? m_pos st)); [discriminate|].
    apply IH in H. destruct H as [st2 [Hk R2]].
    exists st2. split; [assumption|].
    eapply reaches_weaken; [|exact (reaches_trans P _ _ _ _ _ R1 R2)].
    intros [Hn _]. now left. }
  assert (Hstop : stop = Some e ->
                  exists st', k st' = Some e /\ reaches P (nb /\ count < lo) st st').
  { unfold stop. destruct (lo <=? count) eqn:E; [|discriminate].
    intros H. exists st. split; [assumption|].
    apply Nat.leb_le in E.
    eapply reaches_weaken; [|apply reaches_refl]. intros [_ Hlt]. lia. }
  destruct greedy; unfold or_else.
  - destruct more; [intros H; now apply Hmore | assumption].
  - destruct stop; [intros H; now apply Hstop | assumption].
Qed.

End RepLoop.

Lemma run_inv (fl : flags) (P : ascii -> bool) (r : regex) :
  forall k st e,
    run fl r k st = Some e ->
    exists st', k st' = Some e /\ reaches P (needs fl P r = true) st st'.
Proof.
  induction r as [ |x|negated items| | | | |r1 IH1 r2 IH2|r1 IH1 r2 IH2
                  |greedy lo hi r1 IH1|n r1 IH1];
    intros k st e; cbn [run needs].
  - intros H. exists st. split; [assumption|].
    eapply reaches_weaken; [|apply reaches_refl]. discriminate.
  - apply one_char_inv.
  - apply one_char_inv.
  - apply one_char_inv.
  - destruct (m_pos st =? 0); [|discriminate].
    intros H. exists st. split; [assumption|].
    eapply reaches_weaken; [|apply reaches_refl]. discriminate.
  - destruct (at_eol st); [|discriminate].
    intros H. exists st. split; [assumption|].
    eapply reaches_weaken; [|apply reaches_refl]. discriminate.
  - destruct (xorb _ _); [|discriminate].
    intros H. exists st. split; [assumption|].
    eapply reaches_weaken; [|apply reaches_refl]. discriminate.
  - intros H. apply IH1 in H. destruct H as [st1 [H R1]].
    apply IH2 in H. destruct H as [st2 [H R2]].
    exists st2. split; [assumption|].
    eapply reaches_weaken; [|exact (reaches_trans P _ _ _ _ _ R1 R2)].
    intros Ho. apply orb_prop in Ho. tauto.
  - unfold or_else. destruct (run fl r1 k st) as [e1|] eqn:E1.
    + intros H. injection H as <-. apply IH1 in E1.
      destruct E1 as [st1 [H R1]]. exists st1. split; [assumption|].
      eapply reaches_weaken; [|exact R1].
      intros Ho. apply andb_prop in Ho. tauto.
    + intros H. apply IH2 in H.
      destruct H as [st1 [H R1]]. exists st1. split; [assumption|].
      eapply reaches_weaken; [|exact R1].
      intros Ho. apply andb_prop in Ho. tauto.
  - intros H.
    apply (rep_loop_inv P (run fl r1) (needs fl P r1 = true) IH1) in H.
    destruct H as [st1 [H R1]]. exists st1. split; [assumption|].
    eapply reaches_weaken; [|exact R1].
    intros Ho. apply andb_prop in Ho. destruct Ho as [Hlo Hn].
    apply Nat.ltb_lt in Hlo. tauto.
  - intros H. apply IH1 in H. destruct H as [st1 [H [pre [Hp Hn]]]].
    exists (close_group n st st1). split; [assumption|].
    exists pre. split; assumption.
Qed.

Lemma match_here_without (fl : flags) (P : ascii -> bool) (r : regex)
      (must_advance : bool) (prev : option ascii) (s : string) (pos : nat) :
  needs fl P r = true -> sexists P s = false ->
  match_here fl r must_advance prev s pos = None.
Proof.
  intros Hn Hs. unfold match_here.
  destruct (run fl r _ _) as [e|] eqn:E; [|reflexivity].
  apply (run_inv fl P) in E. destruct E as [st' [_ [pre [Hp Hx]]]].
  cbn in Hp. rewrite Hp, sexists_app, (Hx Hn) in Hs. discriminate.
Qed.

Lemma sub_go_without (fl : flags) (P : ascii -> bool) (r : regex)
      (repl : mobj -> string) (fuel : nat) (must_advance : bool)
      (prev : option ascii) (s : string) (pos : nat) :
  needs fl P r = true -> sexists P s = false ->
  sub_go fl r repl fuel must_advance prev s pos = s.
Proof.
  intros Hn. revert must_advance prev s pos.
  induction fuel as [|fuel IH]; intros must prev s pos Hs; [reflexivity|].
  cbn [sub_go]. rewrite (match_here_without fl P) by assumption.
  destruct s as [|c s]; [reflexivity|].
  cbn in Hs. apply orb_false_iff in Hs. destruct Hs as [_ Hs].
  now rewrite IH.
Qed.

(** [re.sub] changes nothing in a subject the pattern cannot match. *)
Lemma sub_without (fl : flags) (P : ascii -> bool) (r : regex)
      (repl : mobj -> string) (s : string) :
  needs fl P r = true -> sexists P s = false -> sub fl r repl s = s.
Proof. intros. unfold sub. now apply sub_go_without with (P := P). Qed.

(** ** Repetition of one character class *)

Lemma or_else_none_r (a : option mstate) : or_else a None = a.
Proof. now destruct a. Qed.

Section OneCharLoop.

Variable p : ascii -> bool.
Variable body : (mstate -> option mstate) -> mstate -> option mstate.
Hypothesis body_one_char : forall k st, body k st = one_char p k st.
Variable k : mstate -> option mstate.

Lemma rep_loop_star (lo fuel count : nat) (prev : option ascii) (rest : string)
      (pos : nat) (caps : list (nat * string)) :
  String.length rest < fuel -> lo <= count ->
  rep_loop body k true lo None fuel count (mk prev rest pos caps)
  = span_try p k prev rest pos caps.
Proof.
  revert count prev rest pos.
  induction fuel as [|fuel IH]; intros count prev rest pos Hf Hc; [lia|].
  cbn [rep_loop within]. rewrite body_one_char.
  apply Nat.leb_le in Hc. rewrite Hc. unfold one_char. cbn [m_rest mk].
  destruct rest as [|c rest]; [reflexivity|].
  cbn [span_try]. destruct (p c); [|reflexivity].
  cbn [eat m_pos mk andb].
  assert (Hne : (S pos =? pos) = false) by (apply Nat.eqb_neq; lia).
  rewrite Hne. cbn [String.length] in Hf.
  change (eat (mk prev (String c rest) pos caps) c rest)
    with (mk (Some c) rest (S pos) caps).
  rewrite IH; [reflexivity | lia | apply Nat.leb_le in Hc; lia].
Qed.

Lemma rep_loop_plus (fuel : nat) (prev : option ascii) (rest : string)
      (pos : nat) (caps : list (nat * string)) :
  String.length rest <= fuel ->
  rep_loop body k true 1 None (S fuel) 0 (mk prev rest pos caps)
  = match rest with
    | String c rest' =>
        if p c then span_try p k (Some c) rest' (S pos) caps else None
    | EmptyString => None
    end.
Proof.
  intros Hf. cbn [rep_loop within Nat.leb andb]. rewrite body_one_char.
  rewrite or_else_none_r.
  unfold one_char. cbn [m_rest mk].
  destruct rest as [|c rest]; [reflexivity|].
  destruct (p c); [|reflexivity].
  change (eat (mk prev (String c rest) pos caps) c rest)
    with (mk (Some c) rest (S pos) caps).
  cbn [String.length] in Hf. rewrite rep_loop_star by lia. reflexivity.
Qed.

End OneCharLoop.

Lemma run_star_cls (fl : flags) (negated : bool) (items : list citem)
      (k : mstate -> option mstate) (prev : option ascii) (rest : string)
      (pos : nat) (caps : list (nat * string)) :
  run fl (star (Cls negated items)) k (mk prev rest pos caps)
  = span_try (cls_match fl negated items) k prev rest pos caps.
Proof.
  unfold star. cbn [run m_rest mk].
  apply rep_loop_star; [reflexivity | lia | lia].
Qed.

Lemma run_plus_cls (fl : flags) (negated : bool) (items : list citem)
      (k : mstate -> option mstate) (prev : option ascii) (rest : string)
      (pos : nat) (caps : list (nat * string)) :
  run fl (plus (Cls negated items)) k (mk prev rest pos caps)
  = match rest with
    | String c rest' =>
        if cls_match fl negated items c
        then span_try (cls_match fl negated items) k (Some c) rest' (S pos) caps
        else None
    | EmptyString => None
    end.
Proof.
  unfold plus. cbn [run m_rest mk].
  apply rep_loop_plus; [reflexivity | lia].
Qed.

Lemma run_plus_lit (fl : flags) (x : ascii)
      (k : mstate -> option mstate) (prev : option ascii) (rest : string)
      (pos : nat) (caps : list (nat * string)) :
  run fl (plus (Lit x)) k (mk prev rest pos caps)
  = match rest with
    | String c rest' =>
        if lit_match fl x c
        then span_try (lit_match fl x) k (Some c) rest' (S pos) caps
        else None
    | EmptyString => None
    end.
Proof.
  unfold plus. cbn [run m_rest mk].
  apply rep_loop_plus; [reflexivity | lia].
Qed.

Lemma span_try_accept (p : ascii -> bool) (must : bool) (pos0 : nat)
      (prev : option ascii) (rest : string) (pos : nat)
      (caps : list (nat * string)) :
  pos0 < pos ->
  exists e, span_try p (accept must pos0) prev rest pos caps = Some e
            /\ m_pos e = pos + run_len p rest /\ m_caps e = caps.
Proof.
  revert prev pos. induction rest as [|c rest IH]; intros prev pos Hp.
  - cbn. unfold accept. cbn [m_pos mk].
    assert (Hne : (pos =? pos0) = false) by (apply Nat.eqb_neq; lia).
    rewrite Hne, andb_false_r. eexists. repeat split. cbn. lia.
  - cbn [span_try run_len]. destruct (p c).
    + destruct (IH (Some c) (S pos)) as [e [He [Hpos Hcaps]]]; [lia|].
      rewrite He. cbn [or_else]. exists e. repeat split; [lia | assumption].
    + unfold accept. cbn [m_pos mk].
      assert (Hne : (pos =? pos0) = false) by (apply Nat.eqb_neq; lia).
      rewrite Hne, andb_false_r. eexists. repeat split. cbn. lia.
Qed.

(** ** [re.sub] as a scan *)

Lemma sub_go_scan (fl : flags) (r : regex) (mlen : string -> nat) (rep : string) :
  measures fl r mlen ->
  forall fuel must prev s pos,
    sub_go fl r (fun _ => rep) fuel must prev s pos = scan mlen rep fuel s.
Proof.
  intros Hm. induction fuel as [|fuel IH]; intros must prev s pos; [reflexivity|].
  cbn [sub_go scan]. specialize (Hm must prev s pos).
  destruct (mlen s) as [|n] eqn:En.
  - rewrite Hm. destruct s as [|c s]; [reflexivity|]. now rewrite IH.
  - destruct Hm as [m [-> Hend]]. rewrite Hend.
    replace (pos + S n - pos) with (S n) by lia.
    cbn [Nat.eqb]. now rewrite IH.
Qed.

Lemma lands_measures (fl : flags) (r : regex) (mlen : string -> nat) :
  (forall must prev s pos,
      lands (run fl r (accept must pos) (start_state prev s pos))
            (mlen s) pos []) ->
  measures fl r mlen.
Proof.
  intros H must prev s pos. specialize (H must prev s pos).
  unfold lands in H. unfold match_here. destruct (mlen s) as [|n].
  - now rewrite H.
  - destruct H as [e [-> [Hpos _]]]. eexists. split; [reflexivity|].
    cbn. exact Hpos.
Qed.

(** ** The two whitespace patterns of [_clean_text] *)

Section Lands.

Variable pos0 : nat.

Lemma span_try_lands (p : ascii -> bool) (k : mstate -> option mstate)
      (f : string -> nat) :
  lands_from pos0 k f -> lands_from pos0 (fun st => span_try p k (m_prev st) (m_rest st)
                                                   (m_pos st) (m_caps st))
                               (longest p f).
Proof.
  intros Hk prev rest. revert prev.
  induction rest as [|c rest IH]; intros prev pos caps Hp; cbn [m_prev m_rest m_pos m_caps mk].
  - cbn. now apply Hk.
  - cbn [span_try longest]. destruct (p c); [|now apply Hk].
    specialize (IH (Some c) (S pos) caps). cbn [m_prev m_rest m_pos m_caps mk] in IH.
    destruct (longest p f rest) as [|m].
    + cbn in IH. rewrite IH by lia. cbn [or_else]. now apply Hk.
    + destruct IH as [e [He [Hpos Hcaps]]]; [lia|]. rewrite He. cbn [or_else].
      exists e. repeat split; [lia | assumption].
Qed.

Lemma one_char_lands (p : ascii -> bool) (k : mstate -> option mstate)
      (f : string -> nat) (prev : option ascii) (rest : string) (pos : nat)
      (caps : list (nat * string)) :
  lands_from pos0 k f -> pos0 <= pos ->
  lands (one_char p k (mk prev rest pos caps)) (after_char p f rest) pos caps.
Proof.
  intros Hk Hp. unfold one_char, after_char. cbn [m_rest mk].
  destruct rest as [|c rest]; [reflexivity|].
  destruct (p c); [|reflexivity].
  change (eat (mk prev (String c rest) pos caps) c rest)
    with (mk (Some c) rest (S pos) caps).
  specialize (Hk (Some c) rest (S pos) caps). destruct (f rest) as [|m].
  - cbn in *. apply Hk. lia.
  - destruct Hk as [e [He [Hpos Hcaps]]]; [lia|].
    exists e. repeat split; [assumption | lia | assumption].
Qed.

Lemma plus_accept_lands (p : ascii -> bool) (must : bool) :
  lands_from pos0
             (fun st =>
                match m_rest st with
                | String c rest' =>
                    if p c
                    then span_try p (accept must pos0) (Some c) rest'
                                  (S (m_pos st)) (m_caps st)
                    else None
                | EmptyString => None
                end)
             (run_len p).
Proof.
  intros prev rest pos caps Hp. cbn [m_rest m_pos m_caps mk].
  destruct rest as [|c rest]; [reflexivity|].
  cbn [run_len]. destruct (p c); [|reflexivity].
  destruct (span_try_accept p must pos0 (Some c) rest (S pos) caps)
    as [e [He [Hpos Hcaps]]]; [lia|].
  exists e. repeat split; [assumption | lia | assumption].
Qed.

End Lands.

Lemma lands_ext (o o' : option mstate) (n pos : nat) (caps : list (nat * string)) :
  o = o' -> lands o n pos caps -> lands o' n pos caps.
Proof. now intros ->. Qed.

Lemma measures_blanks : measures plain re_blanks blanks_len.
Proof.
  apply lands_measures. intros must prev s pos.
  unfold re_blanks, blanks_len.
  change (start_state prev s pos) with (mk prev s pos []).
  rewrite run_plus_cls. fold blank.
  destruct s as [|c s]; [reflexivity|].
  cbn [run_len]. destruct (blank c); [|reflexivity].
  destruct (span_try_accept blank must pos (Some c) s (S pos) [])
    as [e [He [Hpos Hcaps]]]; [lia|].
  exists e. repeat split; [assumption | lia | assumption].
Qed.

Lemma run_seq (fl : flags) (r1 r2 : regex) (k : mstate -> option mstate)
      (st : mstate) :
  run fl (Seq r1 r2) k st = run fl r1 (run fl r2 k) st.
Proof. reflexivity. Qed.

Lemma run_lit (fl : flags) (x : ascii) (k : mstate -> option mstate)
      (st : mstate) :
  run fl (Lit x) k st = one_char (lit_match fl x) k st.
Proof. reflexivity. Qed.

Lemma measures_blank_lines : measures plain re_blank_lines blank_lines_len.
Proof.
  apply lands_measures. intros must prev s pos.
  unfold re_blank_lines, blank_lines_len.
  change (start_state prev s pos) with (mk prev s pos []).
  cbn [seqs]. rewrite run_seq, run_lit. fold is_lf.
  apply one_char_lands with (pos0 := pos); [|lia].
  intros prev1 rest1 pos1 caps1 H1.
  rewrite run_seq. unfold space at 1. rewrite run_star_cls. fold spacey.
  apply (span_try_lands pos spacey
           (run plain (Seq (Lit LF) (Seq (star space) (plus (Lit LF))))
                (accept must pos))
           (after_char is_lf (longest spacey (run_len is_lf))));
    [|assumption].
  intros prev2 rest2 pos2 caps2 H2. rewrite run_seq, run_lit. fold is_lf.
  apply one_char_lands with (pos0 := pos); [|lia].
  intros prev3 rest3 pos3 caps3 H3.
  rewrite run_seq. unfold space at 1. rewrite run_star_cls. fold spacey.
  apply (span_try_lands pos spacey
           (run plain (plus (Lit LF)) (accept must pos))
           (run_len is_lf));
    [|assumption].
  intros prev4 rest4 pos4 caps4 H4.
  rewrite run_plus_lit. fold is_lf.
  now apply (plus_accept_lands pos is_lf must prev4 rest4 pos4 caps4).
Qed.

(** ** Blank runs *)

Lemma length_drop_le (n : nat) (s : string) :
  String.length (drop n s) <= String.length s.
Proof.
  revert s. induction n as [|n IH]; intros [|c s]; cbn; try lia.
  specialize (IH s). lia.
Qed.

Lemma run_len_drop (p : ascii -> bool) (s : string) :
  run_len p (drop (run_len p s) s) = 0.
Proof.
  induction s as [|c s IH]; [reflexivity|].
  cbn [run_len]. destruct (p c) eqn:E; cbn [drop]; [assumption|].
  cbn. now rewrite E.
Qed.

Lemma run_len_app_zero (p : ascii -> bool) (a b : string) :
  run_len p (a ++ b) = 0 -> run_len p a = 0.
Proof. destruct a as [|c a]; cbn; [reflexivity|]. now destruct (p c). Qed.

Lemma blanks_len_cons (c : ascii) (s : string) :
  blanks_len (String c s) = if blank c then S (blanks_len s) else 0.
Proof. reflexivity. Qed.

Lemma squeeze_blanks_head (fuel : nat) (s : string) :
  blanks_len s = 0 -> blanks_len (squeeze_blanks fuel s) = 0.
Proof.
  intros H. destruct fuel as [|fuel]; [exact H|].
  unfold squeeze_blanks. cbn [scan]. rewrite H.
  destruct s as [|c s]; [reflexivity|].
  rewrite blanks_len_cons in *. now destruct (blank c).
Qed.

Lemma squeeze_blanks_squeezed (fuel : nat) (s : string) :
  String.length s < fuel -> squeezed (squeeze_blanks fuel s) = true.
Proof.
  revert s. induction fuel as [|fuel IH]; intros s Hf; [lia|].
  unfold squeeze_blanks. cbn [scan].
  destruct s as [|c s]; [reflexivity|].
  cbn [String.length] in Hf. rewrite blanks_len_cons.
  destruct (blank c) eqn:Eb.
  - cbn [drop append squeezed]. fold (squeeze_blanks fuel (drop (blanks_len s) s)).
    rewrite squeeze_blanks_head by apply run_len_drop.
    rewrite IH by (pose proof (length_drop_le (blanks_len s) s); lia).
    reflexivity.
  - cbn [squeezed]. rewrite Eb. cbn [negb orb andb].
    apply IH. lia.
Qed.

Lemma squeeze_blanks_fixed (fuel : nat) (s : string) :
  squeezed s = true -> squeeze_blanks fuel s = s.
Proof.
  revert s. induction fuel as [|fuel IH]; intros s Hs; [reflexivity|].
  unfold squeeze_blanks. cbn [scan].
  destruct s as [|c s]; [reflexivity|].
  cbn [squeezed] in Hs. apply andb_prop in Hs. destruct Hs as [Hc Hs].
  rewrite blanks_len_cons. destruct (blank c) eqn:Eb.
  - cbn [negb orb] in Hc. apply andb_prop in Hc. destruct Hc as [Hsp Hz].
    apply Ascii.eqb_eq in Hsp. apply Nat.eqb_eq in Hz. subst c.
    rewrite Hz. cbn [drop append]. f_equal. now apply IH.
  - f_equal. now apply IH.
Qed.

Lemma squeezed_suffix (a b : string) :
  squeezed (a ++ b) = true -> squeezed b = true.
Proof.
  induction a as [|c a IH]; cbn [append squeezed]; [easy|].
  intros H. apply andb_prop in H. now apply IH.
Qed.

Lemma squeezed_prefix (a b : string) :
  squeezed (a ++ b) = true -> squeezed a = true.
Proof.
  induction a as [|c a IH]; cbn [append squeezed]; [easy|].
  intros H. apply andb_prop in H. destruct H as [Hc Hs].
  rewrite (IH Hs), andb_true_r.
  destruct (negb (blank c)); [reflexivity|]. cbn [orb] in *.
  apply andb_prop in Hc. destruct Hc as [-> Hz]. cbn [andb].
  apply Nat.eqb_eq in Hz. apply run_len_app_zero in Hz.
  unfold blanks_len. now rewrite Hz.
Qed.

Lemma squeezed_drop (n : nat) (s : string) :
  squeezed s = true -> squeezed (drop n s) = true.
Proof.
  revert s. induction n as [|n IH]; intros [|c s]; cbn [drop squeezed]; try easy.
  intros H. apply andb_prop in H. now apply IH.
Qed.

Lemma squeezed_strip_by (p : ascii -> bool) (s : string) :
  squeezed s = true -> squeezed (strip_by p s) = true.
Proof.
  intros H. unfold strip_by.
  destruct (lstrip_by_suffix p s) as [pre Hs].
  destruct (rstrip_by_prefix p (lstrip_by p s)) as [post Hr].
  rewrite Hs in H. apply squeezed_suffix in H.
  rewrite Hr in H. now apply squeezed_prefix in H.
Qed.

(** ** Blank lines *)

Lemma is_lf_eq (c : ascii) : is_lf c = true -> c = LF.
Proof.
  unfold is_lf, lit_match. cbn [icase plain]. intros H.
  apply Ascii.eqb_eq in H. now subst.
Qed.

Lemma is_lf_spacey (c : ascii) : is_lf c = true -> spacey c = true.
Proof. intros H. apply is_lf_eq in H. now subst. Qed.

Lemma is_lf_not_blank (c : ascii) : is_lf c = true -> blank c = false.
Proof. intros H. apply is_lf_eq in H. now subst. Qed.

Lemma lf_end_cons (c : ascii) (s : string) :
  lf_end (String c s)
  = if spacey c then
      match lf_end s with
      | O => if is_lf c then S (run_len is_lf s) else 0
      | S m => S (S m)
      end
    else if is_lf c then S (run_len is_lf s) else 0.
Proof. reflexivity. Qed.

Lemma nlf_zero_run (s : string) : nlf s = 0 -> run_len is_lf s = 0.
Proof.
  destruct s as [|c s]; [reflexivity|]. cbn [nlf run_len].
  destruct (is_lf c) eqn:E; [|reflexivity].
  rewrite (is_lf_spacey c E). discriminate.
Qed.

Lemma lf_end_zero (s : string) : lf_end s = 0 <-> nlf s = 0.
Proof.
  induction s as [|c s IH]; [easy|].
  rewrite lf_end_cons. cbn [nlf].
  destruct (spacey c) eqn:Es.
  - destruct (lf_end s) as [|m].
    + assert (Hn : nlf s = 0) by now apply IH. rewrite Hn.
      destruct (is_lf c); cbn; split; intros H; try easy; lia.
    + assert (Hn : nlf s <> 0) by (intros H; apply IH in H; discriminate).
      split; intros H; [discriminate | lia].
  - destruct (is_lf c) eqn:El; [|easy].
    rewrite (is_lf_spacey c El) in Es. discriminate.
Qed.

Lemma nlf_drop_lf_end (s : string) : nlf (drop (lf_end s) s) = 0.
Proof.
  induction s as [|c s IH]; [reflexivity|].
  rewrite lf_end_cons. destruct (spacey c) eqn:Es.
  - destruct (lf_end s) as [|m] eqn:El.
    + assert (Hn : nlf s = 0) by now apply lf_end_zero.
      destruct (is_lf c) eqn:Ec.
      * rewrite (nlf_zero_run s Hn). exact Hn.
      * cbn [drop nlf]. rewrite Es, Ec. exact Hn.
    + exact IH.
  - destruct (is_lf c) eqn:Ec.
    + rewrite (is_lf_spacey c Ec) in Es. discriminate.
    + cbn [drop nlf]. now rewrite Es.
Qed.

Lemma blank_lines_len_cons (c : ascii) (s : string) :
  blank_lines_len (String c s)
  = if is_lf c && (2 <=? nlf s) then S (lf_end s) else 0.
Proof.
  unfold blank_lines_len. cbn [after_char].
  destruct (is_lf c); [|reflexivity]. cbn [andb].
  fold lf_end.
  enough (H : longest spacey (after_char is_lf lf_end) s
              = if 2 <=? nlf s then lf_end s else 0).
  { rewrite H. destruct (2 <=? nlf s) eqn:E; [|reflexivity].
    destruct (lf_end s) eqn:El; [|reflexivity].
    apply lf_end_zero in El. apply Nat.leb_le in E. lia. }
  clear c. induction s as [|c s IH]; [reflexivity|].
  cbn [longest]. rewrite IH. clear IH.
  rewrite lf_end_cons. cbn [after_char nlf].
  destruct (spacey c) eqn:Es.
  - destruct (2 <=? nlf s) eqn:E2.
    + apply Nat.leb_le in E2.
      destruct (lf_end s) as [|m] eqn:El; [apply lf_end_zero in El; lia|].
      assert (H : (2 <=? (if is_lf c then 1 else 0) + nlf s) = true)
        by (apply Nat.leb_le; lia).
      now rewrite H.
    + apply Nat.leb_gt in E2. destruct (is_lf c) eqn:Ec.
      * destruct (lf_end s) as [|m] eqn:El.
        -- apply lf_end_zero in El. rewrite El. reflexivity.
        -- assert (Hn : nlf s = 1).
           { assert (nlf s <> 0) by (intros H; apply lf_end_zero in H; congruence).
             lia. }
           rewrite Hn. reflexivity.
      * assert (H : (2 <=? 0 + nlf s) = false) by (apply Nat.leb_gt; lia).
        now rewrite H.
  - destruct (is_lf c) eqn:Ec; [|reflexivity].
    rewrite (is_lf_spacey c Ec) in Es. discriminate.
Qed.

Lemma squeeze_lines_nlf (fuel : nat) (s : string) :
  nlf s <= 2 -> nlf (squeeze_lines fuel s) = nlf s.
Proof.
  revert s. induction fuel as [|fuel IH]; intros s Hn; [reflexivity|].
  unfold squeeze_lines. cbn [scan].
  destruct s as [|c s]; [reflexivity|].
  rewrite blank_lines_len_cons. cbn [nlf] in Hn.
  destruct (spacey c) eqn:Es.
  - assert (Hz : is_lf c && (2 <=? nlf s) = false).
    { destruct (is_lf c); [|reflexivity]. apply Nat.leb_gt. lia. }
    rewrite Hz. cbn [nlf]. rewrite Es.
    fold (squeeze_lines fuel s). rewrite IH by lia. reflexivity.
  - assert (Hz : is_lf c = false).
    { destruct (is_lf c) eqn:Ec; [|reflexivity].
      rewrite (is_lf_spacey c Ec) in Es. discriminate. }
    rewrite Hz. cbn [andb nlf]. now rewrite Es.
Qed.

Lemma squeeze_lines_fixed (fuel : nat) (s : string) :
  calm s = true -> squeeze_lines fuel s = s.
Proof.
  revert s. induction fuel as [|fuel IH]; intros s Hs; [reflexivity|].
  unfold squeeze_lines. cbn [scan].
  destruct s as [|c s]; [reflexivity|].
  cbn [calm] in Hs. apply andb_prop in Hs. destruct Hs as [Hz Hs].
  apply Nat.eqb_eq in Hz. rewrite Hz. f_equal. now apply IH.
Qed.

Lemma squeeze_lines_calm (fuel : nat) (s : string) :
  String.length s < fuel -> calm (squeeze_lines fuel s) = true.
Proof.
  revert s. induction fuel as [|fuel IH]; intros s Hf; [lia|].
  unfold squeeze_lines. cbn [scan].
  destruct s as [|c s]; [reflexivity|].
  cbn [String.length] in Hf.
  destruct (blank_lines_len (String c s)) as [|n] eqn:Eb.
  - fold (squeeze_lines fuel s). cbn [calm].
    rewrite IH by lia. rewrite andb_true_r.
    rewrite blank_lines_len_cons in *.
    destruct (is_lf c); [|reflexivity]. cbn [andb] in *.
    destruct (2 <=? nlf s) eqn:E2; [discriminate|].
    apply Nat.leb_gt in E2. rewrite squeeze_lines_nlf by lia.
    apply Nat.leb_gt in E2. now rewrite E2.
  - rewrite blank_lines_len_cons in Eb.
    destruct (is_lf c && (2 <=? nlf s)); [|discriminate].
    injection Eb as <-. cbn [drop].
    fold (squeeze_lines fuel (drop (lf_end s) s)).
    set (out := squeeze_lines fuel (drop (lf_end s) s)).
    assert (Hn : nlf out = 0).
    { unfold out. rewrite squeeze_lines_nlf; rewrite nlf_drop_lf_end; lia. }
    assert (Hc : calm out = true).
    { apply IH. pose proof (length_drop_le (lf_end s) s). lia. }
    change ((nl ++ nl) ++ out) with (String LF (String LF out)).
    cbn [calm]. rewrite !blank_lines_len_cons, Hc.
    cbn [nlf]. rewrite Hn. reflexivity.
Qed.

Lemma nlf_app_le (a b : string) : nlf a <= nlf (a ++ b).
Proof.
  induction a as [|c a IH]; cbn [append nlf]; [lia|].
  destruct (spacey c); lia.
Qed.

Lemma calm_suffix (a b : string) : calm (a ++ b) = true -> calm b = true.
Proof.
  induction a as [|c a IH]; cbn [append calm]; [easy|].
  intros H. apply andb_prop in H. now apply IH.
Qed.

Lemma calm_prefix (a b : string) : calm (a ++ b) = true -> calm a = true.
Proof.
  induction a as [|c a IH]; cbn [append calm]; [easy|].
  intros H. apply andb_prop in H. destruct H as [Hz Hs].
  rewrite (IH Hs), andb_true_r.
  rewrite blank_lines_len_cons in *.
  destruct (is_lf c); [|reflexivity]. cbn [andb] in *.
  destruct (2 <=? nlf (a ++ b)) eqn:E2; [discriminate|].
  apply Nat.leb_gt in E2. pose proof (nlf_app_le a b).
  assert (H2 : (2 <=? nlf a) = false) by (apply Nat.leb_gt; lia).
  now rewrite H2.
Qed.

Lemma calm_strip_by (p : ascii -> bool) (s : string) :
  calm s = true -> calm (strip_by p s) = true.
Proof.
  intros H. unfold strip_by.
  destruct (lstrip_by_suffix p s) as [pre Hs].
  destruct (rstrip_by_prefix p (lstrip_by p s)) as [post Hr].
  rewrite Hs in H. apply calm_suffix in H.
  rewrite Hr in H. now apply calm_prefix in H.
Qed.

Lemma squeeze_lines_head (fuel : nat) (s : string) :
  blanks_len s = 0 -> blanks_len (squeeze_lines fuel s) = 0.
Proof.
  intros H. destruct fuel as [|fuel]; [exact H|].
  unfold squeeze_lines. cbn [scan].
  destruct s as [|c s]; [reflexivity|].
  rewrite blank_lines_len_cons.
  destruct (is_lf c && (2 <=? nlf s)); [reflexivity|].
  rewrite blanks_len_cons in *. now destruct (blank c).
Qed.

Lemma squeeze_lines_squeezed (fuel : nat) (s : string) :
  squeezed s = true -> squeezed (squeeze_lines fuel s) = true.
Proof.
  revert s. induction fuel as [|fuel IH]; intros s Hs; [exact Hs|].
  unfold squeeze_lines. cbn [scan].
  destruct s as [|c s]; [reflexivity|].
  destruct (blank_lines_len (String c s)) as [|n] eqn:Eb.
  - fold (squeeze_lines fuel s). cbn [squeezed] in *.
    apply andb_prop in Hs. destruct Hs as [Hc Hs].
    rewrite (IH s Hs), andb_true_r.
    destruct (negb (blank c)); [reflexivity|]. cbn [orb] in *.
    apply andb_prop in Hc. destruct Hc as [-> Hz]. cbn [andb].
    apply Nat.eqb_eq in Hz. now rewrite squeeze_lines_head.
  - fold (squeeze_lines fuel (drop (S n) (String c s))).
    change ((nl ++ nl) ++ squeeze_lines fuel (drop (S n) (String c s)))
      with (String LF (String LF (squeeze_lines fuel (drop (S n) (String c s))))).
    cbn [squeezed]. rewrite IH by now apply squeezed_drop. reflexivity.
Qed.

(** ** Characters a text does not hold *)

Lemma free_of_sexists (chars : string) (P : ascii -> bool) (s : string) :
  (forall c, P c = true -> mem_c c chars = true) ->
  free_of chars s = true -> sexists P s = false.
Proof.
  intros HP. unfold free_of. induction s as [|c s IH]; cbn [sforall sexists];
    [reflexivity|].
  intros H. apply andb_prop in H. destruct H as [Hc Hs].
  rewrite (IH Hs), orb_false_r.
  destruct (P c) eqn:E; [|reflexivity].
  rewrite (HP c E) in Hc. discriminate.
Qed.

Lemma sforall_scan (q : ascii -> bool) (mlen : string -> nat) (rep : string)
      (fuel : nat) (s : string) :
  sforall q rep = true -> sforall q s = true ->
  sforall q (scan mlen rep fuel s) = true.
Proof.
  intros Hr. revert s. induction fuel as [|fuel IH]; intros s Hs; [exact Hs|].
  cbn [scan]. destruct (mlen s) as [|n].
  - destruct s as [|c s]; [reflexivity|].
    cbn [sforall] in *. apply andb_prop in Hs. destruct Hs as [-> Hs].
    now apply IH.
  - rewrite sforall_app, Hr. apply IH. now apply sforall_drop.
Qed.

(** ** Bounded repetition of one character class *)

Lemma or_else_none_l (a : option mstate) : or_else None a = a.
Proof. reflexivity. Qed.

Lemma rep_loop_greedy (p : ascii -> bool)
      (body : (mstate -> option mstate) -> mstate -> option mstate)
      (k : mstate -> option mstate) (lo : nat) (hi : option nat) :
  (forall k st, body k st = one_char p k st) ->
  forall fuel count prev rest pos caps,
    String.length rest < fuel ->
    rep_loop body k true lo hi fuel count (mk prev rest pos caps)
    = greedy_try p k lo hi count prev rest pos caps.
Proof.
  intros Hbody. induction fuel as [|fuel IH];
    intros count prev rest pos caps Hf; [lia|].
  cbn [rep_loop]. rewrite Hbody. unfold one_char. cbn [m_rest mk m_pos].
  destruct rest as [|c rest]; cbn [greedy_try].
  - now destruct (within hi count).
  - destruct (within hi count); cbn [andb]; [|reflexivity].
    destruct (p c); [|reflexivity].
    change (eat (mk prev (String c rest) pos caps) c rest)
      with (mk (Some c) rest (S pos) caps).
    cbn [m_pos mk].
    assert (Hne : (S pos =? pos) = false) by (apply Nat.eqb_neq; lia).
    rewrite Hne, andb_false_r. cbn [String.length] in Hf.
    rewrite IH by lia. reflexivity.
Qed.

Lemma run_rep_cls (fl : flags) (negated : bool) (items : list citem)
      (lo : nat) (hi : option nat)
      (k : mstate -> option mstate) (prev : option ascii) (rest : string)
      (pos : nat) (caps : list (nat * string)) :
  run fl (Rep true lo hi (Cls negated items)) k (mk prev rest pos caps)
  = greedy_try (cls_match fl negated items) k lo hi 0 prev rest pos caps.
Proof.
  cbn [run m_rest mk]. apply rep_loop_greedy; [reflexivity | lia].
Qed.

(** ** Lengths of matches that look at the character before *)

Lemma accept_models (must : bool) (pos0 : nat) :
  models pos0 (accept must pos0) done_len.
Proof.
  intros prev rest pos caps Hp. unfold accept, done_len. cbn [m_pos mk lands_o].
  assert (Hne : (pos =? pos0) = false) by (apply Nat.eqb_neq; lia).
  rewrite Hne, andb_false_r. eexists. repeat split. cbn. lia.
Qed.

Lemma next_char_head (prev : option ascii) (rest : string) (pos : nat)
      (caps : list (nat * string)) :
  word_opt (next_char (mk prev rest pos caps)) = head_word rest.
Proof. now destruct rest. Qed.

Lemma wordb_lands (pos0 : nat) (k : mstate -> option mstate) (f : lenfun)
      (prev : option ascii) (rest : string) (pos : nat)
      (caps : list (nat * string)) :
  lands_o (k (mk prev rest pos caps)) (f (word_opt prev) rest) pos caps ->
  lands_o (run ignorecase WordB k (mk prev rest pos caps))
          (wb_len f (word_opt prev) rest) pos caps.
Proof.
  intros H. cbn [run]. rewrite next_char_head. cbn [m_prev mk].
  unfold wb_len. now destruct (xorb _ _).
Qed.

Lemma one_char_lands_o (pos0 : nat) (p : ascii -> bool)
      (k : mstate -> option mstate) (f : lenfun) (prev : option ascii)
      (rest : string) (pos : nat) (caps : list (nat * string)) :
  models pos0 k f -> pos0 <= pos ->
  lands_o (one_char p k (mk prev rest pos caps))
          (one_len p f (word_opt prev) rest) pos caps.
Proof.
  intros Hk Hp. unfold one_char, one_len. cbn [m_rest mk].
  destruct rest as [|c rest]; [reflexivity|].
  destruct (p c); [|reflexivity].
  change (eat (mk prev (String c rest) pos caps) c rest)
    with (mk (Some c) rest (S pos) caps).
  specialize (Hk (Some c) rest (S pos) caps). cbn [word_opt] in Hk.
  destruct (f (is_word c) rest) as [n|]; cbn [option_map lands_o] in *.
  - destruct Hk as [e [He [Hpos Hcaps]]]; [lia|].
    exists e. repeat split; [assumption | lia | assumption].
  - apply Hk. lia.
Qed.

Lemma greedy_lands_o (pos0 : nat) (p : ascii -> bool)
      (k : mstate -> option mstate) (f : lenfun) (lo : nat) (hi : option nat) :
  models pos0 k f ->
  forall rest count prev pos caps,
    pos0 < pos \/ (pos0 <= pos /\ count < lo) ->
    lands_o (greedy_try p k lo hi count prev rest pos caps)
            (greedy_len p lo hi f count (word_opt prev) rest) pos caps.
Proof.
  intros Hk. induction rest as [|c rest IH]; intros count prev pos caps Hp.
  - cbn [greedy_try greedy_len].
    destruct (lo <=? count) eqn:E; [|reflexivity].
    apply Hk. apply Nat.leb_le in E. lia.
  - cbn [greedy_try greedy_len].
    assert (Hstop : lands_o (if lo <=? count
                             then k (mk prev (String c rest) pos caps)
                             else None)
                            (if lo <=? count
                             then f (word_opt prev) (String c rest)
                             else None) pos caps).
    { destruct (lo <=? count) eqn:E; [|reflexivity].
      apply Hk. apply Nat.leb_le in E. lia. }
    destruct (within hi count && p c); [|exact Hstop].
    specialize (IH (S count) (Some c) (S pos) caps). cbn [word_opt] in IH.
    destruct (greedy_len p lo hi f (S count) (is_word c) rest) as [n|].
    + destruct IH as [e [He [Hpos Hcaps]]]; [lia|].
      rewrite He. cbn [or_else]. exists e.
      repeat split; [lia | assumption].
    + cbn [lands_o] in IH. rewrite IH by lia. exact Hstop.
Qed.

(** ** The number pattern of [_clean_text] *)

Lemma nomor_shape_lands (must : bool) (prev : option ascii) (s : string)
      (pos : nat) :
  lands_o (run ignorecase re_nomor_shape (accept must pos) (mk prev s pos []))
          (nomor_len (word_opt prev) s) pos [].
Proof.
  unfold re_nomor_shape, nomor_len. cbn [seqs].
  rewrite run_seq. apply (wordb_lands pos).
  rewrite run_seq. unfold rep. rewrite run_rep_cls. fold head_class.
  apply (greedy_lands_o pos); [|right; lia].
  intros prev1 rest1 pos1 caps1 H1.
  rewrite run_seq. change (run ignorecase (Cls false (chars "-/.")))
    with (fun k st => one_char sep_class k st).
  cbv beta.
  apply (one_char_lands_o pos); [|lia].
  intros prev2 rest2 pos2 caps2 H2.
  rewrite run_seq. unfold atleast. rewrite run_rep_cls. fold tail_class.
  apply (greedy_lands_o pos); [|left; lia].
  intros prev3 rest3 pos3 caps3 H3.
  apply (wordb_lands pos). now apply accept_models.
Qed.

(** ** The number repair as a scan *)

Lemma greedy_len_first (p : ascii -> bool) (lo : nat) (hi : option nat)
      (f : lenfun) (pw : bool) (rest : string) :
  0 < lo -> greedy_len p lo hi f 0 pw rest <> Some 0.
Proof.
  intros Hlo. destruct rest as [|c rest]; cbn [greedy_len].
  - destruct lo; [lia | discriminate].
  - destruct (within hi 0 && p c).
    + destruct (greedy_len p lo hi f 1 (is_word c) rest); [discriminate|].
      destruct lo; [lia | discriminate].
    + destruct lo; [lia | discriminate].
Qed.

Lemma nomor_len_pos (pw : bool) (s : string) : nomor_len pw s <> Some 0.
Proof.
  unfold nomor_len, wb_len. destruct (xorb _ _); [|discriminate].
  apply greedy_len_first. lia.
Qed.

Lemma last_char_word (prev : option ascii) (x : string) :
  word_opt (last_char prev x) = last_is_word (word_opt prev) x.
Proof. unfold last_char, last_is_word. now destruct (srev x). Qed.

Lemma sub_go_scan_nomor (fuel : nat) (must : bool) (prev : option ascii)
      (s : string) (pos : nat) :
  sub_go ignorecase re_nomor_shape fix_nomor fuel must prev s pos
  = scan_nomor fuel (word_opt prev) s.
Proof.
  revert must prev s pos.
  induction fuel as [|fuel IH]; intros must prev s pos; [reflexivity|].
  cbn [sub_go scan_nomor]. unfold match_here.
  change (start_state prev s pos) with (mk prev s pos []).
  pose proof (nomor_shape_lands must prev s pos) as H.
  pose proof (nomor_len_pos (word_opt prev) s) as Hpos.
  destruct (nomor_len (word_opt prev) s) as [[|n]|]; [now elim Hpos | |].
  - destruct H as [e [-> [He _]]]. cbn [mo_end mo_text]. rewrite He.
    replace (pos + S n - pos) with (S n) by lia. cbn [Nat.eqb].
    unfold fix_nomor at 1. cbn [mo_text]. fold (fix_text (take (S n) s)).
    now rewrite IH, last_char_word.
  - cbn [lands_o] in H. rewrite H. destruct s as [|c s]; [reflexivity|].
    now rewrite IH.
Qed.

(** ** A match lies within the subject *)

Lemma done_bounded : bounded done_len.
Proof. intros pw s n H. injection H as <-. lia. Qed.

Lemma wb_bounded (f : lenfun) : bounded f -> bounded (wb_len f).
Proof.
  intros Hf pw s n. unfold wb_len. destruct (xorb _ _); [apply Hf | discriminate].
Qed.

Lemma one_bounded (p : ascii -> bool) (f : lenfun) :
  bounded f -> bounded (one_len p f).
Proof.
  intros Hf pw [|c s] n; cbn [one_len]; [discriminate|].
  destruct (p c); [|discriminate].
  destruct (f (is_word c) s) as [m|] eqn:E; [|discriminate].
  intros H. injection H as <-. apply Hf in E. cbn. lia.
Qed.

Lemma greedy_bounded (p : ascii -> bool) (lo : nat) (hi : option nat)
      (f : lenfun) (count : nat) :
  bounded f -> bounded (greedy_len p lo hi f count).
Proof.
  intros Hf pw s. revert count pw.
  induction s as [|c s IH]; intros count pw n; cbn [greedy_len].
  - destruct (lo <=? count); [apply Hf | discriminate].
  - assert (Hstop : (if lo <=? count then f pw (String c s) else None) = Some n ->
                    n <= String.length (String c s)).
    { destruct (lo <=? count); [apply Hf | discriminate]. }
    destruct (within hi count && p c); [|exact Hstop].
    destruct (greedy_len p lo hi f (S count) (is_word c) s) as [m|] eqn:E;
      [|exact Hstop].
    intros H. injection H as <-. apply IH in E. cbn. lia.
Qed.

Lemma nomor_len_le (pw : bool) (s : string) (n : nat) :
  nomor_len pw s = Some n -> n <= String.length s.
Proof.
  apply wb_bounded, greedy_bounded, one_bounded, greedy_bounded, wb_bounded,
    done_bounded.
Qed.

(** ** The scan does not depend on its fuel *)

Lemma scan_nomor_fuel (fuel fuel' : nat) (pw : bool) (s : string) :
  String.length s < fuel -> String.length s < fuel' ->
  scan_nomor fuel pw s = scan_nomor fuel' pw s.
Proof.
  revert fuel' pw s. induction fuel as [|fuel IH]; intros fuel' pw s H1 H2; [lia|].
  destruct fuel' as [|fuel']; [lia|].
  cbn [scan_nomor]. destruct (nomor_len pw s) as [[|n]|] eqn:En.
  - destruct s as [|c s]; [reflexivity|]. cbn [String.length] in *.
    f_equal. apply IH; lia.
  - apply nomor_len_le in En. f_equal. destruct s as [|c s].
    + cbn in En. lia.
    + cbn [drop String.length] in *.
      pose proof (length_drop_le n s). apply IH; lia.
  - destruct s as [|c s]; [reflexivity|]. cbn [String.length] in *.
    f_equal. apply IH; lia.
Qed.

(** ** Characters the number pattern cannot tell apart *)

Lemma blind_spec (p : ascii -> bool) (c c' : ascii) :
  blind p = true -> sigma c = sigma c' -> p c = p c'.
Proof.
  unfold blind. rewrite forallb_forall. intros H E.
  pose proof (H c (in_all_ascii c)) as H1.
  pose proof (H c' (in_all_ascii c')) as H2.
  apply Bool.eqb_prop in H1. apply Bool.eqb_prop in H2. congruence.
Qed.

Lemma sim_refl (s : string) : sim s s.
Proof. induction s; cbn; auto. Qed.

Lemma sim_app (a a' b b' : string) :
  sim a a' -> sim b b' -> sim (a ++ b) (a' ++ b').
Proof.
  revert a'. induction a as [|c a IH]; intros [|c' a']; cbn; try easy.
  intros [E H] Hb. split; [assumption | now apply IH].
Qed.

Lemma sim_length (s s' : string) : sim s s' -> String.length s = String.length s'.
Proof.
  revert s'. induction s as [|c s IH]; intros [|c' s']; cbn; try easy.
  intros [_ H]. f_equal. now apply IH.
Qed.

Lemma sim_head_word (s s' : string) : sim s s' -> head_word s = head_word s'.
Proof.
  destruct s as [|c s], s' as [|c' s']; cbn; try easy.
  intros [E _]. now apply blind_spec.
Qed.

Lemma done_invariant : invariant done_len.
Proof. easy. Qed.

Lemma wb_invariant (f : lenfun) : invariant f -> invariant (wb_len f).
Proof.
  intros Hf pw s s' H. unfold wb_len.
  now rewrite (sim_head_word s s' H), (Hf pw s s' H).
Qed.

Lemma one_invariant (p : ascii -> bool) (f : lenfun) :
  blind p = true -> invariant f -> invariant (one_len p f).
Proof.
  intros Hp Hf pw [|c s] [|c' s']; cbn [sim one_len]; try easy.
  intros [E H]. rewrite (blind_spec p c c' Hp E).
  rewrite (blind_spec is_word c c' eq_refl E). now rewrite (Hf _ s s' H).
Qed.

Lemma greedy_invariant (p : ascii -> bool) (lo : nat) (hi : option nat)
      (f : lenfun) (count : nat) :
  blind p = true -> invariant f -> invariant (greedy_len p lo hi f count).
Proof.
  intros Hp Hf pw s. revert count pw.
  induction s as [|c s IH]; intros count pw [|c' s']; cbn [sim greedy_len];
    try easy.
  intros [E H].
  rewrite (blind_spec p c c' Hp E), (blind_spec is_word c c' eq_refl E).
  rewrite (IH (S count) (is_word c') s' H).
  assert (Hs : sim (String c s) (String c' s')) by (cbn; auto).
  now rewrite (Hf pw _ _ Hs).
Qed.

Lemma nomor_len_sim (pw : bool) (s s' : string) :
  sim s s' -> nomor_len pw s = nomor_len pw s'.
Proof.
  apply wb_invariant, greedy_invariant; [vm_compute; reflexivity|].
  apply one_invariant; [vm_compute; reflexivity|].
  apply greedy_invariant; [vm_compute; reflexivity|].
  apply wb_invariant, done_invariant.
Qed.

(** ** A match does not look past whitespace *)

Section Local.

Variable w : ascii.
Variable b : string.
Hypothesis w_not_word : is_word w = false.

Lemma done_local : local w b done_len.
Proof. easy. Qed.

Lemma wb_local (f : lenfun) : local w b f -> local w b (wb_len f).
Proof.
  intros Hf pw a. unfold wb_len. rewrite Hf.
  destruct a as [|c a]; cbn [append head_word]; [|reflexivity].
  now rewrite w_not_word.
Qed.

Lemma one_local (p : ascii -> bool) (f : lenfun) :
  p w = false -> local w b f -> local w b (one_len p f).
Proof.
  intros Hp Hf pw [|c a]; cbn [append one_len].
  - now rewrite Hp.
  - now rewrite Hf.
Qed.

Lemma greedy_local (p : ascii -> bool) (lo : nat) (hi : option nat)
      (f : lenfun) (count : nat) :
  p w = false -> local w b f -> local w b (greedy_len p lo hi f count).
Proof.
  intros Hp Hf pw a. revert count pw.
  induction a as [|c a IH]; intros count pw; cbn [append greedy_len].
  - rewrite Hp, andb_false_r. pose proof (Hf pw "") as H0.
    cbn [append] in H0. now rewrite H0.
  - rewrite IH. pose proof (Hf pw (String c a)) as H0.
    cbn [append] in H0. now rewrite H0.
Qed.

End Local.

Lemma unspaced_spec (p : ascii -> bool) (c : ascii) :
  unspaced p = true -> is_space c = true -> p c = false.
Proof.
  unfold unspaced. rewrite forallb_forall. intros H Hc.
  specialize (H c (in_all_ascii c)). rewrite Hc in H. cbn in H.
  now apply negb_true_iff.
Qed.

Lemma nomor_len_local (w : ascii) (b : string) (pw : bool) (a : string) :
  is_space w = true ->
  nomor_len pw (a ++ String w b) = nomor_len pw a.
Proof.
  intros Hw.
  assert (Hword : is_word w = false)
    by (apply (unspaced_spec is_word); [vm_compute; reflexivity | exact Hw]).
  revert pw a.
  apply wb_local; [exact Hword|].
  apply greedy_local;
    [apply (unspaced_spec head_class); [vm_compute; reflexivity | exact Hw]|].
  apply one_local;
    [apply (unspaced_spec sep_class); [vm_compute; reflexivity | exact Hw]|].
  apply greedy_local;
    [apply (unspaced_spec tail_class); [vm_compute; reflexivity | exact Hw]|].
  apply wb_local; [exact Hword|]. apply done_local.
Qed.

(** ** More on strings *)

Lemma take_drop (n : nat) (s : string) : take n s ++ drop n s = s.
Proof.
  revert s. induction n as [|n IH]; intros [|c s]; cbn; try reflexivity.
  now rewrite IH.
Qed.

Lemma take_app_le (n : nat) (a x : string) :
  n <= String.length a -> take n (a ++ x) = take n a.
Proof.
  revert a. induction n as [|n IH]; intros [|c a] H; cbn in *; try reflexivity;
    try lia.
  rewrite IH by lia. reflexivity.
Qed.

Lemma drop_app_le (n : nat) (a x : string) :
  n <= String.length a -> drop n (a ++ x) = drop n a ++ x.
Proof.
  revert a. induction n as [|n IH]; intros [|c a] H; cbn in *; try reflexivity;
    try lia.
  apply IH. lia.
Qed.

Lemma take_length (n : nat) (s : string) :
  n <= String.length s -> String.length (take n s) = n.
Proof.
  revert s. induction n as [|n IH]; intros [|c s] H; cbn in *; try reflexivity;
    try lia.
  rewrite IH by lia. reflexivity.
Qed.

Lemma take_all (s : string) : take (String.length s) s = s.
Proof. induction s as [|c s IH]; cbn; [reflexivity | now rewrite IH]. Qed.

Lemma drop_all (s : string) : drop (String.length s) s = EmptyString.
Proof. induction s as [|c s IH]; cbn; [reflexivity | exact IH]. Qed.

Lemma length_drop (n : nat) (s : string) :
  String.length (drop n s) = String.length s - n.
Proof.
  revert s. induction n as [|n IH]; intros [|c s]; cbn; try lia.
  apply IH.
Qed.

Lemma length_app (a b : string) :
  String.length (a ++ b) = String.length a + String.length b.
Proof. induction a as [|c a IH]; cbn; [reflexivity | now rewrite IH]. Qed.

Lemma smap_length (f : ascii -> ascii) (s : string) :
  String.length (smap f s) = String.length s.
Proof. induction s as [|c s IH]; cbn; [reflexivity | now rewrite IH]. Qed.

Lemma app_inj_length (a a' x x' : string) :
  String.length a = String.length a' -> a ++ x = a' ++ x' -> a = a' /\ x = x'.
Proof.
  revert a'. induction a as [|c a IH]; intros [|c' a'] Hl H; cbn in *;
    try discriminate; [now split|].
  injection H as -> H. destruct (IH a') as [-> ->]; [lia | assumption|].
  now split.
Qed.

Lemma replace_go_char (a b : ascii) (fuel : nat) (s : string) :
  String.length s < fuel ->
  replace_go fuel (String a "") (String b "") s
  = smap (fun c => if Ascii.eqb a c then b else c) s.
Proof.
  revert s. induction fuel as [|fuel IH]; intros s Hf; [lia|].
  destruct s as [|c s]; [reflexivity|].
  cbn [replace_go startswith smap String.length drop] in *.
  rewrite andb_true_r. destruct (Ascii.eqb a c).
  - cbn [append]. f_equal. apply IH. lia.
  - f_equal. apply IH. lia.
Qed.

Lemma fix_text_smap (x : string) : fix_text x = smap sigma x.
Proof.
  unfold fix_text, replace. rewrite !replace_go_char by lia.
  induction x as [|c x IH]; [reflexivity|].
  cbn [smap]. rewrite IH. f_equal. unfold sigma.
  rewrite (Ascii.eqb_sym c "O"), (Ascii.eqb_sym c "l").
  destruct (Ascii.eqb "O" c); [reflexivity|].
  reflexivity.
Qed.

Lemma sigma_idem (c : ascii) : sigma (sigma c) = sigma c.
Proof.
  unfold sigma. destruct (Ascii.eqb c "O") eqn:E1; [reflexivity|].
  destruct (Ascii.eqb c "l") eqn:E2; [reflexivity|].
  now rewrite E1, E2.
Qed.

Lemma sim_smap (x : string) : sim (smap sigma x) x.
Proof.
  induction x as [|c x IH]; cbn; [exact I|].
  split; [apply sigma_idem | exact IH].
Qed.

Lemma smap_sigma_idem (x : string) : smap sigma (smap sigma x) = smap sigma x.
Proof.
  induction x as [|c x IH]; cbn; [reflexivity|].
  now rewrite sigma_idem, IH.
Qed.

Lemma srev_smap (f : ascii -> ascii) (x : string) :
  srev (smap f x) = smap f (srev x).
Proof.
  induction x as [|c x IH]; [reflexivity|].
  cbn [smap]. rewrite !srev_cons, IH.
  clear IH. induction (srev x) as [|d y IH]; cbn; [reflexivity|].
  now rewrite IH.
Qed.

Lemma last_is_word_smap (pw : bool) (x : string) :
  last_is_word pw (smap sigma x) = last_is_word pw x.
Proof.
  unfold last_is_word. rewrite srev_smap.
  destruct (srev x) as [|c y]; cbn [smap]; [reflexivity|].
  symmetry. apply (blind_spec is_word); [reflexivity|].
  symmetry. apply sigma_idem.
Qed.

(** ** The repaired text *)

Lemma scan_nomor_sim (fuel : nat) (pw : bool) (s : string) :
  sim (scan_nomor fuel pw s) s.
Proof.
  revert pw s. induction fuel as [|fuel IH]; intros pw s; [apply sim_refl|].
  cbn [scan_nomor]. destruct (nomor_len pw s) as [[|n]|].
  - destruct s as [|c s]; cbn; auto.
  - assert (H1 : sim (fix_text (take (S n) s)) (take (S n) s))
      by (rewrite fix_text_smap; apply sim_smap).
    pose proof (sim_app _ _ _ _ H1
                        (IH (last_is_word pw (take (S n) s)) (drop (S n) s)))
      as H.
    now rewrite take_drop in H.
  - destruct s as [|c s]; cbn; auto.
Qed.

Lemma scan_nomor_length (fuel : nat) (pw : bool) (s : string) :
  String.length (scan_nomor fuel pw s) = String.length s.
Proof. apply sim_length, scan_nomor_sim. Qed.

Lemma scan_nomor_S (fuel : nat) (pw : bool) (s : string) :
  scan_nomor (S fuel) pw s
  = match nomor_len pw s with
    | Some (S n) =>
        fix_text (take (S n) s)
        ++ scan_nomor fuel (last_is_word pw (take (S n) s)) (drop (S n) s)
    | _ =>
        match s with
        | EmptyString => EmptyString
        | String c s' => String c (scan_nomor fuel (is_word c) s')
        end
    end.
Proof. reflexivity. Qed.

Lemma scan_nomor_idem (fuel : nat) (pw : bool) (s : string) :
  scan_nomor fuel pw (scan_nomor fuel pw s) = scan_nomor fuel pw s.
Proof.
  revert pw s. induction fuel as [|fuel IH]; intros pw s; [reflexivity|].
  rewrite (scan_nomor_S fuel pw s).
  destruct (nomor_len pw s) as [[|n]|] eqn:En.
  - now elim (nomor_len_pos pw s).
  - pose proof (nomor_len_le _ _ _ En) as Hle.
    set (fx := fix_text (take (S n) s)).
    set (pw' := last_is_word pw (take (S n) s)).
    set (y := scan_nomor fuel pw' (drop (S n) s)).
    assert (Hfx : String.length fx = S n).
    { unfold fx. rewrite fix_text_smap, smap_length. now apply take_length. }
    assert (Hs : sim (fx ++ y) s).
    { assert (H1 : sim fx (take (S n) s))
        by (unfold fx; rewrite fix_text_smap; apply sim_smap).
      pose proof (sim_app _ _ _ _ H1 (scan_nomor_sim fuel pw' (drop (S n) s)))
        as H.
      now rewrite take_drop in H. }
    rewrite scan_nomor_S, (nomor_len_sim pw _ _ Hs), En.
    rewrite take_app_le by lia. rewrite drop_app_le by lia.
    rewrite <- Hfx, take_all, drop_all. cbn [append].
    assert (Hff : fix_text fx = fx).
    { unfold fx. now rewrite !fix_text_smap, smap_sigma_idem. }
    assert (Hpw : last_is_word pw fx = pw').
    { unfold fx, pw'. rewrite fix_text_smap. apply last_is_word_smap. }
    rewrite Hff, Hpw. unfold y. now rewrite IH.
  - destruct s as [|c s]; [rewrite scan_nomor_S; now rewrite En|].
    set (y := scan_nomor fuel (is_word c) s).
    assert (Hs : sim (String c y) (String c s))
      by (cbn; split; [reflexivity | apply scan_nomor_sim]).
    rewrite scan_nomor_S, (nomor_len_sim pw _ _ Hs), En.
    unfold y. now rewrite IH.
Qed.

(** ** The repair works token by token *)

Lemma nomor_len_empty (pw : bool) : nomor_len pw "" = None.
Proof. now destruct pw. Qed.

Lemma scan_nomor_empty (fuel : nat) (pw : bool) : scan_nomor fuel pw "" = "".
Proof. destruct fuel; [reflexivity|]. now rewrite scan_nomor_S, nomor_len_empty. Qed.

Lemma space_not_word (w : ascii) : is_space w = true -> is_word w = false.
Proof. apply (unspaced_spec is_word). vm_compute. reflexivity. Qed.

Lemma scan_nomor_app (w : ascii) (b : string) :
  is_space w = true ->
  forall fuel pw a,
    String.length (a ++ String w b) < fuel ->
    scan_nomor fuel pw (a ++ String w b)
    = scan_nomor fuel pw a ++ String w (scan_nomor fuel false b).
Proof.
  intros Hw. induction fuel as [|fuel IH]; intros pw a Hf; [lia|].
  rewrite length_app in Hf. cbn [String.length] in Hf.
  assert (Hb : scan_nomor fuel false b = scan_nomor (S fuel) false b)
    by (apply scan_nomor_fuel; lia).
  rewrite (scan_nomor_S fuel pw (a ++ String w b)), (scan_nomor_S fuel pw a).
  rewrite nomor_len_local by assumption.
  destruct (nomor_len pw a) as [[|n]|] eqn:En.
  - now elim (nomor_len_pos pw a).
  - pose proof (nomor_len_le _ _ _ En) as Hle.
    rewrite take_app_le, drop_app_le by assumption.
    rewrite IH.
    + now rewrite append_assoc, Hb.
    + rewrite length_app, length_drop. cbn [String.length]. lia.
  - destruct a as [|c a]; cbn [append].
    + now rewrite (space_not_word w Hw), Hb.
    + rewrite IH; [now rewrite Hb|].
      rewrite length_app. cbn [String.length] in *. lia.
Qed.

Lemma settled_app (w : ascii) (a b : string) :
  is_space w = true ->
  settled (a ++ String w b) <-> settled a /\ settled b.
Proof.
  intros Hw. unfold settled.
  rewrite (scan_nomor_app w b Hw) by lia.
  rewrite (scan_nomor_fuel (S (String.length (a ++ String w b)))
                           (S (String.length a)) false a)
    by (rewrite ?length_app; cbn [String.length]; lia).
  rewrite (scan_nomor_fuel (S (String.length (a ++ String w b)))
                           (S (String.length b)) false b)
    by (rewrite ?length_app; cbn [String.length]; lia).
  split.
  - intros H. apply app_inj_length in H; [|apply scan_nomor_length].
    destruct H as [Ha Hb]. injection Hb as Hb. now split.
  - intros [-> ->]. reflexivity.
Qed.

Lemma settled_empty : settled "".
Proof. reflexivity. Qed.

Lemma settled_cons_space (w : ascii) (b : string) :
  is_space w = true -> settled (String w b) <-> settled b.
Proof.
  intros Hw. pose proof (settled_app w "" b Hw) as H. cbn [append] in H.
  rewrite H. split; [tauto | intros Hb; split; [apply settled_empty | exact Hb]].
Qed.

Lemma settled_scan_nomor (s : string) :
  settled (scan_nomor (S (String.length s)) false s).
Proof.
  unfold settled. rewrite scan_nomor_length. apply scan_nomor_idem.
Qed.

(** ** The whitespace steps keep a settled text settled *)

Lemma blank_is_space (c : ascii) : blank c = true -> is_space c = true.
Proof. apply only_spec. vm_compute. reflexivity. Qed.

Lemma spacey_is_space (c : ascii) : spacey c = is_space c.
Proof.
  unfold spacey, cls_match, set_has. cbn [icase plain existsb item_has xorb].
  apply orb_false_r.
Qed.

Lemma settled_drop_spaces (k : nat) (s : string) :
  k <= run_len is_space s -> settled s -> settled (drop k s).
Proof.
  revert s. induction k as [|k IH]; intros s Hk Hs; [now destruct s|].
  destruct s as [|c s]; [exact Hs|].
  cbn [run_len] in Hk. destruct (is_space c) eqn:Ec; [|lia].
  cbn [drop]. apply IH; [lia|]. now apply (settled_cons_space c s Ec).
Qed.

Lemma blanks_len_spaces (s : string) : blanks_len s <= run_len is_space s.
Proof.
  unfold blanks_len. induction s as [|c s IH]; cbn [run_len]; [lia|].
  destruct (blank c) eqn:Eb; [|lia].
  rewrite (blank_is_space c Eb). lia.
Qed.

Lemma lf_end_spaces (s : string) : lf_end s <= run_len is_space s.
Proof.
  induction s as [|c s IH]; [cbn; lia|].
  rewrite lf_end_cons. cbn [run_len]. rewrite <- spacey_is_space.
  destruct (spacey c) eqn:Es.
  - destruct (lf_end s) as [|m] eqn:El; [|lia].
    destruct (is_lf c); [|lia].
    apply lf_end_zero in El. rewrite (nlf_zero_run s El). lia.
  - destruct (is_lf c) eqn:Ec; [|lia].
    rewrite (is_lf_spacey c Ec) in Es. discriminate.
Qed.

Lemma settled_squeeze_blanks (fuel : nat) (a s : string) :
  settled (a ++ s) -> settled (a ++ squeeze_blanks fuel s).
Proof.
  revert a s. induction fuel as [|fuel IH]; intros a s Hs; [exact Hs|].
  unfold squeeze_blanks. cbn [scan].
  destruct s as [|c s]; [exact Hs|].
  rewrite blanks_len_cons. destruct (blank c) eqn:Eb.
  - cbn [drop append]. fold (squeeze_blanks fuel (drop (blanks_len s) s)).
    apply (settled_app c a s (blank_is_space c Eb)) in Hs.
    destruct Hs as [Ha Hs].
    apply (settled_app " " a _ eq_refl). split; [exact Ha|].
    apply (IH "" (drop (blanks_len s) s)). cbn [append].
    apply settled_drop_spaces; [apply blanks_len_spaces | exact Hs].
  - fold (squeeze_blanks fuel s).
    change (a ++ String c (squeeze_blanks fuel s))
      with (a ++ (String c "" ++ squeeze_blanks fuel s)).
    rewrite <- append_assoc. apply IH. now rewrite append_assoc.
Qed.

Lemma settled_squeeze_lines (fuel : nat) (a s : string) :
  settled (a ++ s) -> settled (a ++ squeeze_lines fuel s).
Proof.
  revert a s. induction fuel as [|fuel IH]; intros a s Hs; [exact Hs|].
  unfold squeeze_lines. cbn [scan].
  destruct s as [|c s]; [exact Hs|].
  rewrite blank_lines_len_cons.
  destruct (is_lf c && (2 <=? nlf s)) eqn:Em.
  - apply andb_prop in Em. destruct Em as [Ec _].
    pose proof (is_lf_spacey c Ec) as Hsp. rewrite spacey_is_space in Hsp.
    cbn [drop]. fold (squeeze_lines fuel (drop (lf_end s) s)).
    change ((nl ++ nl) ++ squeeze_lines fuel (drop (lf_end s) s))
      with (String LF (String LF (squeeze_lines fuel (drop (lf_end s) s)))).
    apply (settled_app c a s Hsp) in Hs. destruct Hs as [Ha Hs].
    apply (settled_app LF a _ eq_refl). split; [exact Ha|].
    apply (settled_cons_space LF _ eq_refl).
    apply (IH "" (drop (lf_end s) s)). cbn [append].
    apply settled_drop_spaces; [apply lf_end_spaces | exact Hs].
  - fold (squeeze_lines fuel s).
    change (a ++ String c (squeeze_lines fuel s))
      with (a ++ (String c "" ++ squeeze_lines fuel s)).
    rewrite <- append_assoc. apply IH. now rewrite append_assoc.
Qed.

Lemma lstrip_by_split (p : ascii -> bool) (s : string) :
  exists pre, s = pre ++ lstrip_by p s /\ sforall p pre = true.
Proof.
  induction s as [|c s [pre [IH Hp]]]; cbn [lstrip_by].
  - now exists "".
  - destruct (p c) eqn:E.
    + exists (String c pre). cbn. rewrite <- IH, E, Hp. now split.
    + now exists "".
Qed.

Lemma rstrip_by_split (p : ascii -> bool) (s : string) :
  exists post, s = rstrip_by p s ++ post /\ sforall p post = true.
Proof.
  unfold rstrip_by. destruct (lstrip_by_split p (srev s)) as [pre [H Hp]].
  exists (srev pre). split.
  - rewrite <- srev_app, <- H. symmetry. apply srev_involutive.
  - now rewrite sforall_srev.
Qed.

Lemma settled_lstrip (s : string) :
  settled s -> settled (lstrip_by is_space s).
Proof.
  induction s as [|c s IH]; cbn [lstrip_by]; [easy|].
  destruct (is_space c) eqn:E; [|easy].
  intros H. apply IH. now apply (settled_cons_space c s E).
Qed.

Lemma settled_trailing (x post : string) :
  sforall is_space post = true -> settled (x ++ post) -> settled x.
Proof.
  destruct post as [|w post]; cbn [sforall].
  - now rewrite append_empty_r.
  - intros H Hs. apply andb_prop in H. destruct H as [Hw _].
    now apply (settled_app w x post Hw) in Hs.
Qed.

Lemma settled_strip (s : string) : settled s -> settled (strip s).
Proof.
  intros H. unfold strip, strip_by.
  apply settled_lstrip in H.
  destruct (rstrip_by_split is_space (lstrip_by is_space s)) as [post [E Hp]].
  rewrite E in H. now apply settled_trailing in H.
Qed.

(** ** The normalizer on texts without a slash *)

Lemma sforall_take (q : ascii -> bool) (n : nat) (s : string) :
  sforall q s = true -> sforall q (take n s) = true.
Proof.
  revert s. induction n as [|n IH]; intros [|c s]; cbn; try easy.
  intros H. apply andb_prop in H. destruct H as [-> H]. now apply IH.
Qed.

Lemma sforall_smap (q : ascii -> bool) (f : ascii -> ascii) (s : string) :
  (forall c, q c = true -> q (f c) = true) ->
  sforall q s = true -> sforall q (smap f s) = true.
Proof.
  intros Hq. induction s as [|c s IH]; cbn; [easy|].
  intros H. apply andb_prop in H. destruct H as [Hc H].
  now rewrite (Hq c Hc), IH.
Qed.

Lemma sforall_scan_nomor (q : ascii -> bool) (fuel : nat) (pw : bool)
      (s : string) :
  (forall c, q c = true -> q (sigma c) = true) ->
  sforall q s = true -> sforall q (scan_nomor fuel pw s) = true.
Proof.
  intros Hq. revert pw s. induction fuel as [|fuel IH]; intros pw s Hs; [exact Hs|].
  rewrite scan_nomor_S. destruct (nomor_len pw s) as [[|n]|].
  - destruct s as [|c s]; [reflexivity|]. cbn [sforall] in *.
    apply andb_prop in Hs. destruct Hs as [-> Hs]. now apply IH.
  - rewrite sforall_app, fix_text_smap.
    rewrite sforall_smap by (try assumption; now apply sforall_take).
    apply IH. now apply sforall_drop.
  - destruct s as [|c s]; [reflexivity|]. cbn [sforall] in *.
    apply andb_prop in Hs. destruct Hs as [-> Hs]. now apply IH.
Qed.

Lemma sigma_no_slash (c : ascii) :
  negb (mem_c c "/") = true -> negb (mem_c (sigma c) "/") = true.
Proof.
  unfold sigma. destruct (Ascii.eqb c "O"); [reflexivity|].
  now destruct (Ascii.eqb c "l").
Qed.

Lemma slash_only (c : ascii) : slash c = true -> mem_c c "/" = true.
Proof. unfold slash. intros H. apply Ascii.eqb_eq in H. now subst. Qed.

(** On a non-empty text without a slash only the number repair, the two
    whitespace steps and the final strip act, each with fuel to spare. *)
Lemma clean_text_slash_free (c : ascii) (t : string) :
  free_of "/" (String c t) = true ->
  exists f0 f1 f2,
    String.length (String c t) < f0
    /\ String.length (scan_nomor f0 false (String c t)) < f1
    /\ String.length (squeeze_blanks f1 (scan_nomor f0 false (String c t))) < f2
    /\ _clean_text (String c t)
       = strip (squeeze_lines f2
                  (squeeze_blanks f1 (scan_nomor f0 false (String c t)))).
Proof.
  intros Hfree.
  pose proof (free_of_sexists "/" slash _ slash_only Hfree) as Hslash.
  unfold _clean_text. cbn [truthy_str negb].
  unfold replacements. cbn [fold_left].
  rewrite (replace_absent slash "/-" "-" (String c t)),
    (replace_absent slash "I/" "/" (String c t)),
    (replace_absent slash "|/" "/" (String c t)),
    (replace_absent slash "\ /" "" (String c t)),
    (replace_absent slash "OS '/" "05 /" (String c t)),
    (replace_absent slash "OB '/" "08 /" (String c t)),
    (replace_absent slash "OI '/" "01 /" (String c t)),
    (replace_absent slash "O5 '/" "05 /" (String c t))
    by (assumption || reflexivity).
  rewrite (sub_without plain slash re_digit_backslash)
    by (assumption || (vm_compute; reflexivity)).
  rewrite (sub_without plain slash re_apostrophe)
    by (assumption || (vm_compute; reflexivity)).
  unfold sub.
  rewrite sub_go_scan_nomor. cbn [word_opt].
  rewrite (sub_go_scan plain re_blanks blanks_len " " measures_blanks).
  rewrite (sub_go_scan plain re_blank_lines blank_lines_len (nl ++ nl)
                       measures_blank_lines).
  eexists _, _, _. split; [|split; [|split; [|reflexivity]]].
  - lia.
  - unfold squeeze_blanks. lia.
  - unfold squeeze_lines, squeeze_blanks. lia.
Qed.

(** C5, as stated, fails: one pass turns "//-" into "/-", and a second
    pass turns that into "-". *)
Lemma clean_text_not_idempotent :
  _clean_text "//-" = "/-"
  /\ _clean_text (_clean_text "//-") <> _clean_text "//-".
Proof. split; [vm_compute; reflexivity | vm_compute; discriminate]. Qed.

(** The normalizer is idempotent on every text that holds no slash.
    There the literal substitutions and the two slash repairs find
    nothing; the number repair turns O into 0 and l into 1 inside the
    tokens it matches, which neither moves a token nor changes what
    matches; the squeezing of blank runs and of blank lines and the final
    strip only touch whitespace, which ends every token.  So the result of
    one pass is left alone by each step of a second pass. *)
Lemma clean_text_idempotent_slash_free (t : string) :
  free_of "/" t = true ->
  _clean_text (_clean_text t) = _clean_text t.
Proof.
  intros Hfree. destruct t as [|c t]; [reflexivity|].
  destruct (clean_text_slash_free c t Hfree)
    as [f0 [f1 [f2 [Hf0 [Hf1 [Hf2 ->]]]]]].
  set (y := scan_nomor f0 false (String c t)) in *.
  set (u := squeeze_blanks f1 y) in *.
  set (w := squeeze_lines f2 u).
  assert (Hfy : free_of "/" y = true)
    by (apply sforall_scan_nomor; [exact sigma_no_slash | exact Hfree]).
  assert (Hfw : free_of "/" w = true)
    by (apply sforall_scan; [reflexivity|];
        apply sforall_scan; [reflexivity | exact Hfy]).
  assert (Hy : settled y).
  { unfold y. rewrite (scan_nomor_fuel f0 (S (String.length (String c t))))
      by (assumption || lia).
    apply settled_scan_nomor. }
  assert (Hw : settled w).
  { apply (settled_squeeze_lines f2 "" u), (settled_squeeze_blanks f1 "" y).
    exact Hy. }
  assert (Hsw : squeezed w = true)
    by (apply squeeze_lines_squeezed, squeeze_blanks_squeezed; exact Hf1).
  assert (Hcw : calm w = true) by (apply squeeze_lines_calm; exact Hf2).
  apply settled_strip in Hw. unfold strip in *.
  assert (Hfv : free_of "/" (strip_by is_space w) = true)
    by now apply sforall_strip_by.
  assert (Hsv : squeezed (strip_by is_space w) = true)
    by now apply squeezed_strip_by.
  assert (Hcv : calm (strip_by is_space w) = true)
    by now apply calm_strip_by.
  pose proof (strip_by_idem is_space w) as Hidem.
  destruct (strip_by is_space w) as [|d v] eqn:Ev; [reflexivity|].
  destruct (clean_text_slash_free d v Hfv) as [g0 [g1 [g2 [Hg0 [_ [_ ->]]]]]].
  unfold settled in Hw.
  rewrite (scan_nomor_fuel g0 (S (String.length (String d v))))
    by (assumption || lia).
  rewrite Hw.
  rewrite (squeeze_blanks_fixed _ _ Hsv), (squeeze_lines_fixed _ _ Hcv).
  exact Hidem.
Qed.

Lemma clean_text_idempotent_slash_free_witness :
  _clean_text slash_free_sample = "Nomor: 012-AB.13 " ++ nl ++ nl ++ " Rapat RW 05"
  /\ _clean_text (_clean_text slash_free_sample)
     = _clean_text slash_free_sample.
Proof.
  split; [vm_compute; reflexivity|].
  apply (clean_text_idempotent_slash_free slash_free_sample).
  vm_compute. reflexivity.
Defined.

(** ** The normalizer on every text *)

(** ** The normalizer, step by step *)

(** On a non-empty text the slash repairs come first; then the number
    repair, the two whitespace steps and the final strip act, each with
    fuel to spare. *)
Lemma clean_text_steps (c : ascii) (t : string) :
  exists f0 f1 f2,
    String.length (slash_repairs (String c t)) < f0
    /\ String.length (scan_nomor f0 false (slash_repairs (String c t))) < f1
    /\ String.length (squeeze_blanks f1
                        (scan_nomor f0 false (slash_repairs (String c t)))) < f2
    /\ _clean_text (String c t)
       = strip (squeeze_lines f2
                  (squeeze_blanks f1
                     (scan_nomor f0 false (slash_repairs (String c t))))).
Proof.
  unfold _clean_text, slash_repairs. cbn [truthy_str negb].
  match goal with
  | |- context [sub ignorecase re_nomor_shape fix_nomor ?x] => generalize x
  end.
  intros x.
  unfold sub.
  rewrite sub_go_scan_nomor. cbn [word_opt].
  rewrite (sub_go_scan plain re_blanks blanks_len " " measures_blanks).
  rewrite (sub_go_scan plain re_blank_lines blank_lines_len (nl ++ nl)
                       measures_blank_lines).
  eexists _, _, _. split; [|split; [|split; [|reflexivity]]].
  - lia.
  - unfold squeeze_blanks. lia.
  - unfold squeeze_lines, squeeze_blanks. lia.
Qed.

(** What one pass leaves: a text that the number repair, the two
    whitespace steps and the strip leave alone. *)
Lemma clean_text_result (t : string) :
  settled (_clean_text t)
  /\ squeezed (_clean_text t) = true
  /\ calm (_clean_text t) = true
  /\ strip (_clean_text t) = _clean_text t.
Proof.
  destruct t as [|c t].
  { repeat split. }
  destruct (clean_text_steps c t) as [f0 [f1 [f2 [Hf0 [Hf1 [Hf2 ->]]]]]].
  set (x := slash_repairs (String c t)) in *.
  set (y := scan_nomor f0 false x) in *.
  set (u := squeeze_blanks f1 y) in *.
  set (w := squeeze_lines f2 u).
  assert (Hy : settled y).
  { unfold y. rewrite (scan_nomor_fuel f0 (S (String.length x)))
      by (assumption || lia).
    apply settled_scan_nomor. }
  assert (Hw : settled w).
  { apply (settled_squeeze_lines f2 "" u), (settled_squeeze_blanks f1 "" y).
    exact Hy. }
  assert (Hsw : squeezed w = true)
    by (apply squeeze_lines_squeezed, squeeze_blanks_squeezed; exact Hf1).
  assert (Hcw : calm w = true) by (apply squeeze_lines_calm; exact Hf2).
  split; [now apply settled_strip|]. unfold strip.
  split; [now apply squeezed_strip_by|].
  split; [now apply calm_strip_by | apply strip_by_idem].
Qed.

(** A second pass whose slash repairs find nothing changes nothing. *)
Lemma clean_text_fixed_after_repairs (t : string) :
  slash_repairs (_clean_text t) = _clean_text t ->
  _clean_text (_clean_text t) = _clean_text t.
Proof.
  intros Hr.
  destruct (clean_text_result t) as [Hs [Hq [Hc Hi]]].
  destruct (_clean_text t) as [|d v] eqn:Ev; [reflexivity|].
  destruct (clean_text_steps d v) as [g0 [g1 [g2 [Hg0 [_ [_ ->]]]]]].
  rewrite Hr in *. unfold settled in Hs.
  rewrite (scan_nomor_fuel g0 (S (String.length (String d v))))
    by (assumption || lia).
  rewrite Hs.
  rewrite (squeeze_blanks_fixed _ _ Hq), (squeeze_lines_fixed _ _ Hc).
  exact Hi.
Qed.

(** ** Ink *)

Lemma ink_app (a b : string) : ink (a ++ b) = ink a + ink b.
Proof. induction a as [|c a IH]; cbn; [reflexivity | rewrite IH; lia]. Qed.

Lemma ink_take_drop (n : nat) (s : string) :
  ink (take n s) + ink (drop n s) = ink s.
Proof. now rewrite <- ink_app, take_drop. Qed.

Lemma startswith_split (old s : string) :
  startswith old s = true -> s = old ++ drop (String.length old) s.
Proof.
  revert s. induction old as [|a old IH]; intros [|b s]; cbn; try easy.
  destruct (Ascii.eqb a b) eqn:E; [|discriminate].
  apply Ascii.eqb_eq in E. subst b. intros H. now rewrite <- IH.
Qed.

Lemma shrinks_compose (f g : string -> string) :
  shrinks f -> shrinks g -> shrinks (fun s => g (f s)).
Proof.
  intros Hf Hg s. destruct (Hf s) as [Hf1 Hf2]. destruct (Hg (f s)) as [Hg1 Hg2].
  split; [lia|]. intros E.
  assert (E1 : ink (f s) = ink s) by lia.
  assert (E2 : ink (g (f s)) = ink (f s)) by lia.
  now rewrite (Hg2 E2), (Hf2 E1).
Qed.

(** ** [str.replace] *)

Lemma replace_go_ink (old new : string) :
  ink new <= ink old ->
  forall fuel s, ink (replace_go fuel old new s) <= ink s.
Proof.
  intros Hn. induction fuel as [|fuel IH]; intros s; [cbn; lia|].
  cbn [replace_go]. destruct s as [|c s].
  - destruct (startswith old "") eqn:E; [|cbn; lia].
    destruct old; [cbn in *; lia | discriminate E].
  - destruct (startswith old (String c s)) eqn:E.
    + destruct old as [|o old].
      * rewrite ink_app. cbn [ink]. specialize (IH s). cbn [ink] in Hn. lia.
      * rewrite ink_app. apply startswith_split in E.
        rewrite E at 2. rewrite ink_app.
        specialize (IH (drop (String.length (String o old)) (String c s))).
        lia.
    + cbn [ink]. specialize (IH s). lia.
Qed.

Lemma replace_ink (old new s : string) :
  ink new <= ink old -> ink (replace old new s) <= ink s.
Proof. intros H. unfold replace. now apply replace_go_ink. Qed.

Lemma replace_go_shrinks (old new : string) :
  ink new < ink old ->
  forall fuel s,
    ink (replace_go fuel old new s) = ink s -> replace_go fuel old new s = s.
Proof.
  intros Hn. induction fuel as [|fuel IH]; intros s; [reflexivity|].
  cbn [replace_go]. destruct s as [|c s].
  - destruct (startswith old "") eqn:E; [|reflexivity].
    destruct old; [cbn in Hn; lia | discriminate E].
  - destruct (startswith old (String c s)) eqn:E.
    + destruct old as [|o old]; [cbn in Hn; lia|].
      rewrite ink_app. apply startswith_split in E.
      pose proof (replace_go_ink (String o old) new (Nat.lt_le_incl _ _ Hn) fuel
                    (drop (String.length (String o old)) (String c s))) as Hle.
      intros H. exfalso.
      assert (Hs : ink (String c s)
                   = ink (String o old)
                     + ink (drop (String.length (String o old)) (String c s)))
        by (rewrite <- ink_app, <- E; reflexivity).
      lia.
    + cbn [ink]. intros H. f_equal. apply IH. lia.
Qed.

Lemma replace_shrinks (old new : string) :
  ink new < ink old -> shrinks (replace old new).
Proof.
  intros H s. split.
  - apply replace_ink. lia.
  - unfold replace. now apply replace_go_shrinks.
Qed.

(** ** The words of a pattern *)

Lemma after_refl (st : mstate) : after st "" [] st.
Proof. unfold after. cbn. repeat split. lia. Qed.

Lemma after_trans (st : mstate) (w1 : string) (c1 : list (nat * string))
      (st1 : mstate) (w2 : string) (c2 : list (nat * string)) (st2 : mstate) :
  after st w1 c1 st1 -> after st1 w2 c2 st2 ->
  after st (w1 ++ w2) (c2 ++ c1) st2.
Proof.
  intros [R1 [P1 C1]] [R2 [P2 C2]]. unfold after.
  rewrite R1, R2, P2, P1, C2, C1, length_app, append_assoc, <- app_assoc.
  repeat split. lia.
Qed.

Lemma one_char_after (f : ascii -> bool) (k : mstate -> option mstate)
      (st e : mstate) :
  one_char f k st = Some e ->
  exists c st', f c = true /\ after st (String c "") [] st' /\ k st' = Some e.
Proof.
  unfold one_char. destruct (m_rest st) as [|c rest] eqn:Er; [discriminate|].
  destruct (f c) eqn:Ef; [|discriminate].
  intros Hk. exists c, (eat st c rest). split; [exact Ef|].
  split; [|exact Hk]. unfold after. cbn. rewrite Er. repeat split. lia.
Qed.

Section RepLoopSpells.

Variable P : string -> list (nat * string) -> Prop.
Variable body : (mstate -> option mstate) -> mstate -> option mstate.
Hypothesis body_sound :
  forall k st e, body k st = Some e ->
                 exists w caps st', P w caps /\ after st w caps st'
                                    /\ k st' = Some e.

Lemma rep_loop_spells (k : mstate -> option mstate) (greedy : bool) (lo : nat)
      (hi : option nat) (fuel count : nat) (st e : mstate) :
  rep_loop body k greedy lo hi fuel count st = Some e ->
  exists w caps st', iter P w caps /\ after st w caps st' /\ k st' = Some e.
Proof.
  revert count st. induction fuel as [|fuel IH]; intros count st; [discriminate|].
  cbn [rep_loop].
  set (more := if within hi count then _ else None).
  set (stop := if lo <=? count then k st else None).
  intros H.
  assert (Hmore : more = Some e ->
                  exists w caps st', iter P w caps /\ after st w caps st'
                                     /\ k st' = Some e).
  { unfold more. destruct (within hi count); [|discriminate].
    intros Hm. apply body_sound in Hm.
    destruct Hm as [w1 [c1 [st1 [P1 [A1 Hm]]]]].
    destruct ((lo <=? count) && (m_pos st1 =? m_pos st)); [discriminate|].
    apply IH in Hm. destruct Hm as [w2 [c2 [st2 [P2 [A2 Hk]]]]].
    exists (w1 ++ w2), (c2 ++ c1)%list, st2.
    split; [now constructor|]. split; [|exact Hk].
    now apply (after_trans st w1 c1 st1). }
  assert (Hstop : stop = Some e ->
                  exists w caps st', iter P w caps /\ after st w caps st'
                                     /\ k st' = Some e).
  { unfold stop. destruct (lo <=? count); [|discriminate].
    intros Hs. exists "", [], st.
    split; [constructor|]. split; [apply after_refl | exact Hs]. }
  destruct greedy; unfold or_else in H.
  - destruct more; [now apply Hmore | now apply Hstop].
  - destruct stop; [now apply Hstop | now apply Hmore].
Qed.

End RepLoopSpells.

Lemma take_app_length (w x : string) : take (String.length w) (w ++ x) = w.
Proof. induction w as [|c w IH]; cbn; [now destruct x | now rewrite IH]. Qed.

(** Whatever the matcher hands to its continuation lies after a word of
    the pattern. *)
Lemma run_spells (fl : flags) (r : regex) :
  forall k st e,
    run fl r k st = Some e ->
    exists w caps st', spells fl r w caps /\ after st w caps st'
                       /\ k st' = Some e.
Proof.
  induction r as [ |x|negated items| | | | |r1 IH1 r2 IH2|r1 IH1 r2 IH2
                  |greedy lo hi r1 IH1|n r1 IH1];
    intros k st e; cbn [run spells].
  - intros H. exists "", [], st. split; [easy|]. split; [apply after_refl | exact H].
  - intros H. apply one_char_after in H. destruct H as [c [st' [Hc [A H]]]].
    exists (String c ""), [], st'. split; [now exists c | now split].
  - intros H. apply one_char_after in H. destruct H as [c [st' [Hc [A H]]]].
    exists (String c ""), [], st'. split; [now exists c | now split].
  - intros H. apply one_char_after in H. destruct H as [c [st' [Hc [A H]]]].
    exists (String c ""), [], st'. split; [now exists c | now split].
  - destruct (m_pos st =? 0); [|discriminate]. intros H.
    exists "", [], st. split; [easy|]. split; [apply after_refl | exact H].
  - destruct (at_eol st); [|discriminate]. intros H.
    exists "", [], st. split; [easy|]. split; [apply after_refl | exact H].
  - destruct (xorb _ _); [|discriminate]. intros H.
    exists "", [], st. split; [easy|]. split; [apply after_refl | exact H].
  - intros H. apply IH1 in H. destruct H as [w1 [c1 [st1 [S1 [A1 H]]]]].
    apply IH2 in H. destruct H as [w2 [c2 [st2 [S2 [A2 H]]]]].
    exists (w1 ++ w2), (c2 ++ c1)%list, st2.
    split; [now exists w1, c1, w2, c2|]. split; [|exact H].
    now apply (after_trans st w1 c1 st1).
  - unfold or_else. destruct (run fl r1 k st) as [e1|] eqn:E1.
    + intros H. injection H as <-. apply IH1 in E1.
      destruct E1 as [w [c [st' [S [A H]]]]]. exists w, c, st'. now split; [left|].
    + intros H. apply IH2 in H.
      destruct H as [w [c [st' [S [A H]]]]]. exists w, c, st'. now split; [right|].
  - intros H. now apply (rep_loop_spells (spells fl r1) (run fl r1) IH1) in H.
  - intros H. apply IH1 in H. destruct H as [w [c1 [st1 [S1 [A1 H]]]]].
    exists w, ((n, w) :: c1), (close_group n st st1).
    split; [now exists c1|]. split; [|exact H].
    destruct A1 as [R1 [P1 C1]]. unfold after. cbn.
    split; [exact R1|]. split; [exact P1|].
    rewrite C1, R1, P1. f_equal. f_equal.
    replace (m_pos st + String.length w - m_pos st) with (String.length w) by lia.
    apply take_app_length.
Qed.

Lemma match_here_spells (fl : flags) (r : regex) (must : bool)
      (prev : option ascii) (s : string) (pos : nat) (m : mobj) :
  match_here fl r must prev s pos = Some m ->
  spells fl r (mo_text m) (mo_caps m)
  /\ mo_end m - pos = String.length (mo_text m).
Proof.
  unfold match_here. destruct (run fl r _ _) as [e|] eqn:E; [|discriminate].
  intros H. injection H as <-. cbn [mo_text mo_caps mo_end].
  apply run_spells in E. destruct E as [w [caps [st' [S [[R [P C]] Ha]]]]].
  unfold accept in Ha. destruct (must && _); [discriminate|].
  injection Ha as <-. cbn [start_state m_rest m_pos m_caps] in R, P, C.
  rewrite P, C, R, app_nil_r.
  replace (pos + String.length w - pos) with (String.length w) by lia.
  now rewrite take_app_length.
Qed.

(** ** [re.sub] *)

Lemma match_here_text (fl : flags) (r : regex) (must : bool)
      (prev : option ascii) (s : string) (pos : nat) (m : mobj) :
  match_here fl r must prev s pos = Some m ->
  mo_text m = take (mo_end m - pos) s.
Proof.
  unfold match_here. destruct (run fl r _ _) as [e|]; [|discriminate].
  intros H. now injection H as <-.
Qed.

Lemma sub_go_ink (fl : flags) (r : regex) (repl : mobj -> string) :
  (forall m, ink (repl m) <= ink (mo_text m)) ->
  forall fuel must prev s pos,
    ink (sub_go fl r repl fuel must prev s pos) <= ink s.
Proof.
  intros Hrepl. induction fuel as [|fuel IH]; intros must prev s pos;
    [cbn; lia|].
  cbn [sub_go]. destruct (match_here fl r must prev s pos) as [m|] eqn:Em.
  - pose proof (match_here_text fl r must prev s pos m Em) as Ht.
    pose proof (Hrepl m) as Hm. rewrite Ht in Hm.
    pose proof (ink_take_drop (mo_end m - pos) s) as Hs.
    destruct (mo_end m - pos =? 0) eqn:E0; rewrite ink_app.
    + apply Nat.eqb_eq in E0. rewrite E0 in Hm.
      assert (Hz : ink (take 0 s) = 0) by now destruct s.
      specialize (IH true prev s pos). lia.
    + specialize (IH false (last_char prev (mo_text m))
                     (drop (mo_end m - pos) s) (mo_end m)). lia.
  - destruct s as [|c s]; [cbn; lia|]. cbn [ink].
    specialize (IH false (Some c) s (S pos)). lia.
Qed.

Lemma sub_ink (fl : flags) (r : regex) (repl : mobj -> string) (s : string) :
  (forall m, ink (repl m) <= ink (mo_text m)) ->
  ink (sub fl r repl s) <= ink s.
Proof. intros H. unfold sub. now apply sub_go_ink. Qed.

Lemma sub_go_shrinks (fl : flags) (r : regex) (repl : mobj -> string) :
  (forall m, spells fl r (mo_text m) (mo_caps m) ->
             ink (repl m) < ink (mo_text m)) ->
  forall fuel must prev s pos,
    ink (sub_go fl r repl fuel must prev s pos) <= ink s
    /\ (ink (sub_go fl r repl fuel must prev s pos) = ink s ->
        sub_go fl r repl fuel must prev s pos = s).
Proof.
  intros Hrepl. induction fuel as [|fuel IH]; intros must prev s pos;
    [cbn; split; [lia | reflexivity]|].
  cbn [sub_go]. destruct (match_here fl r must prev s pos) as [m|] eqn:Em.
  - pose proof (match_here_text fl r must prev s pos m Em) as Ht.
    destruct (match_here_spells fl r must prev s pos m Em) as [Hsp Hlen].
    pose proof (Hrepl m Hsp) as Hm.
    pose proof (ink_take_drop (mo_end m - pos) s) as Hs. rewrite <- Ht in Hs.
    destruct (mo_end m - pos =? 0) eqn:E0.
    + apply Nat.eqb_eq in E0. rewrite E0 in Hlen.
      destruct (mo_text m); [cbn in Hm; lia | discriminate Hlen].
    + rewrite ink_app.
      destruct (IH false (last_char prev (mo_text m))
                   (drop (mo_end m - pos) s) (mo_end m)) as [IH1 _].
      split; lia.
  - destruct s as [|c s]; [split; [cbn; lia | reflexivity]|]. cbn [ink].
    destruct (IH false (Some c) s (S pos)) as [IH1 IH2].
    split; [lia|]. intros H. f_equal. apply IH2. lia.
Qed.

Lemma sub_shrinks (fl : flags) (r : regex) (repl : mobj -> string) :
  (forall m, spells fl r (mo_text m) (mo_caps m) ->
             ink (repl m) < ink (mo_text m)) ->
  shrinks (sub fl r repl).
Proof. intros H s. unfold sub. now apply sub_go_shrinks. Qed.

(** ** The slash repairs take ink away *)

Lemma iter_no_caps (P : string -> list (nat * string) -> Prop) (w : string)
      (caps : list (nat * string)) :
  (forall w' c, P w' c -> c = []) -> iter P w caps -> caps = [].
Proof.
  intros HP H. induction H as [|w1 c1 w2 c2 H1 _ IH]; [reflexivity|].
  now rewrite IH, (HP w1 c1 H1).
Qed.

Lemma spells_cls_iter (fl : flags) (negated : bool) (items : list citem)
      (w : string) (caps : list (nat * string)) :
  iter (spells fl (Cls negated items)) w caps -> caps = [].
Proof.
  apply iter_no_caps. intros w' c [x [_ [_ Hc]]]. exact Hc.
Qed.

Lemma lit_plain (x c : ascii) : lit_match plain x c = true -> c = x.
Proof. cbn. intros H. apply Ascii.eqb_eq in H. now subst. Qed.

Lemma digit_backslash_shrinks (m : mobj) :
  spells plain re_digit_backslash (mo_text m) (mo_caps m) ->
  ink (group_or_empty m 1 ++ "/") < ink (mo_text m).
Proof.
  unfold re_digit_backslash, digit, space, star. cbn [seqs spells].
  intros (w1 & c1 & w2 & c2 & (c1' & (d & Hw1 & _ & Hc1') & Hc1)
          & (w3 & c3 & w4 & c4 & (b & Hw3 & Hb & Hc3)
             & (w5 & c5 & w6 & c6 & Hit & (sl & Hw6 & Hsl & Hc6) & Hw4 & Hc4)
             & Hw2 & Hc2)
          & Hw & Hc).
  apply spells_cls_iter in Hit. apply lit_plain in Hb, Hsl.
  subst. unfold group_or_empty, group. rewrite Hc, Hw. cbn [app assoc Nat.eqb].
  rewrite !ink_app. change (ink "/") with 1. change (ink "\") with 1. lia.
Qed.

Lemma apostrophe_shrinks (m : mobj) :
  spells plain re_apostrophe (mo_text m) (mo_caps m) ->
  ink (group_or_empty m 1 ++ " /") < ink (mo_text m).
Proof.
  unfold re_apostrophe, digit, space, star, rep. cbn [seqs spells].
  intros (w1 & c1 & w2 & c2 & (c1' & Hit1 & Hc1)
          & (w3 & c3 & w4 & c4 & Hit3
             & (w5 & c5 & w6 & c6 & (a & Hw5 & Ha & Hc5)
                & (w7 & c7 & w8 & c8 & Hit7 & (sl & Hw8 & Hsl & Hc8)
                   & Hw6 & Hc6)
                & Hw4 & Hc4)
             & Hw2 & Hc2)
          & Hw & Hc).
  apply spells_cls_iter in Hit1, Hit3, Hit7. apply lit_plain in Ha, Hsl.
  subst. unfold group_or_empty, group. rewrite Hc, Hw. cbn [app assoc Nat.eqb].
  rewrite !ink_app. change (ink "/") with 1. change (ink "'") with 1.
  change (ink " /") with 1. lia.
Qed.

Lemma replacements_shrink (l : list (string * string)) :
  Forall (fun p => ink (snd p) < ink (fst p)) l ->
  shrinks (fun t => fold_left (fun t '(old, new) => replace old new t) l t).
Proof.
  induction l as [|[old new] l IH]; intros H.
  - intros s. cbn. split; [lia | reflexivity].
  - apply Forall_cons_iff in H. destruct H as [Hp Hl].
    exact (shrinks_compose (replace old new) _
                           (replace_shrinks old new Hp) (IH Hl)).
Qed.

Lemma slash_repairs_shrinks : shrinks slash_repairs.
Proof.
  intros s. unfold slash_repairs. cbv zeta.
  set (a := fold_left _ replacements s).
  set (b := sub plain re_digit_backslash _ a).
  assert (Hl : Forall (fun p => ink (snd p) < ink (fst p)) replacements)
    by (unfold replacements; repeat constructor).
  destruct (replacements_shrink replacements Hl s) as [A1 A2].
  fold a in A1, A2.
  destruct (sub_shrinks plain re_digit_backslash _ digit_backslash_shrinks a)
    as [B1 B2].
  fold b in B1, B2.
  destruct (sub_shrinks plain re_apostrophe _ apostrophe_shrinks b) as [C1 C2].
  split; [lia|]. intros E.
  rewrite C2 by lia. rewrite B2 by lia. apply A2. lia.
Qed.

(** ** The other steps add none *)

Lemma strip_by_ink (p : ascii -> bool) (s : string) :
  ink (strip_by p s) <= ink s.
Proof.
  unfold strip_by.
  destruct (lstrip_by_suffix p s) as [pre Hs].
  destruct (rstrip_by_prefix p (lstrip_by p s)) as [post Hr].
  rewrite Hs at 2. rewrite Hr at 2. rewrite !ink_app. lia.
Qed.

Lemma clean_text_ink (t : string) :
  ink (_clean_text t) <= ink (slash_repairs t).
Proof.
  unfold _clean_text, slash_repairs.
  destruct (truthy_str t); cbn [negb]; [|cbn [ink]; apply Nat.le_0_l].
  match goal with
  | |- context [sub ignorecase re_nomor_shape fix_nomor ?x] => generalize x
  end.
  intros x. unfold strip.
  eapply Nat.le_trans; [apply strip_by_ink|].
  eapply Nat.le_trans; [apply sub_ink; intros m; apply Nat.le_0_l|].
  eapply Nat.le_trans; [apply sub_ink; intros m; apply Nat.le_0_l|].
  apply sub_ink. intros m. unfold fix_nomor.
  eapply Nat.le_trans; [apply replace_ink; apply Nat.le_refl|].
  apply replace_ink. apply Nat.le_refl.
Qed.

(** C5, amended.  A second pass of the normalizer changes its own result
    exactly when one of the slash repairs still finds something in it:
    [_clean_text (_clean_text t) = _clean_text t] holds if and only if
    the eight literal substitutions and the two slash patterns leave
    [_clean_text t] as it is.  One way: the result of a pass is left alone
    by the number repair (which turns O into 0 and l into 1 inside the
    tokens it matches, and neither moves a token nor changes what
    matches), by the squeezing of blank runs and blank lines and by the
    strip.  The other way: every slash repair that applies removes a
    character that is not whitespace, and no later step adds one. *)
Theorem clean_text_idempotent_iff_repaired (t : string) :
  _clean_text (_clean_text t) = _clean_text t
  <-> slash_repairs (_clean_text t) = _clean_text t.
Proof.
  split; [|apply clean_text_fixed_after_repairs].
  intros H.
  pose proof (clean_text_ink (_clean_text t)) as H1.
  destruct (slash_repairs_shrinks (_clean_text t)) as [H2 H3].
  apply H3. rewrite H in H1. lia.
Qed.

Lemma clean_text_idempotent_iff_repaired_witness :
  _clean_text (_clean_text scenario_text) = _clean_text scenario_text.
Proof.
  apply (proj2 (clean_text_idempotent_iff_repaired scenario_text)).
  vm_compute. reflexivity.
Defined.

(** * Further properties *)

(** ** Range of the quality score *)

Lemma check_field_score (q : quality) (row : bool * Z * string) :
  score (check_field q row)
  = (score q + if fst (fst row) then snd (fst row) else 0)%Z.
Proof. destruct row as [[[|] w] msg]; cbn; lia. Qed.

Lemma field_quality_score (p : parsed) (ocr_used : bool) :
  (0 <= score (field_quality p ocr_used) <= 95)%Z
  /\ (has_perihal p = false -> score (field_quality p ocr_used) <= 70)%Z
  /\ (is_keluar (jenis p) = false -> score (field_quality p ocr_used) <= 85)%Z.
Proof.
  unfold field_quality, quality_checks. cbn [fold_left].
  destruct (is_keluar (jenis p)), (has_perihal p);
    unfold add_score, add_warning; cbn [score];
    rewrite ?check_field_score; cbn [fst snd score];
    repeat match goal with
           | |- context [if ?b then _ else _] => destruct b
           end; repeat split; intros; try discriminate; lia.
Qed.

Lemma penalties_score (show_rate : Q -> string) (n : nat) (ocr_used : bool)
      (stats : option (option Q)) (q : quality) :
  (0 <= score q)%Z ->
  (0 <= score (ocr_quality show_rate ocr_used stats (text_quality n ocr_used q))
   <= score q)%Z.
Proof.
  intros H. unfold ocr_quality, text_quality, penalize.
  destruct stats as [[r|]|]; destruct ocr_used; cbn [andb];
    repeat match goal with
           | |- context [if ?b then _ else _] => destruct b
           end; cbn [score]; lia.
Qed.

(** X1.  The metadata quality score of an upload always lies between 0 and
    95, whatever was parsed and whatever the text length and OCR statistics
    are; when the parsed type is not "keluar" it is at most 85. *)
Theorem quality_score_range (show_rate : Q -> string) (p : parsed) (n : nat)
        (ocr_used : bool) (stats : option (option Q)) :
  let q := metadata_quality show_rate p n ocr_used stats in
  (0 <= score q <= 95)%Z
  /\ (is_keluar (jenis p) = false -> score q <= 85)%Z.
Proof.
  cbv zeta. unfold metadata_quality.
  destruct (field_quality_score p ocr_used) as [H1 [_ H3]].
  pose proof (penalties_score show_rate n ocr_used stats
                              (field_quality p ocr_used) (proj1 H1)) as H.
  split; [lia|]. intros Hk. specialize (H3 Hk). lia.
Qed.

(** ** Outgoing letters and the subject check *)

Lemma check_field_warnings (q : quality) (row : bool * Z * string) (w : string) :
  In w (warnings q) -> In w (warnings (check_field q row)).
Proof.
  destruct row as [[[|] weight] msg]; cbn; [easy|].
  intros H. apply in_or_app. now left.
Qed.

Lemma penalties_keep_warnings (show_rate : Q -> string) (n : nat)
      (ocr_used : bool) (stats : option (option Q)) (q : quality) (w : string) :
  In w (warnings q) ->
  In w (warnings (ocr_quality show_rate ocr_used stats
                              (text_quality n ocr_used q))).
Proof.
  intros H. unfold ocr_quality, text_quality, penalize.
  destruct stats as [[r|]|]; destruct ocr_used; cbn [andb];
    repeat match goal with
           | |- context [if ?b then _ else _] => destruct b
           end; cbn [warnings]; rewrite ?in_app_iff; tauto.
Qed.

Lemma parse_metadata_keluar_perihal
      (ml : option (string -> option (string * Q)))
      (locale_month : Z -> string) (text : string) (filename : option string) :
  is_keluar (jenis (parse_metadata ml locale_month text filename)) = true ->
  perihal (parse_metadata ml locale_month text filename) = None.
Proof.
  unfold parse_metadata, parse_metadata_with.
  destruct (detect_jenis _ _ _ _) as [[j c] m]. cbn [jenis perihal].
  now intros ->.
Qed.

(** X2.  Whenever parse_metadata classifies a text as "keluar", the quality
    assessment of the upload carries the warning that the subject is missing
    and the score is at most 70: the subject is never extracted for an
    outgoing letter, so the 25 points reserved for it are never given. *)
Theorem keluar_always_warned
        (ml : option (string -> option (string * Q)))
        (locale_month : Z -> string) (show_rate : Q -> string)
        (text : string) (filename : option string)
        (n : nat) (ocr_used : bool) (stats : option (option Q)) :
  let p := parse_metadata ml locale_month text filename in
  let q := metadata_quality show_rate p n ocr_used stats in
  jenis p = Some "keluar" ->
  In perihal_warning (warnings q) /\ (score q <= 70)%Z.
Proof.
  cbv zeta. intros Hj.
  set (p := parse_metadata ml locale_month text filename) in *.
  assert (Hk : is_keluar (jenis p) = true) by now rewrite Hj.
  assert (Hp : has_perihal p = false).
  { unfold has_perihal, get_perihal, p.
    now rewrite (parse_metadata_keluar_perihal ml locale_month text filename Hk). }
  unfold metadata_quality. split.
  - apply penalties_keep_warnings.
    unfold field_quality. rewrite Hk, Hp. cbn. apply in_or_app. right. now left.
  - destruct (field_quality_score p ocr_used) as [H1 [H2 _]].
    pose proof (penalties_score show_rate n ocr_used stats
                                (field_quality p ocr_used) (proj1 H1)) as H.
    specialize (H2 Hp). lia.
Qed.

Lemma keluar_always_warned_witness :
  In perihal_warning
     (warnings (metadata_quality (fun _ => "") 
                  (parse_metadata None c_locale_month scenario_text None)
                  (String.length scenario_text) false None)).
Proof.
  apply (keluar_always_warned None c_locale_month (fun _ => "") scenario_text
                              None (String.length scenario_text) false None).
  vm_compute. reflexivity.
Defined.

(** ** The cascade of [detect_jenis] *)

Lemma nomor_pattern_cases (nomor : option string) (r : classification) :
  nomor_pattern nomor = Some r ->
  exists j c m, r = (Some j, c, m) /\ In j allowed_jenis /\ In m rule_methods
                /\ c == 0.90.
Proof.
  unfold nomor_pattern. destruct nomor as [n|]; [|discriminate].
  repeat match goal with
         | |- context [if ?b then _ else _] => destruct b
         end; intros H; try discriminate; injection H as <-;
    do 3 eexists; (split; [reflexivity|]);
    (split; [cbn; tauto|]); (split; [cbn; tauto | reflexivity]).
Qed.

Lemma filename_hint_cases (filename : option string) (r : classification) :
  filename_hint filename = Some r ->
  exists j c m, r = (Some j, c, m) /\ In j allowed_jenis /\ In m rule_methods
                /\ c == 0.70.
Proof.
  unfold filename_hint. destruct filename as [n|]; [|discriminate].
  repeat match goal with
         | |- context [if ?b then _ else _] => destruct b
         end; intros H; try discriminate; injection H as <-;
    do 3 eexists; (split; [reflexivity|]);
    (split; [cbn; tauto|]); (split; [cbn; tauto | reflexivity]).
Qed.

Lemma ml_fallback_cases (ml : option (string -> option (string * Q)))
      (text : string) (r : classification) :
  ml_fallback ml text = Some r ->
  exists f j c, ml = Some f /\ f text = Some (j, c)
                /\ r = (Some j, c, "ml-classifier")
                /\ (0.80 < c)%Q /\ 50 < String.length (strip text).
Proof.
  unfold ml_fallback. destruct ml as [f|]; [|discriminate].
  destruct (50 <? String.length (strip text)) eqn:El; [|discriminate].
  destruct (f text) as [[j c]|] eqn:Ef; [|discriminate].
  destruct (Qle_bool c 0.80) eqn:Ec; [discriminate|].
  intros H. injection H as <-. exists f, j, c.
  split; [reflexivity|]. split; [exact Ef|]. split; [reflexivity|]. split.
  - apply Qnot_le_lt. intros Hle. apply Qle_bool_iff in Hle. congruence.
  - now apply Nat.ltb_lt.
Qed.

Ltac rule_case j c m :=
  left; exists j, c, m;
  repeat split; try reflexivity; cbn; try tauto; try discriminate.

(** What [detect_jenis] can return: a rule's answer, the classifier's, or
    the default. *)
Lemma detect_jenis_cases (ml : option (string -> option (string * Q)))
      (text : string) (nomor filename : option string) :
  (exists j c m, detect_jenis ml text nomor filename = (Some j, c, m)
                 /\ In j allowed_jenis /\ In m rule_methods
                 /\ (0.70 <= c)%Q /\ (c <= 0.95)%Q
                 /\ detect_jenis None text nomor filename = (Some j, c, m))
  \/ (exists f j c, ml = Some f /\ f text = Some (j, c) /\ (0.80 < c)%Q
                    /\ 50 < String.length (strip text)
                    /\ detect_jenis ml text nomor filename
                       = (Some j, c, "ml-classifier")
                    /\ detect_jenis None text nomor filename
                       = (Some "lainnya", 0.60%Q, "default-fallback"))
  \/ (detect_jenis ml text nomor filename
      = (Some "lainnya", 0.60%Q, "default-fallback")
      /\ detect_jenis None text nomor filename
         = (Some "lainnya", 0.60%Q, "default-fallback")).
Proof.
  unfold detect_jenis. cbv zeta.
  set (T := _clean_text text).
  set (header := upper (join " " (firstn 30 (splitlines T)))).
  set (top := upper (join " " (firstn 10 (firstn 30 (splitlines T))))).
  destruct (has_lainnya_keyword T); [rule_case "lainnya" 0.90%Q "non-letter-keywords"|].
  destruct (has_nomor_label T); cbn [negb];
    [|rule_case "lainnya" 0.85%Q "no-nomor-label"].
  destruct (found ignorecase_dotall re_recipient (take 1000 T)).
  - rewrite andb_false_r. rule_case "masuk" 0.95%Q "recipient-pela-mampang".
  - rewrite andb_true_r.
    destruct (existsb (fun p => contains p top) kop_patterns
              || contains "PELA MAMPANG" top && contains "MAMPANG PRAPATAN" top);
      [rule_case "keluar" 0.95%Q "kop-pela-mampang"|].
    rewrite andb_true_r.
    destruct (nomor_pattern nomor) as [r|] eqn:En.
    { destruct (nomor_pattern_cases nomor r En) as [j [c [m [-> [Hj [Hm Hc]]]]]].
      left. exists j, c, m. repeat split; try assumption;
        rewrite Hc; discriminate. }
    destruct (contains "PEMERINTAH" header).
    { destruct (contains "KEPADA" header
                && (contains "YTH" header || contains "YANG TERHORMAT" header));
        [rule_case "keluar" 0.80%Q "kepada-yth-pattern"
        |rule_case "masuk" 0.85%Q "pemerintah-header"]. }
    destruct (contains "KEMENTERIAN" header || contains "DEWAN" header
              || contains "PT." header);
      [rule_case "masuk" 0.85%Q "external-institution"|].
    destruct (filename_hint filename) as [r|] eqn:Ef.
    { destruct (filename_hint_cases filename r Ef) as [j [c [m [-> [Hj [Hm Hc]]]]]].
      left. exists j, c, m. repeat split; try assumption;
        rewrite Hc; discriminate. }
    destruct (ml_fallback ml text) as [r|] eqn:Em.
    + destruct (ml_fallback_cases ml text r Em)
        as [f [j [c [Hml [Hf [-> [Hc Hl]]]]]]].
      right. left. exists f, j, c. repeat split; assumption || reflexivity.
    + right. right. split; reflexivity.
Qed.

(** X3.  When the classifier, if consulted, answers with one of the three
    types, detect_jenis always returns a type among "masuk", "keluar",
    "lainnya" (never None), with a confidence of at least 0.60. *)
Theorem detect_jenis_allowed (ml : option (string -> option (string * Q)))
        (text : string) (nomor filename : option string) :
  well_labelled ml ->
  exists j c m,
    detect_jenis ml text nomor filename = (Some j, c, m)
    /\ In j allowed_jenis /\ (0.60 <= c)%Q.
Proof.
  intros Hml.
  destruct (detect_jenis_cases ml text nomor filename)
    as [[j [c [m [H [Hj [_ [Hlo _]]]]]]]
       | [[f [j [c [Hf [Hr [Hc [_ [H _]]]]]]]] | [H _]]].
  - exists j, c, m. repeat split; try assumption.
    apply Qle_trans with (y := 0.70%Q); [discriminate | assumption].
  - exists j, c, "ml-classifier". repeat split; try assumption.
    + exact (Hml f text j c Hf Hr).
    + apply Qlt_le_weak, Qle_lt_trans with (y := 0.80%Q); [discriminate | assumption].
  - exists "lainnya", 0.60%Q, "default-fallback".
    repeat split; try assumption; cbn; try tauto. discriminate.
Qed.

Lemma detect_jenis_allowed_witness :
  exists j c m,
    detect_jenis (Some (fun _ => Some ("keluar", 0.99%Q))) scenario_text
                 (Some "12/AB.01.02") None = (Some j, c, m)
    /\ In j allowed_jenis /\ (0.60 <= c)%Q.
Proof.
  apply (detect_jenis_allowed (Some (fun _ => Some ("keluar", 0.99%Q)))
                              scenario_text (Some "12/AB.01.02") None).
  intros f text j c Hf E. injection Hf as <-. injection E as <- _.
  right. left. reflexivity.
Defined.

(** X4.  The classifier can change the result of detect_jenis only where the
    rules alone end in "default-fallback" and the stripped text is longer
    than 50 characters; in every other case the result is the same with and
    without a classifier. *)
Theorem ml_only_decides_default (ml : option (string -> option (string * Q)))
        (text : string) (nomor filename : option string) :
  snd (detect_jenis None text nomor filename) <> "default-fallback"
  \/ String.length (strip text) <= 50 ->
  detect_jenis ml text nomor filename = detect_jenis None text nomor filename.
Proof.
  intros Hrule.
  destruct (detect_jenis_cases ml text nomor filename)
    as [[j [c [m [H [_ [_ [_ [_ H0]]]]]]]]
       | [[f [j [c [_ [_ [_ [Hl [_ H0]]]]]]]] | [H H0]]].
  - now rewrite H, H0.
  - rewrite H0 in Hrule. cbn [snd] in Hrule. destruct Hrule as [Hm | Hs].
    + now elim Hm.
    + lia.
  - now rewrite H, H0.
Qed.

Lemma ml_only_decides_default_witness :
  detect_jenis (Some (fun _ => Some ("masuk", 0.99%Q))) scenario_text
               (Some "12/AB.01.02") None
  = detect_jenis None scenario_text (Some "12/AB.01.02") None.
Proof.
  apply (ml_only_decides_default (Some (fun _ => Some ("masuk", 0.99%Q)))
                                 scenario_text (Some "12/AB.01.02") None).
  left. vm_compute. discriminate.
Defined.

(** X5.  detect_jenis never returns the method "pemerintah-to-pela-mampang":
    the branch that would produce it is shadowed by the earlier recipient
    rule and cannot be reached. *)
Theorem pemerintah_to_pela_mampang_unreachable
        (ml : option (string -> option (string * Q)))
        (text : string) (nomor filename : option string) :
  snd (detect_jenis ml text nomor filename) <> "pemerintah-to-pela-mampang".
Proof.
  destruct (detect_jenis_cases ml text nomor filename)
    as [[j [c [m [H [_ [Hm _]]]]]]
       | [[f [j [c [_ [_ [_ [_ [H _]]]]]]]] | [H _]]];
    rewrite H; cbn [snd]; try discriminate.
  cbn in Hm. intros ->.
  repeat (destruct Hm as [Hm | Hm]; [discriminate Hm|]). exact Hm.
Qed.

(** X6.  When the classifier answers with one of the three types, the type,
    confidence and method that upload_document stores are exactly those
    parse_metadata detected: neither the "lainnya" default nor the "invalid-
    fallback" replacement is ever used on a parsed text. *)
Theorem upload_keeps_detected_jenis
        (ml : option (string -> option (string * Q)))
        (locale_month : Z -> string) (text : string) (filename : option string) :
  well_labelled ml ->
  let p := parse_metadata ml locale_month text filename in
  exists j, jenis p = Some j
            /\ jenis_final p = (j, jenis_confidence p, jenis_method p).
Proof.
  intros Hml. cbv zeta.
  assert (H : exists j, jenis (parse_metadata ml locale_month text filename)
                        = Some j /\ In j allowed_jenis).
  { unfold parse_metadata, parse_metadata_with.
    destruct (detect_jenis_cases ml text (extract_nomor_surat text filename)
                                 filename)
      as [[j [c [m [H [Hj _]]]]]
         | [[f [j [c [Hf [Hr [_ [_ [H _]]]]]]]] | [H _]]];
      rewrite H; cbn [jenis]; eexists; (split; [reflexivity|]).
    - exact Hj.
    - exact (Hml f text j c Hf Hr).
    - cbn. tauto. }
  destruct H as [j [Hj Hin]]. exists j. split; [exact Hj|].
  unfold jenis_final, jenis_fallback. rewrite Hj.
  apply mem_str_In in Hin. now rewrite Hin.
Qed.

Lemma upload_keeps_detected_jenis_witness :
  exists j,
    jenis (parse_metadata (Some (fun _ => Some ("keluar", 0.99%Q)))
                          c_locale_month scenario_text None) = Some j
    /\ jenis_final (parse_metadata (Some (fun _ => Some ("keluar", 0.99%Q)))
                                   c_locale_month scenario_text None)
       = (j,
          jenis_confidence
            (parse_metadata (Some (fun _ => Some ("keluar", 0.99%Q)))
                            c_locale_month scenario_text None),
          jenis_method
            (parse_metadata (Some (fun _ => Some ("keluar", 0.99%Q)))
                            c_locale_month scenario_text None)).
Proof.
  apply (upload_keeps_detected_jenis (Some (fun _ => Some ("keluar", 0.99%Q)))
                                     c_locale_month scenario_text None).
  intros f text j c Hf E. injection Hf as <-. injection E as <- _.
  right. left. reflexivity.
Defined.

(** ** What [ocr_pdf_to_text] reports *)

Lemma lstrip_by_empty (p : ascii -> bool) (s : string) :
  lstrip_by p s = "" <-> sforall p s = true.
Proof.
  induction s as [|c s IH]; cbn [lstrip_by sforall]; [easy|].
  destruct (p c); cbn [andb]; [exact IH | easy].
Qed.

Lemma strip_by_empty (p : ascii -> bool) (s : string) :
  strip_by p s = "" <-> sforall p s = true.
Proof.
  unfold strip_by. split.
  - intros H. apply lstrip_by_empty.
    destruct (lstrip_by p s) as [|c r] eqn:E; [reflexivity|].
    assert (Hc : p c = false).
    { pose proof (lstrip_by_head p s) as Hh. rewrite E in Hh. exact Hh. }
    destruct (rstrip_by_keeps_head p c r Hc) as [r' Hr]. rewrite Hr in H.
    discriminate H.
  - intros H. apply lstrip_by_empty in H. now rewrite H.
Qed.

Lemma strip_by_length (p : ascii -> bool) (s : string) :
  String.length (strip_by p s) <= String.length s.
Proof.
  unfold strip_by.
  destruct (lstrip_by_suffix p s) as [pre Hs].
  destruct (rstrip_by_prefix p (lstrip_by p s)) as [post Hr].
  rewrite Hs at 2. rewrite Hr at 2. rewrite !length_app. lia.
Qed.

Lemma page_success_spec (txt : string) :
  page_success txt = negb (sforall is_space txt).
Proof.
  unfold page_success, strip.
  destruct (sforall is_space txt) eqn:E.
  - apply strip_by_empty in E. rewrite E. apply andb_false_r.
  - destruct txt as [|c t]; [discriminate E|]. cbn [truthy_str andb negb].
    destruct (strip_by is_space (String c t)) eqn:Es; [|reflexivity].
    apply strip_by_empty in Es. congruence.
Qed.

Lemma recognize_ok (p : page) :
  snd (recognize p) = page_success (fst (recognize p)).
Proof.
  unfold recognize. destruct (ocr_lang p); [reflexivity|].
  destruct (ocr_default p); reflexivity.
Qed.

Lemma filter_snoc {A : Type} (f : A -> bool) (l : list A) (x : A) :
  filter f (l ++ [x])%list = (filter f l ++ (if f x then [x] else []))%list.
Proof. now rewrite filter_app. Qed.

(** The chunks that are kept are those of the pages counted as read. *)
Lemma process_page_kept (st : ocr_state) (p : page) :
  List.length (filter page_success (text_chunks st)) = success_pages st ->
  List.length (filter page_success (text_chunks (process_page st p)))
  = success_pages (process_page st p).
Proof.
  intros H. unfold process_page.
  destruct (get_pixmap p); [|exact H].
  destruct (prepare p).
  - pose proof (recognize_ok p) as Hr.
    destruct (recognize p) as [txt ok]. cbn [fst snd] in Hr. subst ok.
    cbn [text_chunks success_pages]. rewrite filter_snoc, List.length_app, H.
    destruct (page_success txt); cbn; lia.
  - cbn [text_chunks success_pages]. rewrite filter_snoc, List.length_app, H.
    cbn. lia.
Qed.

Lemma process_pages_kept (doc : list page) :
  List.length (filter page_success (text_chunks (process_pages doc)))
  = success_pages (process_pages doc).
Proof.
  unfold process_pages. rewrite for_pages_reached.
  generalize (reached doc). clear doc. intros doc.
  enough (H : forall st,
             List.length (filter page_success (text_chunks st))
             = success_pages st ->
             List.length (filter page_success
                            (text_chunks (fold_left process_page doc st)))
             = success_pages (fold_left process_page doc st))
    by (apply H; reflexivity).
  induction doc as [|p doc IH]; intros st Hst; cbn [fold_left]; [exact Hst|].
  apply IH. now apply process_page_kept.
Qed.

Lemma join_nonblank (sep : string) (l : list string) :
  l <> [] -> Forall (fun t => page_success t = true) l ->
  sforall is_space (join sep l) = false.
Proof.
  intros Hne Hall. destruct l as [|x l]; [now elim Hne|].
  apply Forall_inv in Hall. rewrite page_success_spec in Hall.
  apply negb_true_iff in Hall.
  destruct l as [|y l]; cbn [join]; [exact Hall|].
  now rewrite sforall_app, Hall.
Qed.

Lemma ocr_no_success_no_text (d : deps) (doc : list page + string) :
  stat_success_pages (snd (ocr_pdf_to_text d doc)) = 0 ->
  fst (ocr_pdf_to_text d doc) = "".
Proof.
  unfold ocr_pdf_to_text.
  destruct (pytesseract d); cbn [negb]; [|easy].
  destruct (fitz d); cbn [negb]; [|easy].
  destruct (Image d); cbn [negb]; [|easy].
  destruct doc as [pages|e]; [|easy].
  destruct (snd (for_pages initial pages)); [easy|].
  cbn [fst snd stat_success_pages]. rewrite <- process_pages_kept.
  intros H. apply length_zero_iff_nil in H. now rewrite H.
Qed.

(** X7.  The text returned by ocr_pdf_to_text is empty exactly when the
    statistics report zero successful pages or carry an error: the
    dependencies are missing, the document cannot be opened, a page cannot
    be loaded (whatever was counted before it), or no page was read. *)
Theorem ocr_text_empty_iff_no_success_or_error (d : deps) (doc : list page + string) :
  fst (ocr_pdf_to_text d doc) = ""
  <-> stat_success_pages (snd (ocr_pdf_to_text d doc)) = 0
      \/ error (snd (ocr_pdf_to_text d doc)) <> None.
Proof.
  split.
  - unfold ocr_pdf_to_text.
    destruct (pytesseract d); cbn [negb]; [|now left].
    destruct (fitz d); cbn [negb]; [|now left].
    destruct (Image d); cbn [negb]; [|now left].
    destruct doc as [pages|e]; [|now left].
    destruct (snd (for_pages initial pages)); [intros _; now right|].
    cbn [fst snd stat_success_pages]. rewrite <- process_pages_kept.
    set (kept := filter page_success (text_chunks (process_pages pages))).
    unfold strip. rewrite strip_by_empty.
    intros H. left. destruct kept as [|x l] eqn:E; [reflexivity|].
    rewrite join_nonblank in H; [discriminate H | discriminate |].
    rewrite <- E. apply Forall_forall. intros t Ht.
    now apply filter_In in Ht.
  - intros [H | H]; [now apply ocr_no_success_no_text|].
    revert H. unfold ocr_pdf_to_text.
    destruct (pytesseract d); cbn [negb]; [|reflexivity].
    destruct (fitz d); cbn [negb]; [|reflexivity].
    destruct (Image d); cbn [negb]; [|reflexivity].
    destruct doc as [pages|e]; [|reflexivity].
    destruct (snd (for_pages initial pages)); [reflexivity|].
    cbn [snd error]. intros H. now elim H.
Qed.

Lemma ocr_stats_counts (d : deps) (pages : list page) :
  pytesseract d = true -> fitz d = true -> Image d = true ->
  total_pages (snd (ocr_pdf_to_text d (inl pages))) = List.length pages
  /\ stat_success_pages (snd (ocr_pdf_to_text d (inl pages)))
     = success_pages (process_pages pages)
  /\ stat_failed_pages (snd (ocr_pdf_to_text d (inl pages)))
     = failed_pages (process_pages pages).
Proof.
  intros H1 H2 H3. unfold ocr_pdf_to_text. rewrite H1, H2, H3. cbn [negb].
  destruct (snd (for_pages initial pages)); repeat split.
Qed.

(** X8.  With the OCR dependencies present and the document opened,
    total_pages is the number of pages, success_pages + failed_pages never
    exceeds it, and the two add up to it exactly when every page can be
    loaded and none fails in the image preparation (a page that cannot be
    loaded ends the loop; one that fails in the preparation is counted
    neither as a success nor as a failure). *)
Theorem ocr_page_counts (d : deps) (pages : list page) :
  pytesseract d = true -> fitz d = true -> Image d = true ->
  let stats := snd (ocr_pdf_to_text d (inl pages)) in
  total_pages stats = List.length pages
  /\ stat_success_pages stats + stat_failed_pages stats <= total_pages stats
  /\ (stat_success_pages stats + stat_failed_pages stats = total_pages stats
      <-> forall p, In p pages -> loads p = true /\ escapes p = false).
Proof.
  intros H1 H2 H3. cbv zeta.
  pose proof (process_pages_accounts pages) as H.
  pose proof (reached_length pages) as [Hle Hall].
  pose proof (ocr_stats_counts d pages H1 H2 H3) as Hs.
  destruct Hs as [-> [-> ->]].
  split; [reflexivity|]. split; [lia|]. split.
  - intros E.
    assert (Hl : forallb loads pages = true) by (apply Hall; lia).
    rewrite (reached_all pages Hl) in H.
    intros p Hp. split; [now apply (proj1 (forallb_forall loads pages) Hl)|].
    destruct (escapes p) eqn:Ep; [|reflexivity].
    assert (Hin : In p (filter escapes pages)) by now apply filter_In.
    destruct (filter escapes pages); [destruct Hin | cbn in H; lia].
  - intros Hp.
    assert (Hl : forallb loads pages = true)
      by (apply forallb_forall; intros p Hin; now apply Hp).
    rewrite (reached_all pages Hl) in H.
    assert (Hf : filter escapes pages = []).
    { clear H Hle Hall Hl. induction pages as [|p pages IH]; [reflexivity|].
      cbn [filter]. rewrite (proj2 (Hp p (or_introl eq_refl))).
      apply IH. intros q Hq. apply Hp. now right. }
    rewrite Hf in H. cbn in H. lia.
Qed.

Lemma ocr_page_counts_witness :
  stat_success_pages (snd (ocr_pdf_to_text all_deps (inl [readable_page; damaged_page; readable_page])))
  + stat_failed_pages (snd (ocr_pdf_to_text all_deps (inl [readable_page; damaged_page; readable_page])))
  <= total_pages (snd (ocr_pdf_to_text all_deps (inl [readable_page; damaged_page; readable_page]))).
Proof.
  apply (ocr_page_counts all_deps [readable_page; damaged_page; readable_page]);
    reflexivity.
Defined.

Lemma ocr_text_stripped (d : deps) (doc : list page + string) :
  strip (fst (ocr_pdf_to_text d doc)) = fst (ocr_pdf_to_text d doc).
Proof.
  unfold ocr_pdf_to_text.
  destruct (pytesseract d); cbn [negb]; [|reflexivity].
  destruct (fitz d); cbn [negb]; [|reflexivity].
  destruct (Image d); cbn [negb]; [|reflexivity].
  destruct doc as [pages|e]; [|reflexivity].
  destruct (snd (for_pages initial pages)); [reflexivity|].
  cbn [fst]. apply strip_by_idem.
Qed.

(** X9.  The text returned by ocr_pdf_to_text has no leading or trailing
    whitespace, and total_chars, which is counted before the final strip, is
    never smaller than the length of the returned text. *)
Theorem ocr_total_chars_before_strip (d : deps) (doc : list page + string) :
  strip (fst (ocr_pdf_to_text d doc)) = fst (ocr_pdf_to_text d doc)
  /\ String.length (fst (ocr_pdf_to_text d doc))
     <= total_chars (snd (ocr_pdf_to_text d doc)).
Proof.
  unfold ocr_pdf_to_text.
  destruct (pytesseract d); cbn [negb]; [|split; [reflexivity | cbn; lia]].
  destruct (fitz d); cbn [negb]; [|split; [reflexivity | cbn; lia]].
  destruct (Image d); cbn [negb]; [|split; [reflexivity | cbn; lia]].
  destruct doc as [pages|e]; [|split; [reflexivity | cbn; lia]].
  destruct (snd (for_pages initial pages)); [split; [reflexivity | cbn; lia]|].
  cbn [fst snd total_chars]. split.
  - apply strip_by_idem.
  - apply strip_by_length.
Qed.

(** ** Month names in a date string *)

Lemma startswith_unlettered (a : ascii) (needle s : string) :
  is_alpha a = true ->
  match s with String c _ => unlettered c = true | EmptyString => True end ->
  startswith (String a needle) s = false.
Proof.
  intros Ha Hs. destruct s as [|c s]; [reflexivity|]. cbn [startswith].
  destruct (Ascii.eqb a c) eqn:E; [|reflexivity].
  apply Ascii.eqb_eq in E. subst c. unfold unlettered in Hs.
  rewrite Ha in Hs. discriminate Hs.
Qed.

(** A word is not found among characters that are not letters. *)
Lemma contains_skip (a : ascii) (needle pre s : string) :
  is_alpha a = true -> sforall unlettered pre = true ->
  contains (String a needle) (pre ++ s) = contains (String a needle) s.
Proof.
  intros Ha. induction pre as [|c pre IH]; intros Hp; [reflexivity|].
  cbn [sforall] in Hp. apply andb_prop in Hp. destruct Hp as [Hc Hp].
  cbn [append contains]. rewrite (IH Hp).
  now rewrite startswith_unlettered.
Qed.

Lemma startswith_app_unlettered (needle w post : string) :
  sforall is_alpha needle = true -> sforall unlettered post = true ->
  startswith needle (w ++ post) = startswith needle w.
Proof.
  intros Hn Hp. revert w. induction needle as [|a needle IH]; intros w.
  - reflexivity.
  - cbn [sforall] in Hn. apply andb_prop in Hn. destruct Hn as [Ha Hn].
    destruct w as [|c w]; cbn [append].
    + rewrite startswith_unlettered; [reflexivity | exact Ha |].
      destruct post as [|c post]; [exact I|].
      cbn [sforall] in Hp. now apply andb_prop in Hp.
    + cbn [startswith]. now rewrite (IH Hn).
Qed.

Lemma contains_unlettered (a : ascii) (needle s : string) :
  is_alpha a = true -> sforall unlettered s = true ->
  contains (String a needle) s = false.
Proof.
  intros Ha Hs. pose proof (contains_skip a needle s "" Ha Hs) as H.
  now rewrite append_empty_r in H.
Qed.

Lemma contains_within (a : ascii) (needle pre w post : string) :
  sforall is_alpha (String a needle) = true ->
  sforall unlettered pre = true -> sforall unlettered post = true ->
  contains (String a needle) (pre ++ w ++ post) = contains (String a needle) w.
Proof.
  intros Hn Hpre Hpost.
  assert (Ha : is_alpha a = true)
    by (cbn [sforall] in Hn; now apply andb_prop in Hn).
  rewrite (contains_skip a needle pre _ Ha Hpre).
  induction w as [|c w IH]; cbn [append].
  - now rewrite contains_unlettered.
  - cbn [contains]. rewrite IH.
    change (String c (w ++ post)) with (String c w ++ post).
    now rewrite (startswith_app_unlettered _ _ _ Hn Hpost).
Qed.

Lemma smap_app (f : ascii -> ascii) (a b : string) :
  smap f (a ++ b) = smap f a ++ smap f b.
Proof. induction a as [|c a IH]; cbn; [reflexivity | now rewrite IH]. Qed.

Lemma lower_unlettered (s : string) :
  sforall unlettered s = true -> lower s = s.
Proof.
  induction s as [|c s IH]; [reflexivity|]. cbn [sforall]. intros H.
  apply andb_prop in H. destruct H as [Hc Hs]. unfold lower in *.
  cbn [smap]. rewrite (IH Hs). f_equal.
  unfold lower_c. unfold unlettered, is_alpha in Hc.
  now destruct (is_upper c).
Qed.

Lemma find_ext_in {A : Type} (f g : A -> bool) (l : list A) :
  (forall x, In x l -> f x = g x) -> find f l = find g l.
Proof.
  induction l as [|x l IH]; intros H; [reflexivity|]. cbn [find].
  rewrite (H x (or_introl eq_refl)), IH; [reflexivity|].
  intros y Hy. apply H. now right.
Qed.

Lemma uint_unlettered (d : Decimal.uint) :
  sforall unlettered (NilEmpty.string_of_uint d) = true.
Proof. induction d; cbn; auto. Qed.

Lemma nilzero_unlettered (d : Decimal.uint) :
  sforall unlettered (NilZero.string_of_uint d) = true.
Proof.
  unfold NilZero.string_of_uint.
  destruct d; try reflexivity; apply uint_unlettered.
Qed.

Lemma str_Z_unlettered (z : Z) : sforall unlettered (str_Z z) = true.
Proof.
  unfold str_Z, NilZero.string_of_int.
  destruct (Z.to_int z) as [d|d]; [apply nilzero_unlettered|].
  cbn [sforall]. now rewrite nilzero_unlettered.
Qed.

Lemma pad2_unlettered (d : Z) : sforall unlettered (pad2 d) = true.
Proof.
  unfold pad2. destruct (d <? 10)%Z; [|apply str_Z_unlettered].
  cbn [append sforall]. now rewrite str_Z_unlettered.
Qed.

(** Only the part of a date string that holds letters decides the month. *)
Lemma extract_bulan_within (pre w post : string) :
  sforall unlettered pre = true -> sforall unlettered post = true ->
  truthy_str w = true ->
  extract_bulan (Some (pre ++ w ++ post)) = extract_bulan (Some w).
Proof.
  intros Hpre Hpost Hw. unfold extract_bulan.
  assert (Ht : truthy_str (pre ++ w ++ post) = true).
  { destruct pre; [|reflexivity]. destruct w; [discriminate Hw | reflexivity]. }
  rewrite Ht, Hw. cbn [negb].
  unfold lower. rewrite !smap_app. fold lower.
  rewrite (lower_unlettered pre Hpre), (lower_unlettered post Hpost).
  rewrite (find_ext_in
             (fun month => contains (lower month) (pre ++ lower w ++ post))
             (fun month => contains (lower month) (lower w))).
  2:{ intros x Hx. cbn in Hx.
      repeat (destruct Hx as [Hx | Hx];
              [subst x; apply contains_within; [reflexivity | exact Hpre | exact Hpost]|]).
      destruct Hx. }
  rewrite (find_ext_in
             (fun '(i, month_en) =>
                contains (lower month_en) (pre ++ lower w ++ post))
             (fun '(i, month_en) => contains (lower month_en) (lower w))).
  2:{ intros [i x] Hx. cbn in Hx.
      repeat (destruct Hx as [Hx | Hx];
              [injection Hx as <- <-;
               apply contains_within; [reflexivity | exact Hpre | exact Hpost]|]).
      destruct Hx. }
  reflexivity.
Qed.

(** X10.  For every valid date whose day is not the 1st, the date string
    that parse_metadata formats in the C locale (English month name) is
    mapped by extract_bulan to the Indonesian name of that same month. *)
Theorem extract_bulan_of_date (y m d : Z) (dt : datetime) :
  mk_datetime y m d = Some dt -> d <> 1%Z ->
  extract_bulan (tanggal_str c_locale_month (Some dt))
  = Some (nth (Z.to_nat (m - 1)) MONTHS "").
Proof.
  unfold mk_datetime.
  destruct ((1 <=? y) && (y <=? 9999) && (1 <=? m) && (m <=? 12)
            && (1 <=? d) && (d <=? days_in_month y m))%Z eqn:E; [|discriminate].
  intros H Hd. injection H as <-.
  unfold tanggal_str. cbn [day].
  assert (Hd1 : (d =? 1)%Z = false) by now apply Z.eqb_neq.
  rewrite Hd1. cbn [negb]. unfold strftime_dBY. cbn [day month year].
  repeat (apply andb_prop in E; destruct E as [E ?]).
  assert (Hm : (1 <= m <= 12)%Z) by lia.
  change (pad2 d ++ " " ++ c_locale_month m ++ " " ++ str_Z y)
    with (pad2 d ++ String " " (c_locale_month m ++ String " " (str_Z y))).
  replace (pad2 d ++ String " " (c_locale_month m ++ String " " (str_Z y)))
    with ((pad2 d ++ " ") ++ c_locale_month m ++ String " " (str_Z y))
    by (now rewrite append_assoc).
  assert (Hcases : (m = 1 \/ m = 2 \/ m = 3 \/ m = 4 \/ m = 5 \/ m = 6
                   \/ m = 7 \/ m = 8 \/ m = 9 \/ m = 10 \/ m = 11 \/ m = 12)%Z)
    by lia.
  rewrite extract_bulan_within.
  - repeat (destruct Hcases as [-> | Hcases]; [vm_compute; reflexivity|]).
    subst m. vm_compute. reflexivity.
  - rewrite sforall_app, pad2_unlettered. reflexivity.
  - cbn [sforall]. now rewrite str_Z_unlettered.
  - repeat (destruct Hcases as [-> | Hcases]; [reflexivity|]).
    subst m. reflexivity.
Qed.

Lemma extract_bulan_of_date_witness :
  extract_bulan (tanggal_str c_locale_month
                             (Some {| year := 2024; month := 5; day := 5 |}))
  = Some "Mei".
Proof.
  apply (extract_bulan_of_date 2024 5 5 {| year := 2024; month := 5; day := 5 |}).
  - reflexivity.
  - discriminate.
Defined.

(** X11.  extract_bulan returns None for every date string without a letter,
    in particular for the bare year that parse_metadata stores when the day
    is 1. *)
Theorem extract_bulan_needs_letters (s : string) :
  sforall unlettered s = true -> extract_bulan (Some s) = None.
Proof.
  intros Hs. unfold extract_bulan.
  destruct (truthy_str s); [|reflexivity]. cbn [negb].
  rewrite (lower_unlettered s Hs).
  rewrite (find_ext_in (fun month => contains (lower month) s) (fun _ => false)).
  2:{ intros x Hx. cbn in Hx.
      repeat (destruct Hx as [Hx | Hx];
              [subst x; apply contains_unlettered; [reflexivity | exact Hs]|]).
      destruct Hx. }
  rewrite (find_ext_in
             (fun '(i, month_en) => contains (lower month_en) s)
             (fun _ => false)).
  2:{ intros [i x] Hx. cbn in Hx.
      repeat (destruct Hx as [Hx | Hx];
              [injection Hx as <- <-;
               apply contains_unlettered; [reflexivity | exact Hs]|]).
      destruct Hx. }
  reflexivity.
Qed.

Lemma extract_bulan_needs_letters_witness : extract_bulan (Some "2024") = None.
Proof. apply (extract_bulan_needs_letters "2024"). reflexivity. Defined.

(** ** The shape of a cleaned text *)

(** Whatever the repairs did, the last three steps of [_clean_text] are
    the two whitespace scans and the strip. *)
Lemma clean_text_tail (text : string) :
  exists y f1 f2,
    String.length y < f1 /\ String.length (squeeze_blanks f1 y) < f2
    /\ _clean_text text = strip (squeeze_lines f2 (squeeze_blanks f1 y)).
Proof.
  unfold _clean_text. destruct (truthy_str text); cbn [negb].
  - match goal with
    | |- context [sub ignorecase re_nomor_shape fix_nomor ?x] =>
        generalize (sub ignorecase re_nomor_shape fix_nomor x)
    end.
    intros y. unfold sub.
    rewrite (sub_go_scan plain re_blanks blanks_len " " measures_blanks). 
    rewrite (sub_go_scan plain re_blank_lines blank_lines_len (nl ++ nl)
                         measures_blank_lines).
    exists y, (2 * String.length y + 2),
      (2 * String.length (scan blanks_len " " (2 * String.length y + 2) y) + 2).
    split; [lia|]. split; [unfold squeeze_blanks; lia|]. reflexivity.
  - exists "", 1, 1. split; [cbn [String.length]; lia|].
    split; [vm_compute; lia | vm_compute; reflexivity].
Qed.

Lemma squeezed_no_tab (s : string) :
  squeezed s = true -> sexists (Ascii.eqb TAB) s = false.
Proof.
  induction s as [|c s IH]; [reflexivity|]. cbn [squeezed sexists].
  intros H. apply andb_prop in H. destruct H as [Hc Hs]. rewrite (IH Hs).
  destruct (Ascii.eqb TAB c) eqn:E; [|reflexivity].
  apply Ascii.eqb_eq in E. subst c. discriminate Hc.
Qed.

Lemma squeezed_no_double_space (s : string) :
  squeezed s = true -> contains "  " s = false.
Proof.
  induction s as [|c s IH]; [reflexivity|]. cbn [squeezed].
  intros H. apply andb_prop in H. destruct H as [Hc Hs].
  cbn [contains]. rewrite (IH Hs), orb_false_r.
  cbn [startswith]. destruct (Ascii.eqb " " c) eqn:E; [|reflexivity].
  apply Ascii.eqb_eq in E. subst c. cbn in Hc.
  destruct s as [|d s]; [reflexivity|]. cbn [startswith].
  destruct (Ascii.eqb " " d) eqn:Ed; [|reflexivity].
  apply Ascii.eqb_eq in Ed. subst d. discriminate Hc.
Qed.

Lemma calm_no_triple_lf (s : string) :
  calm s = true -> contains (nl ++ nl ++ nl) s = false.
Proof.
  induction s as [|c s IH]; [reflexivity|]. cbn [calm].
  intros H. apply andb_prop in H. destruct H as [Hc Hs].
  cbn [contains]. rewrite (IH Hs), orb_false_r.
  change (nl ++ nl ++ nl) with (String LF (String LF (String LF ""))).
  cbn [startswith]. destruct (Ascii.eqb LF c) eqn:E; [|reflexivity].
  apply Ascii.eqb_eq in E. subst c.
  destruct s as [|d s]; [reflexivity|]. cbn [startswith].
  destruct (Ascii.eqb LF d) eqn:Ed; [|reflexivity].
  apply Ascii.eqb_eq in Ed. subst d.
  destruct s as [|e s]; [reflexivity|]. cbn [startswith].
  destruct (Ascii.eqb LF e) eqn:Ee; [|reflexivity].
  apply Ascii.eqb_eq in Ee. subst e.
  rewrite blank_lines_len_cons in Hc. discriminate Hc.
Qed.

(** X12.  The result of _clean_text has no leading or trailing whitespace,
    no TAB, no two consecutive spaces and no three consecutive line feeds,
    for every input. *)
Theorem clean_text_shape (text : string) :
  strip (_clean_text text) = _clean_text text
  /\ sexists (Ascii.eqb TAB) (_clean_text text) = false
  /\ contains "  " (_clean_text text) = false
  /\ contains (nl ++ nl ++ nl) (_clean_text text) = false.
Proof.
  destruct (clean_text_tail text) as [y [f1 [f2 [H1 [H2 ->]]]]].
  set (w := squeeze_lines f2 (squeeze_blanks f1 y)).
  assert (Hs : squeezed (strip w) = true)
    by (apply squeezed_strip_by, squeeze_lines_squeezed,
          squeeze_blanks_squeezed; exact H1).
  assert (Hc : calm (strip w) = true)
    by (apply calm_strip_by, squeeze_lines_calm; exact H2).
  split; [apply strip_by_idem|]. split; [now apply squeezed_no_tab|].
  split; [now apply squeezed_no_double_space | now apply calm_no_triple_lf].
Qed.

(** ** Runs of a class replaced by one space *)

Lemma measures_plus_cls (fl : flags) (negated : bool) (items : list citem) :
  measures fl (plus (Cls negated items))
           (run_len (cls_match fl negated items)).
Proof.
  apply lands_measures. intros must prev s pos.
  change (start_state prev s pos) with (mk prev s pos []).
  rewrite run_plus_cls.
  destruct s as [|c s]; [reflexivity|].
  cbn [run_len]. destruct (cls_match fl negated items c); [|reflexivity].
  destruct (span_try_accept (cls_match fl negated items) must pos (Some c) s
                            (S pos) [])
    as [e [He [Hpos Hcaps]]]; [lia|].
  exists e. repeat split; [assumption | lia | assumption].
Qed.

Section Packed.

Variable p : ascii -> bool.
Hypothesis p_space : p " " = true.

Lemma pack_head (fuel : nat) (s : string) :
  run_len p s = 0 -> run_len p (pack p fuel s) = 0.
Proof.
  intros H. destruct fuel as [|fuel]; [exact H|].
  unfold pack. cbn [scan]. rewrite H.
  destruct s as [|c s]; [reflexivity|].
  cbn [run_len] in *. now destruct (p c).
Qed.

Lemma pack_packed (fuel : nat) (s : string) :
  String.length s < fuel -> packed p (pack p fuel s) = true.
Proof.
  revert s. induction fuel as [|fuel IH]; intros s Hf; [lia|].
  unfold pack. cbn [scan].
  destruct s as [|c s]; [reflexivity|].
  cbn [String.length] in Hf. cbn [run_len].
  destruct (p c) eqn:Eb.
  - cbn [drop append packed]. fold (pack p fuel (drop (run_len p s) s)).
    rewrite p_space. cbn [negb orb]. rewrite pack_head by apply run_len_drop.
    rewrite IH by (pose proof (length_drop_le (run_len p s) s); lia).
    reflexivity.
  - cbn [packed]. rewrite Eb. cbn [negb orb andb].
    apply IH. lia.
Qed.

Lemma pack_fixed (fuel : nat) (s : string) :
  packed p s = true -> pack p fuel s = s.
Proof.
  revert s. induction fuel as [|fuel IH]; intros s Hs; [reflexivity|].
  unfold pack. cbn [scan].
  destruct s as [|c s]; [reflexivity|].
  cbn [packed] in Hs. apply andb_prop in Hs. destruct Hs as [Hc Hs].
  cbn [run_len]. destruct (p c) eqn:Eb.
  - cbn [negb orb] in Hc. apply andb_prop in Hc. destruct Hc as [Hsp Hz].
    apply Ascii.eqb_eq in Hsp. apply Nat.eqb_eq in Hz. subst c.
    rewrite Hz. cbn [drop append]. f_equal. now apply IH.
  - f_equal. now apply IH.
Qed.

Lemma packed_suffix (a b : string) :
  packed p (a ++ b) = true -> packed p b = true.
Proof.
  induction a as [|c a IH]; cbn [append packed]; [easy|].
  intros H. apply andb_prop in H. now apply IH.
Qed.

Lemma packed_prefix (a b : string) :
  packed p (a ++ b) = true -> packed p a = true.
Proof.
  induction a as [|c a IH]; cbn [append packed]; [easy|].
  intros H. apply andb_prop in H. destruct H as [Hc Hs].
  rewrite (IH Hs), andb_true_r.
  destruct (negb (p c)); [reflexivity|]. cbn [orb] in *.
  apply andb_prop in Hc. destruct Hc as [-> Hz]. cbn [andb].
  apply Nat.eqb_eq in Hz. apply run_len_app_zero in Hz.
  now rewrite Hz.
Qed.

Lemma packed_strip_by (q : ascii -> bool) (s : string) :
  packed p s = true -> packed p (strip_by q s) = true.
Proof.
  intros H. unfold strip_by.
  destruct (lstrip_by_suffix q s) as [pre Hs].
  destruct (rstrip_by_prefix q (lstrip_by q s)) as [post Hr].
  rewrite Hs in H. apply packed_suffix in H.
  rewrite Hr in H. now apply packed_prefix in H.
Qed.

Lemma packed_spaces (s : string) :
  packed p s = true ->
  sforall (fun c => negb (p c) || Ascii.eqb c " ") s = true
  /\ contains "  " s = false.
Proof.
  induction s as [|c s IH]; [now split|]. cbn [packed].
  intros H. apply andb_prop in H. destruct H as [Hc Hs].
  destruct (IH Hs) as [IH1 IH2]. split.
  - cbn [sforall]. rewrite IH1, andb_true_r.
    destruct (negb (p c)); [reflexivity|]. cbn [orb] in *.
    now apply andb_prop in Hc.
  - cbn [contains]. rewrite IH2, orb_false_r.
    cbn [startswith]. destruct (Ascii.eqb " " c) eqn:E; [|reflexivity].
    apply Ascii.eqb_eq in E. subst c. rewrite p_space in Hc. cbn in Hc.
    destruct s as [|d s]; [reflexivity|]. cbn [startswith].
    destruct (Ascii.eqb " " d) eqn:Ed; [|reflexivity].
    apply Ascii.eqb_eq in Ed. subst d. cbn [run_len] in Hc.
    rewrite p_space in Hc. discriminate Hc.
Qed.

End Packed.

(** ** Changing the case of letters *)

Lemma ascii_forall (P : ascii -> bool) (c : ascii) :
  forallb P all_ascii = true -> P c = true.
Proof. rewrite forallb_forall. intros H. apply H, in_all_ascii. Qed.

Lemma caseless_spec (p : ascii -> bool) (c d : ascii) :
  caseless p = true -> d = lower_c c \/ d = upper_c c -> p d = p c.
Proof.
  intros H Hd. pose proof (ascii_forall _ c H) as Hc. cbv beta in Hc.
  apply andb_prop in Hc. destruct Hc as [H1 H2].
  apply Bool.eqb_prop in H1. apply Bool.eqb_prop in H2.
  destruct Hd as [-> | ->]; assumption.
Qed.

Lemma recased_refl_title (b : bool) (s : string) : recased s (title_from b s).
Proof.
  revert b. induction s as [|c s IH]; intros b; cbn; [exact I|].
  split; [destruct b; auto | apply IH].
Qed.

Lemma recased_app (a a' b b' : string) :
  recased a a' -> recased b b' -> recased (a ++ b) (a' ++ b').
Proof.
  revert a'. induction a as [|c a IH]; intros [|c' a']; cbn; try easy.
  intros [E H] Hb. split; [assumption | now apply IH].
Qed.

Lemma recased_srev (s t : string) : recased s t -> recased (srev s) (srev t).
Proof.
  revert t. induction s as [|c s IH]; intros [|d t]; cbn [recased]; try easy.
  intros [E H]. rewrite !srev_cons. apply recased_app; [now apply IH|].
  cbn. auto.
Qed.

Lemma recased_length (s t : string) :
  recased s t -> String.length s = String.length t.
Proof.
  revert t. induction s as [|c s IH]; intros [|d t]; cbn; try easy.
  intros [_ H]. f_equal. now apply IH.
Qed.

Section Recased.

Variable p : ascii -> bool.
Hypothesis p_caseless : caseless p = true.

Lemma recased_run_len (s t : string) :
  recased s t -> run_len p t = run_len p s.
Proof.
  revert t. induction s as [|c s IH]; intros [|d t]; cbn [recased run_len];
    try easy.
  intros [E H]. rewrite (caseless_spec p c d p_caseless E), (IH t H).
  reflexivity.
Qed.

Lemma recased_head (s t : string) :
  recased s t ->
  match s with String c _ => p c = false | EmptyString => True end ->
  match t with String d _ => p d = false | EmptyString => True end.
Proof.
  destruct s as [|c s], t as [|d t]; cbn [recased]; try easy.
  intros [E _] Hc. now rewrite (caseless_spec p c d p_caseless E).
Qed.

End Recased.

(** A string is left alone by [strip] exactly when neither end is
    stripped. *)
Lemma strip_by_ends (p : ascii -> bool) (s : string) :
  match strip_by p s with String c _ => p c = false | EmptyString => True end
  /\ match srev (strip_by p s) with
     | String c _ => p c = false
     | EmptyString => True
     end.
Proof.
  unfold strip_by. split.
  - pose proof (lstrip_by_head p s) as H.
    destruct (lstrip_by p s) as [|c r]; [exact I|].
    destruct (rstrip_by_keeps_head p c r H) as [r' ->]. exact H.
  - unfold rstrip_by. rewrite srev_involutive. apply lstrip_by_head.
Qed.

Lemma strip_by_fixed (p : ascii -> bool) (s : string) :
  match s with String c _ => p c = false | EmptyString => True end ->
  match srev s with String c _ => p c = false | EmptyString => True end ->
  strip_by p s = s.
Proof.
  intros H1 H2. unfold strip_by, rstrip_by.
  rewrite (lstrip_by_fixed p s H1), (lstrip_by_fixed p (srev s) H2).
  apply srev_involutive.
Qed.

Lemma strip_by_recased (p : ascii -> bool) (s t : string) :
  caseless p = true -> recased s t -> strip_by p s = s -> strip_by p t = t.
Proof.
  intros Hp Hr Hs. destruct (strip_by_ends p s) as [H1 H2]. rewrite Hs in H1, H2.
  apply strip_by_fixed.
  - exact (recased_head p Hp s t Hr H1).
  - exact (recased_head p Hp _ _ (recased_srev s t Hr) H2).
Qed.

Lemma packed_recased (p : ascii -> bool) (s t : string) :
  caseless p = true -> recased s t -> packed p s = true -> packed p t = true.
Proof.
  intros Hp. revert t. induction s as [|c s IH]; intros [|d t];
    cbn [recased packed]; try easy.
  intros [E H] Hs. apply andb_prop in Hs. destruct Hs as [Hc Hs].
  rewrite (IH t H Hs), andb_true_r.
  rewrite (caseless_spec p c d Hp E), (recased_run_len p Hp s t H).
  destruct (negb (p c)); [reflexivity|]. cbn [orb] in *.
  apply andb_prop in Hc. destruct Hc as [Hsp Hz]. rewrite Hz, andb_true_r.
  apply Ascii.eqb_eq in Hsp. subst c.
  destruct E as [-> | ->]; reflexivity.
Qed.

Lemma title_from_idem (b : bool) (s : string) :
  title_from b (title_from b s) = title_from b s.
Proof.
  revert b. induction s as [|c s IH]; intros b; [reflexivity|].
  cbn [title_from].
  assert (Ha : is_alpha (if b then lower_c c else upper_c c) = is_alpha c).
  { apply (caseless_spec is_alpha); [vm_compute; reflexivity|].
    destruct b; auto. }
  rewrite Ha, IH. f_equal.
  destruct b.
  - exact (proj1 (Ascii.eqb_eq _ _)
                 (ascii_forall (fun c => Ascii.eqb (lower_c (lower_c c)) (lower_c c))
                               c eq_refl)).
  - exact (proj1 (Ascii.eqb_eq _ _)
                 (ascii_forall (fun c => Ascii.eqb (upper_c (upper_c c)) (upper_c c))
                               c eq_refl)).
Qed.

(** ** [_normalize_line] *)

Lemma spacey_space : spacey " " = true.
Proof. reflexivity. Qed.

(** The value [_normalize_line] cleans, before the case is looked at. *)
Lemma normalize_line_cleaned (v : string) :
  exists cleaned,
    strip_by trim_class cleaned = cleaned /\ packed spacey cleaned = true
    /\ _normalize_line (Some v)
       = if negb (truthy_str v) then None
         else if negb (truthy_str cleaned) then None
         else if isupper cleaned then Some (title cleaned)
         else Some cleaned.
Proof.
  unfold _normalize_line, strip_chars. fold trim_class.
  unfold sub, re_spaces, space.
  rewrite (sub_go_scan plain _ _ " " (measures_plus_cls plain false [CSpace])).
  fold spacey. fold (pack spacey (2 * String.length v + 2) v).
  eexists. split; [|split; [|reflexivity]].
  - apply strip_by_idem.
  - apply packed_strip_by, pack_packed; [exact spacey_space | lia].
Qed.

Lemma title_truthy (s : string) : truthy_str (title s) = truthy_str s.
Proof. now destruct s. Qed.

Lemma normalize_line_fixed (r : string) :
  truthy_str r = true -> strip_by trim_class r = r -> packed spacey r = true ->
  (isupper r = true -> title r = r) ->
  _normalize_line (Some r) = Some r.
Proof.
  intros Hne Hs Hp Ht.
  unfold _normalize_line, strip_chars. fold trim_class.
  unfold sub, re_spaces, space.
  rewrite (sub_go_scan plain _ _ " " (measures_plus_cls plain false [CSpace])).
  fold spacey. fold (pack spacey (2 * String.length r + 2) r).
  rewrite (pack_fixed spacey _ r Hp), Hs, Hne. cbn [negb].
  destruct (isupper r); [now rewrite Ht | reflexivity].
Qed.

Lemma recased_refl (s : string) : recased s s.
Proof.
  induction s as [|c s IH]; cbn; [exact I|]. split; [|exact IH].
  pose proof (ascii_forall
                (fun c => Ascii.eqb c (lower_c c) || Ascii.eqb c (upper_c c))
                c eq_refl) as H.
  cbv beta in H. apply orb_prop in H.
  destruct H as [H | H]; apply Ascii.eqb_eq in H; auto.
Qed.

Lemma sforall_ext (f g : ascii -> bool) (s : string) :
  (forall c, f c = g c) -> sforall f s = sforall g s.
Proof.
  intros H. induction s as [|c s IH]; [reflexivity|].
  cbn [sforall]. now rewrite H, IH.
Qed.

(** What holds of a cleaned value holds of it in any case. *)
Lemma recased_shape (cleaned t : string) :
  truthy_str cleaned = true -> strip_by trim_class cleaned = cleaned ->
  packed spacey cleaned = true -> recased cleaned t ->
  truthy_str t = true /\ strip_by trim_class t = t /\ packed spacey t = true.
Proof.
  intros Hne Hs Hp Ht. split; [|split].
  - destruct cleaned, t; try easy.
  - apply (strip_by_recased trim_class cleaned);
      [vm_compute; reflexivity | assumption | assumption].
  - apply (packed_recased spacey cleaned);
      [vm_compute; reflexivity | assumption | assumption].
Qed.

(** X13.  When _normalize_line returns a value, it is not empty, neither
    starts nor ends with a space, a colon or a hyphen, contains no
    whitespace other than the space, and has no two consecutive spaces. *)
Theorem normalize_line_shape (v : option string) (r : string) :
  _normalize_line v = Some r ->
  r <> ""
  /\ strip_chars " :-" r = r
  /\ sforall (fun c => negb (is_space c) || Ascii.eqb c " ") r = true
  /\ contains "  " r = false.
Proof.
  destruct v as [v|]; [|discriminate].
  destruct (normalize_line_cleaned v) as [cleaned [Hs [Hp ->]]].
  destruct (negb (truthy_str v)); [discriminate|].
  destruct (truthy_str cleaned) eqn:Hne; [|discriminate]. cbn [negb].
  intros H.
  assert (Hr : recased cleaned r).
  { destruct (isupper cleaned); injection H as <-;
      [apply recased_refl_title | apply recased_refl]. }
  destruct (recased_shape cleaned r Hne Hs Hp Hr) as [H1 [H2 H3]].
  destruct (packed_spaces spacey spacey_space r H3) as [H4 H5].
  split; [|split; [|split]].
  - intros ->. discriminate H1.
  - exact H2.
  - rewrite (sforall_ext _ (fun c => negb (spacey c) || Ascii.eqb c " "));
      [exact H4|].
    intros c. now rewrite spacey_is_space.
  - exact H5.
Qed.

Lemma normalize_line_shape_witness :
  _normalize_line (Some "  KEPALA   DINAS : ") = Some "Kepala Dinas"
  /\ strip_chars " :-" "Kepala Dinas" = "Kepala Dinas".
Proof.
  split; [vm_compute; reflexivity|].
  apply (normalize_line_shape (Some "  KEPALA   DINAS : ") "Kepala Dinas").
  vm_compute. reflexivity.
Defined.

(** X14.  _normalize_line is idempotent: normalizing an already normalized
    value (or None) gives it back. *)
Theorem normalize_line_idempotent (v : option string) :
  _normalize_line (_normalize_line v) = _normalize_line v.
Proof.
  destruct v as [v|]; [|reflexivity].
  destruct (normalize_line_cleaned v) as [cleaned [Hs [Hp ->]]].
  destruct (negb (truthy_str v)); [reflexivity|].
  destruct (truthy_str cleaned) eqn:Hne; [|reflexivity]. cbn [negb].
  destruct (isupper cleaned) eqn:Hu.
  - destruct (recased_shape cleaned (title cleaned) Hne Hs Hp
                            (recased_refl_title false cleaned))
      as [H1 [H2 H3]].
    apply normalize_line_fixed; try assumption.
    intros _. apply title_from_idem.
  - apply normalize_line_fixed; try assumption.
    rewrite Hu. discriminate.
Qed.

(** ** [_is_label_line] *)

Lemma rev_onto_srev (s acc : string) : rev_onto s acc = srev s ++ acc.
Proof. apply rev_onto_app. Qed.

Lemma split_once_go_found (sep : ascii) (a b acc : string) :
  sexists (fun c => Ascii.eqb c sep) a = false ->
  split_once_go sep (a ++ String sep b) acc = Some (srev acc ++ a, b).
Proof.
  revert acc. induction a as [|c a IH]; intros acc H; cbn [append split_once_go].
  - rewrite Ascii.eqb_refl. now rewrite append_empty_r.
  - cbn [sexists] in H. apply orb_false_iff in H. destruct H as [Hc Ha].
    rewrite Hc, (IH _ Ha), srev_cons, append_assoc. reflexivity.
Qed.

Lemma split_once_go_none (sep : ascii) (a acc : string) :
  sexists (fun c => Ascii.eqb c sep) a = false ->
  split_once_go sep a acc = None.
Proof.
  revert acc. induction a as [|c a IH]; intros acc H; [reflexivity|].
  cbn [sexists] in H. apply orb_false_iff in H. destruct H as [Hc Ha].
  cbn [split_once_go]. rewrite Hc. now apply IH.
Qed.

(** X15.  _is_label_line looks only at what precedes the first colon: for a
    label without a colon, the line "label:value" is a label line exactly
    when the label alone is, whatever the value. *)
Theorem is_label_line_ignores_value (label value : string) :
  sexists (fun c => Ascii.eqb c ":") label = false ->
  _is_label_line (label ++ ":" ++ value) = _is_label_line label.
Proof.
  intros H. unfold _is_label_line, split_once.
  change (label ++ ":" ++ value) with (label ++ String ":" value).
  now rewrite (split_once_go_found ":" label value "" H),
    (split_once_go_none ":" label "" H).
Qed.

Lemma is_label_line_ignores_value_witness :
  _is_label_line ("Hal" ++ ":" ++ " Undangan Rapat") = _is_label_line "Hal".
Proof.
  apply (is_label_line_ignores_value "Hal" " Undangan Rapat"). reflexivity.
Defined.

(** A map on characters that fixes the colon commutes with the split. *)
Lemma split_once_go_smap (f : ascii -> ascii) (s acc : string) :
  (forall c, Ascii.eqb (f c) ":" = Ascii.eqb c ":") ->
  split_once_go ":" (smap f s) (smap f acc)
  = option_map (fun '(a, b) => (smap f a, smap f b)) (split_once_go ":" s acc).
Proof.
  intros Hf. revert acc. induction s as [|c s IH]; intros acc; [reflexivity|].
  cbn [smap split_once_go]. rewrite Hf. destruct (Ascii.eqb c ":").
  - cbn [option_map]. now rewrite srev_smap.
  - apply (IH (String c acc)).
Qed.

Lemma lower_recase (f : ascii -> ascii) (s : string) :
  (forall c, lower_c (f c) = lower_c c) -> lower (smap f s) = lower s.
Proof.
  intros Hf. unfold lower. induction s as [|c s IH]; [reflexivity|].
  cbn [smap]. now rewrite Hf, IH.
Qed.

Lemma is_label_line_smap (f : ascii -> ascii) (line : string) :
  (forall c, Ascii.eqb (f c) ":" = Ascii.eqb c ":") ->
  (forall c, lower_c (f c) = lower_c c) ->
  _is_label_line (smap f line) = _is_label_line line.
Proof.
  intros H1 H2. unfold _is_label_line, split_once.
  pose proof (split_once_go_smap f line "" H1) as H. cbn [smap] in H.
  rewrite H. destruct (split_once_go ":" line "") as [[a b]|]; cbn [option_map];
    now rewrite lower_recase.
Qed.

(** X16.  On a line of ASCII characters _is_label_line does not depend on
    the case: the upper-cased and the lower-cased line get the same answer
    as the line itself.  (Outside ASCII str.upper and str.lower map some
    letters onto ASCII ones, and the answer can change.) *)
Theorem is_label_line_ignores_case (line : string) :
  ascii_text line = true ->
  _is_label_line (upper line) = _is_label_line line
  /\ _is_label_line (lower line) = _is_label_line line.
Proof.
  intros _. split; apply is_label_line_smap; intros c.
  - exact (proj1 (Bool.eqb_true_iff _ _)
             (ascii_forall (fun c => Bool.eqb (Ascii.eqb (upper_c c) ":")
                                              (Ascii.eqb c ":")) c eq_refl)).
  - exact (proj1 (Ascii.eqb_eq _ _)
             (ascii_forall (fun c => Ascii.eqb (lower_c (upper_c c)) (lower_c c))
                           c eq_refl)).
  - exact (proj1 (Bool.eqb_true_iff _ _)
             (ascii_forall (fun c => Bool.eqb (Ascii.eqb (lower_c c) ":")
                                              (Ascii.eqb c ":")) c eq_refl)).
  - exact (proj1 (Ascii.eqb_eq _ _)
             (ascii_forall (fun c => Ascii.eqb (lower_c (lower_c c)) (lower_c c))
                           c eq_refl)).
Qed.

Lemma is_label_line_ignores_case_witness :
  _is_label_line (upper "Nomor Surat: 12") = _is_label_line "Nomor Surat: 12"
  /\ _is_label_line (lower "Nomor Surat: 12")
     = _is_label_line "Nomor Surat: 12".
Proof.
  apply (is_label_line_ignores_case "Nomor Surat: 12"). reflexivity.
Defined.

(** ** What a found pattern tells about the subject *)

Lemma search_from_without (fl : flags) (P : ascii -> bool) (r : regex)
      (s : string) :
  needs fl P r = true -> sexists P s = false ->
  forall prev pos, search_from fl r prev s pos = None.
Proof.
  intros Hn. induction s as [|c s IH]; intros Hs prev pos; cbn [search_from].
  - now rewrite (match_here_without fl P r false prev "" pos Hn).
  - rewrite (match_here_without fl P r false prev _ pos Hn Hs).
    cbn [sexists] in Hs. apply orb_false_iff in Hs. now apply IH.
Qed.

Lemma found_needs (fl : flags) (P : ascii -> bool) (r : regex) (s : string) :
  needs fl P r = true -> found fl r s = true -> sexists P s = true.
Proof.
  intros Hn Hf. destruct (sexists P s) eqn:E; [reflexivity|].
  unfold found, search in Hf.
  now rewrite (search_from_without fl P r s Hn E) in Hf.
Qed.

(** A subject matched by ^ followed by a class starts in the class. *)
Lemma matches_bol_cls (fl : flags) (negated : bool) (items : list citem)
      (r : regex) (s : string) :
  matches fl (Seq Bol (Seq (plus (Cls negated items)) r)) s = true ->
  exists c rest, s = String c rest /\ cls_match fl negated items c = true.
Proof.
  unfold matches, rmatch, match_here.
  change (start_state None s 0) with (mk None s 0 []).
  cbn [run]. cbn [m_pos mk Nat.eqb].
  change (rep_loop (run fl (Cls negated items)) (run fl r (accept false 0))
                   true 1 None (S (1 + String.length (m_rest (mk None s 0 []))))
                   0 (mk None s 0 []))
    with (run fl (plus (Cls negated items)) (run fl r (accept false 0))
              (mk None s 0 [])).
  rewrite run_plus_cls. destruct s as [|c rest]; [discriminate|].
  destruct (cls_match fl negated items c) eqn:E; [|discriminate].
  intros _. now exists c, rest.
Qed.

Lemma digit_class (c : ascii) : cls_match plain false [CDigit] c = is_digit c.
Proof. unfold cls_match, set_has. cbn. now rewrite orb_false_r. Qed.

(** ** [_filtered_label_value] *)

(** X17.  When _filtered_label_value accepts a value for the field "nomor",
    it returns the value unchanged, and the value starts with a digit and
    contains a slash or a hyphen. *)
Theorem filtered_nomor_value (v : option string) (r : string) :
  _filtered_label_value v "nomor" = Some r ->
  v = Some r
  /\ (exists d rest, r = String d rest /\ is_digit d = true)
  /\ sexists slash_or_hyphen r = true.
Proof.
  unfold _filtered_label_value. destruct v as [v|]; [|discriminate].
  destruct (negb (truthy_str v)); [discriminate|]. cbn [String.eqb].
  change (String.eqb "nomor" "nomor") with true. cbv iota.
  destruct (mem_str (strip (lower v)) blacklist_words); [discriminate|].
  destruct (found plain re_digit_sep v) eqn:Ef; [|discriminate].
  destruct (matches plain re_starts_digit v) eqn:Em; [|discriminate].
  cbn [negb]. intros H. injection H as <-. split; [reflexivity|]. split.
  - unfold matches, rmatch, match_here, re_starts_digit in Em.
    cbn [seqs run start_state m_pos Nat.eqb] in Em. unfold one_char in Em.
    cbn [m_rest] in Em. destruct v as [|d rest]; [discriminate|].
    unfold digit in Em. cbn [run] in Em. unfold one_char in Em.
    cbn [m_rest start_state] in Em.
    rewrite digit_class in Em. destruct (is_digit d) eqn:Ed; [|discriminate].
    now exists d, rest.
  - apply (found_needs plain slash_or_hyphen re_digit_sep v);
      [vm_compute; reflexivity | exact Ef].
Qed.

Lemma filtered_nomor_value_witness :
  exists d rest, "655-HM.03.04" = String d rest /\ is_digit d = true.
Proof.
  apply (filtered_nomor_value (Some "655-HM.03.04") "655-HM.03.04").
  vm_compute. reflexivity.
Defined.

(** ** The number is never the empty string *)

Lemma strip_by_keeps_head (p : ascii -> bool) (c : ascii) (rest : string) :
  p c = false -> truthy_str (strip_by p (String c rest)) = true.
Proof.
  intros Hc. unfold strip_by. cbn [lstrip_by]. rewrite Hc.
  now destruct (rstrip_by_keeps_head p c rest Hc) as [r' ->].
Qed.

Lemma truthy_length (s : string) : 0 < String.length s -> truthy_str s = true.
Proof. destruct s; cbn; [lia | reflexivity]. Qed.

Lemma truthy_app_r (a b : string) : truthy_str b = true -> truthy_str (a ++ b) = true.
Proof. destruct a; [easy | reflexivity]. Qed.

Lemma digit_unstripped (chars : string) (c : ascii) :
  sforall (fun x => negb (is_digit x)) chars = true ->
  is_digit c = true -> mem_c c chars = false.
Proof.
  intros H Hc. unfold mem_c. induction chars as [|x chars IH]; [reflexivity|].
  cbn [sforall sexists] in *. apply andb_prop in H. destruct H as [Hx H].
  rewrite (IH H), orb_false_r. destruct (Ascii.eqb c x) eqn:E; [|reflexivity].
  apply Ascii.eqb_eq in E. subst x. now rewrite Hc in Hx.
Qed.

Lemma label_candidates_truthy (T : string) (c : candidate) :
  In c (label_candidates T) -> truthy_str (fst c) = true.
Proof.
  unfold label_candidates.
  destruct (dict_get "nomor" (extract_label_block_values T)) as [v|]; [|intros []].
  destruct (negb (truthy_str v)); [intros []|].
  match goal with
  | |- In _ (if (3 <? String.length ?n) && _ && _ then _ else _) -> _ =>
      destruct (3 <? String.length n) eqn:E; cbn [andb]; [|intros []];
      destruct (found plain digit n && found plain re_separator n);
      [|intros []]
  end.
  intros [<- | []]. cbn [fst]. apply truthy_length. apply Nat.ltb_lt in E. lia.
Qed.

Lemma pattern_candidates_truthy (T : string) (c : candidate) :
  In c (pattern_candidates T) -> truthy_str (fst c) = true.
Proof.
  unfold pattern_candidates. intros H. apply in_flat_map in H.
  destruct H as [[fl pat] [_ H]].
  destruct (search fl pat T); [|destruct H].
  match type of H with
  | In _ (if (3 <? String.length ?n) && _ then _ else _) =>
      destruct (3 <? String.length n) eqn:E; cbn [andb] in H; [|destruct H];
      destruct (negb (matches plain re_date_like n)); [|destruct H]
  end.
  destruct H as [<- | []]. cbn [fst]. apply truthy_length.
  apply Nat.ltb_lt in E. lia.
Qed.

Lemma scan_line_truthy (idx : nat) (l : string) (c : candidate) :
  In c (scan_line idx l) -> truthy_str (fst c) = true.
Proof.
  unfold scan_line. destruct (negb (truthy_str l) || is_label l); [intros []|].
  intros H. apply in_app_or in H. destruct H as [H | H].
  - apply in_flat_map in H. destruct H as [token [_ H]].
    destruct (matches plain re_token token) eqn:Em; cbn [andb] in H; [|destruct H].
    destruct (negb (matches plain re_date_like token)); [|destruct H].
    destruct H as [<- | []]. cbn [fst].
    destruct (matches_bol_cls plain false [CDigit] _ token Em)
      as [d [rest [-> Hd]]].
    rewrite digit_class in Hd.
    apply strip_by_keeps_head. now apply digit_unstripped.
  - destruct (search plain re_multi_token l); [|destruct H].
    destruct H as [<- | []]. cbn [fst]. apply truthy_app_r. reflexivity.
Qed.

Lemma scan_candidates_truthy (T : string) (c : candidate) :
  In c (scan_candidates T) -> truthy_str (fst c) = true.
Proof.
  unfold scan_candidates. intros H. apply in_flat_map in H.
  destruct H as [[idx l] [_ H]]. now apply scan_line_truthy in H.
Qed.

Lemma filename_candidates_truthy (filename : option string) (c : candidate) :
  In c (filename_candidates filename) -> truthy_str (fst c) = true.
Proof.
  unfold filename_candidates. destruct filename as [fname|]; [|intros []].
  destruct (negb (truthy_str fname)); [intros []|].
  destruct (split_ws (rsplit_once_head "." fname)) as [|part0 parts]; [intros []|].
  destruct (matches plain re_filename_nomor part0) eqn:Em; [|intros []].
  intros [<- | []]. cbn [fst].
  destruct (matches_bol_cls plain false [CDigit] _ part0 Em)
    as [d [rest [-> Hd]]].
  rewrite digit_class in Hd. apply strip_by_keeps_head.
  apply negb_true_iff.
  apply (only_spec is_digit (fun c => negb (is_space c)));
    [vm_compute; reflexivity | exact Hd].
Qed.

Lemma first_max_In (l : list candidate) (c : candidate) :
  first_max l = Some c -> In c l.
Proof.
  intros H. destruct (first_max_spec l c H) as [before [after [-> _]]].
  apply in_or_app. right. now left.
Qed.

Lemma extract_nomor_surat_truthy (text : string) (filename : option string)
      (n : string) :
  extract_nomor_surat text filename = Some n -> truthy_str n = true.
Proof.
  rewrite extract_nomor_surat_first_max.
  destruct (first_max _) as [c|] eqn:E; [|discriminate].
  cbn [option_map]. intros H. injection H as <-.
  apply first_max_In in E. unfold all_candidates in E.
  apply in_app_or in E. destruct E as [E | E];
    [now apply label_candidates_truthy in E|].
  apply in_app_or in E. destruct E as [E | E];
    [now apply pattern_candidates_truthy in E|].
  apply in_app_or in E. destruct E as [E | E];
    [now apply scan_candidates_truthy in E
    | now apply filename_candidates_truthy in E].
Qed.

(** X18.  extract_nomor_surat never returns an empty string, so the number
    stored by upload_document is the extracted number when there is one and
    the sentinel "TANPA-NOMOR" exactly when extraction returned None. *)
Theorem nomor_sentinel_iff_not_found
        (ml : option (string -> option (string * Q)))
        (locale_month : Z -> string) (text : string) (filename : option string) :
  extract_nomor_surat text filename <> Some ""
  /\ nomor_final (parse_metadata ml locale_month text filename)
     = match extract_nomor_surat text filename with
       | Some n => n
       | None => "TANPA-NOMOR"
       end.
Proof.
  split.
  - intros H. apply extract_nomor_surat_truthy in H. discriminate H.
  - unfold nomor_final, parse_metadata, parse_metadata_with.
    destruct (detect_jenis _ _ _ _) as [[j c] m]. cbn [nomor].
    destruct (extract_nomor_surat text filename) as [n|] eqn:E; [|reflexivity].
    now rewrite (extract_nomor_surat_truthy text filename n E).
Qed.

(** ** Length of the subject *)

Lemma sanitize_perihal_length (value c : string) :
  _sanitize_perihal value = Some c -> 5 <= String.length c.
Proof.
  unfold _sanitize_perihal.
  repeat match goal with
         | |- context [if ?b then None else _] => destruct b eqn:?
         end; try discriminate.
  intros H. injection H as <-.
  match goal with
  | H : (String.length ?x <? 5) || _ = false |- _ =>
      apply orb_false_iff in H; destruct H as [H _]; apply Nat.ltb_ge in H
  end.
  assumption.
Qed.

Lemma nonempty_some (o : option string) (c : string) :
  nonempty o = Some c -> o = Some c.
Proof.
  destruct o as [s|]; cbn; [|discriminate]. destruct (truthy_str s); [easy | discriminate].
Qed.

Lemma perihal_keyword_length (lines : list string) (c : string) :
  perihal_keyword lines = Some c -> 10 < String.length c.
Proof.
  induction lines as [|l lines IH]; cbn [perihal_keyword]; [discriminate|].
  destruct (found ignorecase re_keywords l); [|exact IH].
  destruct (nonempty (_sanitize_perihal (strip l))) as [s|]; [|exact IH].
  destruct (10 <? String.length s) eqn:E; [|exact IH].
  intros H. injection H as <-. now apply Nat.ltb_lt.
Qed.

Lemma perihal_direct_length (T c : string) :
  perihal_direct T = Some c -> 5 <= String.length c.
Proof.
  unfold perihal_direct. destruct (search ignorecase re_hal T); [|discriminate].
  destruct (collect_direct _ _); [discriminate|].
  intros H. apply nonempty_some in H. now apply sanitize_perihal_length in H.
Qed.

Lemma perihal_filename_length (filename : option string) (c : string) :
  perihal_filename filename = Some c -> 3 < String.length c.
Proof.
  unfold perihal_filename. destruct filename as [fname|]; [|discriminate].
  destruct (negb (truthy_str fname)); [discriminate|].
  destruct (rmatch plain re_filename_perihal _); [|discriminate].
  match goal with
  | |- context [if 3 <? String.length ?x then _ else _] =>
      destruct (3 <? String.length x) eqn:E; [|discriminate]
  end.
  intros H. injection H as <-. now apply Nat.ltb_lt.
Qed.

Lemma perihal_fallbacks_length (T : string) (filename : option string)
      (p : string) :
  first_some (perihal_direct T)
    (first_some (perihal_keyword (firstn 35 (skipn 5 (splitlines T))))
                (perihal_filename filename)) = Some p ->
  4 <= String.length p
  /\ (perihal_filename filename = None -> 5 <= String.length p).
Proof.
  destruct (perihal_direct T) as [c|] eqn:E1; cbn [first_some].
  - intros H. injection H as <-. apply perihal_direct_length in E1. lia.
  - destruct (perihal_keyword _) as [c|] eqn:E2; cbn [first_some].
    + intros H. injection H as <-. apply perihal_keyword_length in E2. lia.
    + intros H. pose proof (perihal_filename_length filename p H) as Hl.
      split; [lia|]. intros Hn. rewrite Hn in H. discriminate H.
Qed.

(** X19.  A subject returned by extract_perihal has at least 4 characters,
    and at least 5 unless it comes from the file name. *)
Theorem extract_perihal_length (text : string) (filename : option string)
        (p : string) :
  extract_perihal text filename = Some p ->
  4 <= String.length p
  /\ (perihal_filename filename = None -> 5 <= String.length p).
Proof.
  unfold extract_perihal.
  set (T := _clean_text (preclean text)).
  destruct (dict_get "perihal" (extract_label_block_values T)) as [v|];
    [destruct (truthy_str v);
     [destruct (nonempty (_sanitize_perihal v)) as [s|] eqn:E1|]|];
    cbn [first_some]; try apply perihal_fallbacks_length.
  intros H. injection H as <-. apply nonempty_some in E1.
  apply sanitize_perihal_length in E1. lia.
Qed.

Lemma extract_perihal_length_witness :
  4 <= String.length "Undangan Rapat".
Proof.
  apply (extract_perihal_length "Hal: Undangan Rapat" None "Undangan Rapat").
  vm_compute. reflexivity.
Defined.

(** ** One character of a class replaced by a space *)

Lemma measures_cls (fl : flags) (negated : bool) (items : list citem) :
  measures fl (Cls negated items) (head_len (cls_match fl negated items)).
Proof.
  apply lands_measures. intros must prev s pos.
  cbn [run]. unfold one_char, head_len. cbn [m_rest start_state].
  destruct s as [|c s]; [reflexivity|].
  destruct (cls_match fl negated items c); [|reflexivity].
  unfold accept, eat. cbn [m_pos m_caps start_state].
  assert (Hne : (S pos =? pos) = false) by (apply Nat.eqb_neq; lia).
  rewrite Hne, andb_false_r. eexists. split; [reflexivity|].
  cbn. split; [lia | reflexivity].
Qed.

Lemma scan_head_len (p : ascii -> bool) (fuel : nat) (s : string) :
  String.length s < fuel -> scan (head_len p) " " fuel s = blot p s.
Proof.
  revert s. induction fuel as [|fuel IH]; intros s Hf; [lia|].
  destruct s as [|c s]; [reflexivity|]. cbn [String.length] in Hf.
  cbn [scan head_len]. unfold blot. cbn [smap].
  destruct (p c); cbn [drop append]; f_equal; apply IH; lia.
Qed.

Lemma sub_cls_blot (fl : flags) (negated : bool) (items : list citem)
      (s : string) :
  sub fl (Cls negated items) (fun _ => " ") s
  = blot (cls_match fl negated items) s.
Proof.
  unfold sub. rewrite (sub_go_scan fl _ _ " " (measures_cls fl negated items)).
  apply scan_head_len. lia.
Qed.

Lemma sforall_blot (q p : ascii -> bool) (s : string) :
  (forall c, q (if p c then " "%char else c) = true) ->
  sforall q (blot p s) = true.
Proof.
  intros H. induction s as [|c s IH]; [reflexivity|].
  unfold blot in *. cbn [smap sforall]. now rewrite H, IH.
Qed.

Lemma blot_fixed (p : ascii -> bool) (s : string) :
  sforall (fun c => negb (p c)) s = true -> blot p s = s.
Proof.
  induction s as [|c s IH]; [reflexivity|]. cbn [sforall]. intros H.
  apply andb_prop in H. destruct H as [Hc Hs]. unfold blot in *. cbn [smap].
  rewrite (IH Hs). apply negb_true_iff in Hc. now rewrite Hc.
Qed.

Lemma sforall_recased (q : ascii -> bool) (s t : string) :
  caseless q = true -> recased s t -> sforall q s = true -> sforall q t = true.
Proof.
  intros Hq. revert t. induction s as [|c s IH]; intros [|d t];
    cbn [recased sforall]; try easy.
  intros [E H] Hs. apply andb_prop in Hs. destruct Hs as [Hc Hs].
  now rewrite (caseless_spec q c d Hq E), Hc, (IH t H Hs).
Qed.

Lemma sforall_impl (f g : ascii -> bool) (s : string) :
  (forall c, f c = true -> g c = true) ->
  sforall f s = true -> sforall g s = true.
Proof.
  intros H. induction s as [|c s IH]; [reflexivity|]. cbn [sforall].
  intros Hs. apply andb_prop in Hs. destruct Hs as [Hc Hs].
  now rewrite (H c Hc), IH.
Qed.

(** ** [normalize_person_name] *)

Lemma normalize_person_name_cleaned (v : string) :
  exists cleaned,
    strip cleaned = cleaned /\ packed spacey cleaned = true
    /\ sforall name_char cleaned = true
    /\ normalize_person_name (Some v)
       = if negb (truthy_str v) then None
         else if negb (truthy_str cleaned) then None
         else if isupper cleaned then Some (title cleaned)
         else Some cleaned.
Proof.
  unfold normalize_person_name, re_not_name_char.
  rewrite sub_cls_blot. fold not_name_char.
  set (y := blot not_name_char v).
  unfold sub, re_spaces, space.
  rewrite (sub_go_scan plain _ _ " " (measures_plus_cls plain false [CSpace])).
  fold spacey. fold (pack spacey (2 * String.length y + 2) y).
  eexists. split; [|split; [|split; [|reflexivity]]].
  - apply strip_by_idem.
  - apply packed_strip_by, pack_packed; [exact spacey_space | lia].
  - apply sforall_strip_by. apply sforall_scan; [reflexivity|].
    apply sforall_blot. intros c.
    exact (ascii_forall
             (fun c => name_char (if not_name_char c then " "%char else c))
             c eq_refl).
Qed.

Lemma normalize_person_name_fixed (r : string) :
  truthy_str r = true -> strip r = r -> packed spacey r = true ->
  sforall name_char r = true -> (isupper r = true -> title r = r) ->
  normalize_person_name (Some r) = Some r.
Proof.
  intros Hne Hs Hp Hn Ht.
  unfold normalize_person_name, re_not_name_char.
  rewrite sub_cls_blot. fold not_name_char.
  rewrite blot_fixed.
  2:{ apply (sforall_impl name_char); [|exact Hn]. intros c.
      apply (only_spec name_char (fun c => negb (not_name_char c))).
      vm_compute. reflexivity. }
  unfold sub, re_spaces, space.
  rewrite (sub_go_scan plain _ _ " " (measures_plus_cls plain false [CSpace])).
  fold spacey. fold (pack spacey (2 * String.length r + 2) r).
  rewrite (pack_fixed spacey _ r Hp), Hs, Hne. cbn [negb].
  destruct (isupper r); [now rewrite Ht | reflexivity].
Qed.

(** X20.  When normalize_person_name returns a name, it is not empty,
    consists only of ASCII letters, spaces, dots, commas, apostrophes and
    hyphens, has no leading or trailing whitespace and no two consecutive
    spaces. *)
Theorem normalize_person_name_shape (v : option string) (r : string) :
  normalize_person_name v = Some r ->
  r <> "" /\ sforall name_char r = true /\ strip r = r
  /\ contains "  " r = false.
Proof.
  destruct v as [v|]; [|discriminate].
  destruct (normalize_person_name_cleaned v) as [cleaned [Hs [Hp [Hn ->]]]].
  destruct (negb (truthy_str v)); [discriminate|].
  destruct (truthy_str cleaned) eqn:Hne; [|discriminate]. cbn [negb].
  intros H.
  assert (Hr : recased cleaned r).
  { destruct (isupper cleaned); injection H as <-;
      [apply recased_refl_title | apply recased_refl]. }
  split; [|split; [|split]].
  - intros ->. destruct cleaned; [discriminate Hne | exact Hr].
  - apply (sforall_recased name_char cleaned);
      [vm_compute; reflexivity | assumption | assumption].
  - apply (strip_by_recased is_space cleaned);
      [vm_compute; reflexivity | assumption | assumption].
  - apply (packed_spaces spacey spacey_space).
    apply (packed_recased spacey cleaned);
      [vm_compute; reflexivity | assumption | assumption].
Qed.

Lemma normalize_person_name_shape_witness :
  sforall name_char "DR. H. AHMAD, S.Sos" = true.
Proof.
  apply (normalize_person_name_shape (Some "DR. H. AHMAD, S.Sos 123")
                                     "DR. H. AHMAD, S.Sos").
  vm_compute. reflexivity.
Defined.

Lemma normalize_person_name_idempotent (v : option string) :
  normalize_person_name (normalize_person_name v) = normalize_person_name v.
Proof.
  destruct v as [v|]; [|reflexivity].
  destruct (normalize_person_name_cleaned v) as [cleaned [Hs [Hp [Hn ->]]]].
  destruct (negb (truthy_str v)); [reflexivity|].
  destruct (truthy_str cleaned) eqn:Hne; [|reflexivity]. cbn [negb].
  destruct (isupper cleaned) eqn:Hu.
  - pose proof (recased_refl_title false cleaned) as Hr. fold (title cleaned) in Hr.
    apply normalize_person_name_fixed.
    + now rewrite title_truthy.
    + apply (strip_by_recased is_space cleaned);
        [vm_compute; reflexivity | assumption | assumption].
    + apply (packed_recased spacey cleaned);
        [vm_compute; reflexivity | assumption | assumption].
    + apply (sforall_recased name_char cleaned);
        [vm_compute; reflexivity | assumption | assumption].
    + intros _. apply title_from_idem.
  - apply normalize_person_name_fixed; try assumption.
    rewrite Hu. discriminate.
Qed.

(** ** [extract_instansi_from_role] *)

Lemma instansi_shape (line : option string) (r : string) :
  extract_instansi_from_role line = Some r ->
  truthy_str r = true /\ strip_by instansi_trim r = r.
Proof.
  unfold extract_instansi_from_role.
  destruct (_normalize_line line) as [cleaned|]; [|discriminate].
  destruct (negb (truthy_str cleaned)); [discriminate|].
  destruct (search ignorecase re_role cleaned) as [m|]; [|discriminate].
  unfold strip_chars. fold instansi_trim.
  set (instansi := strip_by instansi_trim (group_or_empty m 2)).
  destruct (truthy_str instansi) eqn:Hne; [|discriminate]. cbn [negb].
  intros H.
  assert (Hr : recased instansi r).
  { destruct (isupper instansi); injection H as <-;
      [apply recased_refl_title | apply recased_refl]. }
  split.
  - destruct instansi, r; try easy.
  - apply (strip_by_recased instansi_trim instansi);
      [vm_compute; reflexivity | assumption | apply strip_by_idem].
Qed.

(** X21.  When extract_instansi_from_role returns an institution, it is not
    empty and neither starts nor ends with a space, dot, comma, colon or
    hyphen. *)
Theorem extract_instansi_from_role_shape (line : option string) (r : string) :
  extract_instansi_from_role line = Some r ->
  r <> "" /\ strip_chars " .,:-" r = r.
Proof.
  intros H. destruct (instansi_shape line r H) as [H1 H2]. split; [|exact H2].
  intros ->. discriminate H1.
Qed.

Lemma extract_instansi_from_role_shape_witness :
  strip_chars " .,:-" "Dinas Pendidikan" = "Dinas Pendidikan".
Proof.
  apply (extract_instansi_from_role_shape
           (Some "  KEPALA DINAS   PENDIDIKAN. ") "Dinas Pendidikan").
  vm_compute. reflexivity.
Defined.

(** ** [extract_signature_instansi_candidates] *)

Lemma last_lines_length {A : Type} (window : nat) (lines : list A) :
  0 < window -> List.length (last_lines window lines) <= window.
Proof.
  intros H. unfold last_lines. destruct (window =? 0) eqn:E.
  - apply Nat.eqb_eq in E. lia.
  - rewrite length_skipn. lia.
Qed.

(** X22.  The candidates of extract_signature_instansi_candidates are
    pairwise distinct, each is non-empty and trimmed of spaces, dots,
    commas, colons and hyphens, and with a positive window there are at most
    window of them. *)
Theorem signature_instansi_candidates_distinct (text : string) (window : nat) :
  NoDup (extract_signature_instansi_candidates text window)
  /\ Forall (fun c => c <> "" /\ strip_chars " .,:-" c = c)
            (extract_signature_instansi_candidates text window)
  /\ (0 < window ->
      List.length (extract_signature_instansi_candidates text window) <= window).
Proof.
  unfold extract_signature_instansi_candidates.
  set (tail := last_lines window (nonblank_lines (_clean_text text))).
  set (step := fun candidates line =>
                 match extract_instansi_from_role (Some line) with
                 | Some instansi =>
                     if truthy_str instansi && negb (mem_str instansi candidates)
                     then (candidates ++ [instansi])%list
                     else candidates
                 | None => candidates
                 end).
  assert (H : forall l acc,
             NoDup acc ->
             Forall (fun c => c <> "" /\ strip_chars " .,:-" c = c) acc ->
             NoDup (fold_left step l acc)
             /\ Forall (fun c => c <> "" /\ strip_chars " .,:-" c = c)
                       (fold_left step l acc)
             /\ List.length (fold_left step l acc)
                <= List.length acc + List.length l).
  { induction l as [|line l IH]; intros acc Hd Hf; cbn [fold_left].
    - repeat split; [assumption | assumption | cbn; lia].
    - assert (Hstep : NoDup (step acc line)
                      /\ Forall (fun c => c <> "" /\ strip_chars " .,:-" c = c)
                                (step acc line)
                      /\ List.length (step acc line) <= S (List.length acc)).
      { unfold step.
        destruct (extract_instansi_from_role (Some line)) as [i|] eqn:Ei;
          [|repeat split; [assumption | assumption | lia]].
        destruct (truthy_str i && negb (mem_str i acc)) eqn:Ec;
          [|repeat split; [assumption | assumption | lia]].
        apply andb_prop in Ec. destruct Ec as [_ Hm].
        apply negb_true_iff in Hm.
        split; [|split].
        - apply NoDup_app; [assumption | repeat constructor; intros [] | ].
          intros x Hx [<- | []]. apply mem_str_In in Hx. congruence.
        - apply Forall_app. split; [assumption|]. constructor; [|constructor].
          destruct (instansi_shape _ _ Ei) as [H1 H2]. split; [|exact H2].
          intros ->. discriminate H1.
        - rewrite List.length_app. cbn. lia. }
      destruct Hstep as [S1 [S2 S3]].
      destruct (IH (step acc line) S1 S2) as [I1 [I2 I3]].
      repeat split; [assumption | assumption | cbn [List.length]; lia]. }
  destruct (H tail [] (NoDup_nil _) (Forall_nil _)) as [H1 [H2 H3]].
  split; [exact H1|]. split; [exact H2|]. intros Hw.
  pose proof (last_lines_length window (nonblank_lines (_clean_text text)) Hw).
  cbn [List.length] in H3. fold tail in H0. lia.
Qed.

(** ** [resolve_pengirim] *)

Lemma first_truthy_truthy (l : list (option string)) (c : string) :
  first_truthy l = Some c -> truthy_str c = true.
Proof.
  unfold first_truthy. destruct (find truthy_opt l) as [o|] eqn:E; [|discriminate].
  apply find_some in E. destruct E as [_ E]. intros ->. exact E.
Qed.

Lemma or_opt_truthy (a b : option string) (c : string) :
  truthy_opt b = true -> or_opt a b = Some c -> truthy_str c = true.
Proof.
  unfold or_opt. intros Hb. destruct (truthy_opt a) eqn:Ha; intros ->; assumption.
Qed.

Lemma normalize_line_truthy (v : option string) (r : string) :
  _normalize_line v = Some r -> truthy_str r = true.
Proof.
  destruct v as [v|]; [|discriminate].
  destruct (normalize_line_cleaned v) as [cleaned [Hs [Hp ->]]].
  destruct (negb (truthy_str v)); [discriminate|].
  destruct (truthy_str cleaned) eqn:Hne; [|discriminate]. cbn [negb].
  destruct (isupper cleaned); intros H; injection H as <-;
    [now rewrite title_truthy | exact Hne].
Qed.

(** X23.  resolve_pengirim never returns an empty string; for jenis "keluar"
    it returns "Kelurahan Pela Mampang" whatever the other arguments are;
    for jenis "masuk" with a non-empty role line it always returns a sender. *)
Theorem resolve_pengirim_sender
        (jenis fallback_pengirim instansi_hint signer_name role_line
           : option string)
        (signature_instansi : option (list string)) :
  resolve_pengirim jenis fallback_pengirim instansi_hint signer_name role_line
                   signature_instansi <> Some ""
  /\ (jenis = Some "keluar" ->
      resolve_pengirim jenis fallback_pengirim instansi_hint signer_name
                       role_line signature_instansi
      = Some "Kelurahan Pela Mampang")
  /\ (jenis = Some "masuk" -> truthy_opt role_line = true ->
      resolve_pengirim jenis fallback_pengirim instansi_hint signer_name
                       role_line signature_instansi <> None).
Proof.
  split; [|split].
  - unfold resolve_pengirim.
    destruct (eqb_opt jenis (Some "keluar")); [discriminate|].
    destruct (eqb_opt jenis (Some "masuk")).
    + destruct (first_truthy _) as [c|] eqn:E.
      * intros H. injection H as ->. now apply first_truthy_truthy in E.
      * destruct (truthy_opt role_line) eqn:Hr; [|discriminate].
        intros H. now apply or_opt_truthy in H.
    + destruct (first_truthy _) as [c|] eqn:E.
      * intros H. injection H as ->. now apply first_truthy_truthy in E.
      * unfold or_opt. destruct (truthy_opt fallback_pengirim) eqn:Hf.
        -- intros H. rewrite H in Hf. discriminate Hf.
        -- intros H. now apply normalize_line_truthy in H.
  - intros ->. reflexivity.
  - intros -> Hr. unfold resolve_pengirim.
    change (eqb_opt (Some "masuk") (Some "keluar")) with false.
    change (eqb_opt (Some "masuk") (Some "masuk")) with true. cbv iota.
    destruct (first_truthy _); [discriminate|]. rewrite Hr.
    unfold or_opt. destruct (truthy_opt (_normalize_line role_line)) eqn:E.
    + intros H. rewrite H in E. discriminate E.
    + intros H. rewrite H in Hr. discriminate Hr.
Qed.

(** ** Characters a substitution can bring in *)

Lemma one_char_clean (q f : ascii -> bool) (k : mstate -> option mstate)
      (st e : mstate) :
  one_char f k st = Some e -> clean q st ->
  exists st', clean q st' /\ k st' = Some e.
Proof.
  unfold one_char. destruct (m_rest st) as [|c rest] eqn:Er; [discriminate|].
  destruct (f c); [|discriminate].
  intros Hk [Hr Hc]. exists (eat st c rest). split; [|assumption].
  split; [|exact Hc]. cbn. rewrite Er in Hr. cbn in Hr.
  now apply andb_prop in Hr.
Qed.

Section RepLoopClean.

Variable q : ascii -> bool.
Variable body : (mstate -> option mstate) -> mstate -> option mstate.
Hypothesis body_clean :
  forall k st e, body k st = Some e -> clean q st ->
                 exists st', clean q st' /\ k st' = Some e.

Lemma rep_loop_clean (k : mstate -> option mstate) (greedy : bool) (lo : nat)
      (hi : option nat) (fuel count : nat) (st e : mstate) :
  rep_loop body k greedy lo hi fuel count st = Some e -> clean q st ->
  exists st', clean q st' /\ k st' = Some e.
Proof.
  revert count st. induction fuel as [|fuel IH]; intros count st; [discriminate|].
  cbn [rep_loop].
  set (more := if within hi count then _ else None).
  set (stop := if lo <=? count then k st else None).
  intros H Hst.
  assert (Hmore : more = Some e -> exists st', clean q st' /\ k st' = Some e).
  { unfold more. destruct (within hi count); [|discriminate].
    intros Hm. apply body_clean in Hm; [|exact Hst].
    destruct Hm as [st1 [C1 Hm]].
    destruct ((lo <=? count) && (m_pos st1 =? m_pos st)); [discriminate|].
    now apply IH in Hm. }
  assert (Hstop : stop = Some e -> exists st', clean q st' /\ k st' = Some e).
  { unfold stop. destruct (lo <=? count); [|discriminate].
    intros Hs. now exists st. }
  destruct greedy; unfold or_else in H.
  - destruct more; [now apply Hmore | now apply Hstop].
  - destruct stop; [now apply Hstop | now apply Hmore].
Qed.

End RepLoopClean.

Lemma run_clean (fl : flags) (q : ascii -> bool) (r : regex) :
  forall k st e,
    run fl r k st = Some e -> clean q st ->
    exists st', clean q st' /\ k st' = Some e.
Proof.
  induction r as [ |x|negated items| | | | |r1 IH1 r2 IH2|r1 IH1 r2 IH2
                  |greedy lo hi r1 IH1|n r1 IH1];
    intros k st e; cbn [run].
  - intros H C. now exists st.
  - apply one_char_clean.
  - apply one_char_clean.
  - apply one_char_clean.
  - destruct (m_pos st =? 0); [|discriminate]. intros H C. now exists st.
  - destruct (at_eol st); [|discriminate]. intros H C. now exists st.
  - destruct (xorb _ _); [|discriminate]. intros H C. now exists st.
  - intros H C. apply IH1 in H; [|exact C]. destruct H as [st1 [C1 H]].
    now apply IH2 in H.
  - unfold or_else. destruct (run fl r1 k st) as [e1|] eqn:E1.
    + intros H C. injection H as <-. now apply IH1 in E1.
    + intros H C. now apply IH2 in H.
  - intros H C. now apply (rep_loop_clean q (run fl r1) IH1) in H.
  - intros H C. apply IH1 in H; [|exact C]. destruct H as [st1 [[R1 C1] H]].
    exists (close_group n st st1). split; [|exact H].
    split; [exact R1|]. cbn. constructor; [|exact C1].
    cbn. apply sforall_take, C.
Qed.

Lemma match_here_clean (fl : flags) (q : ascii -> bool) (r : regex)
      (must : bool) (prev : option ascii) (s : string) (pos : nat) (m : mobj) :
  match_here fl r must prev s pos = Some m -> sforall q s = true ->
  clean_match q m.
Proof.
  unfold match_here. destruct (run fl r _ _) as [e|] eqn:E; [|discriminate].
  intros H Hs. injection H as <-.
  apply (run_clean fl q) in E; [|split; [exact Hs | constructor]].
  destruct E as [st' [[_ C] Ha]]. unfold accept in Ha.
  destruct (must && _); [discriminate|]. injection Ha as <-.
  split; [apply sforall_take, Hs | exact C].
Qed.

Lemma group_clean (q : ascii -> bool) (m : mobj) (n : nat) :
  clean_match q m -> sforall q (group_or_empty m n) = true.
Proof.
  intros [_ C]. unfold group_or_empty, group.
  induction (mo_caps m) as [|[i s] caps IH]; [reflexivity|].
  cbn [assoc]. apply Forall_cons_iff in C. destruct C as [Hs C].
  destruct (i =? n); [exact Hs | now apply IH].
Qed.

Lemma sub_go_clean (fl : flags) (q : ascii -> bool) (r : regex)
      (repl : mobj -> string) :
  (forall m, clean_match q m -> sforall q (repl m) = true) ->
  forall fuel must prev s pos,
    sforall q s = true -> sforall q (sub_go fl r repl fuel must prev s pos) = true.
Proof.
  intros Hrepl. induction fuel as [|fuel IH]; intros must prev s pos Hs;
    [exact Hs|].
  cbn [sub_go]. destruct (match_here fl r must prev s pos) as [m|] eqn:Em.
  - pose proof (match_here_clean fl q r must prev s pos m Em Hs) as Hm.
    destruct (mo_end m - pos =? 0); rewrite sforall_app, (Hrepl m Hm);
      apply IH; [exact Hs | now apply sforall_drop].
  - destruct s as [|c s]; [reflexivity|]. cbn [sforall] in *.
    apply andb_prop in Hs. destruct Hs as [-> Hs]. now apply IH.
Qed.

Lemma sub_clean (fl : flags) (q : ascii -> bool) (r : regex)
      (repl : mobj -> string) (s : string) :
  (forall m, clean_match q m -> sforall q (repl m) = true) ->
  sforall q s = true -> sforall q (sub fl r repl s) = true.
Proof. intros Hr Hs. unfold sub. now apply sub_go_clean. Qed.

Lemma replace_go_clean (q : ascii -> bool) (old new : string) (fuel : nat)
      (s : string) :
  sforall q new = true -> sforall q s = true ->
  sforall q (replace_go fuel old new s) = true.
Proof.
  intros Hn. revert s. induction fuel as [|fuel IH]; intros s Hs; [exact Hs|].
  cbn [replace_go]. destruct s as [|c s].
  - now destruct (startswith old "").
  - pose proof Hs as Hs'. cbn [sforall] in Hs'. apply andb_prop in Hs'.
    destruct Hs' as [Hc Hs'].
    destruct (startswith old (String c s)).
    + destruct old as [|o old].
      * rewrite sforall_app, Hn. cbn [sforall]. now rewrite Hc, IH.
      * rewrite sforall_app, Hn. apply IH. now apply sforall_drop.
    + cbn [sforall]. now rewrite Hc, IH.
Qed.

Lemma replace_clean (q : ascii -> bool) (old new s : string) :
  sforall q new = true -> sforall q s = true ->
  sforall q (replace old new s) = true.
Proof. intros. unfold replace. now apply replace_go_clean. Qed.

Lemma sforall_clean_text (q : ascii -> bool) (text : string) :
  sforall q repair_chars = true -> sforall q text = true ->
  sforall q (_clean_text text) = true.
Proof.
  intros Hq Ht. unfold _clean_text.
  destruct (truthy_str text); [|reflexivity]. cbn [negb].
  unfold repair_chars in Hq. cbn [sforall] in Hq.
  repeat (apply andb_prop in Hq; destruct Hq as [? Hq]).
  apply sforall_strip_by.
  apply sub_clean; [intros m _; cbn; now rewrite H|].
  apply sub_clean; [intros m _; cbn; now rewrite H0|].
  apply sub_clean.
  { intros m [Hm _]. unfold fix_nomor.
    apply replace_clean; [cbn; now rewrite H4|].
    apply replace_clean; [cbn; now rewrite H3 | exact Hm]. }
  apply sub_clean.
  { intros m Hm. rewrite sforall_app, (group_clean q m 1 Hm). cbn.
    now rewrite H0, H1. }
  apply sub_clean.
  { intros m Hm. rewrite sforall_app, (group_clean q m 1 Hm). cbn.
    now rewrite H1. }
  unfold replacements. cbn [fold_left].
  repeat (apply replace_clean;
          [cbn; rewrite ?H, ?H0, ?H1, ?H2, ?H3, ?H4, ?H5, ?H6; reflexivity|]).
  exact Ht.
Qed.

Lemma mem_c_app (c : ascii) (a b : string) :
  mem_c c (a ++ b) = mem_c c a || mem_c c b.
Proof. unfold mem_c. apply sexists_app. Qed.

Lemma sforall_mem_self (pre s : string) :
  sforall (fun c => mem_c c (pre ++ s)) s = true.
Proof.
  revert pre. induction s as [|c s IH]; intros pre; [reflexivity|].
  cbn [sforall]. rewrite mem_c_app. unfold mem_c at 2. cbn [sexists].
  rewrite Ascii.eqb_refl, orb_true_r. cbn [andb].
  specialize (IH (pre ++ String c "")).
  rewrite append_assoc in IH. exact IH.
Qed.

(** X24.  Every character of the result of _clean_text is a character of the
    input or one of the line feed, the space, the slash, the hyphen and the
    digits 0, 1, 5 and 8: the normalizer brings in no other character. *)
Theorem clean_text_alphabet (text : string) :
  sforall (fun c => mem_c c text || mem_c c repair_chars) (_clean_text text)
  = true.
Proof.
  apply sforall_clean_text.
  - apply (sforall_impl (fun c => mem_c c repair_chars)).
    + intros c H. now rewrite H, orb_true_r.
    + apply (sforall_mem_self "").
  - apply (sforall_impl (fun c => mem_c c text)).
    + intros c H. now rewrite H.
    + apply (sforall_mem_self "").
Qed.

Lemma clean_text_free_of (chars text : string) :
  free_of chars repair_chars = true -> free_of chars text = true ->
  free_of chars (_clean_text text) = true.
Proof. unfold free_of. apply sforall_clean_text. Qed.

Lemma search_without (fl : flags) (P : ascii -> bool) (r : regex) (s : string) :
  needs fl P r = true -> sexists P s = false -> search fl r s = None.
Proof. intros Hn Hs. unfold search. now apply (search_from_without fl P). Qed.

(** X25.  A text without the digit 2 yields no date: extract_tanggal returns
    None and parse_metadata leaves tanggal_surat and tahun empty, so a
    letter dated before 2000 such as "5 Mei 1999" is stored without date and
    year. *)
Theorem no_date_without_2 (text : string) :
  free_of "2" text = true ->
  extract_tanggal text = None
  /\ forall ml locale_month filename,
       tanggal_surat (parse_metadata ml locale_month text filename) = None
       /\ tahun (parse_metadata ml locale_month text filename) = None.
Proof.
  intros Hf.
  assert (Hc : sexists (Ascii.eqb "2") (_clean_text text) = false).
  { apply (free_of_sexists "2");
      [intros c E; apply Ascii.eqb_eq in E; subst c; reflexivity|].
    apply clean_text_free_of; [vm_compute; reflexivity | exact Hf]. }
  assert (He : extract_tanggal text = None).
  { unfold extract_tanggal, extract_tanggal_traced, try_pattern1, try_pattern2,
      try_pattern3, try_fallback.
    rewrite (search_without ignorecase (Ascii.eqb "2") re_tanggal_id _
               ltac:(vm_compute; reflexivity) Hc).
    rewrite (search_without plain (Ascii.eqb "2") re_tanggal_numeric _
               ltac:(vm_compute; reflexivity) Hc).
    rewrite (search_without ignorecase (Ascii.eqb "2") re_tanggal_label _
               ltac:(vm_compute; reflexivity) Hc).
    rewrite (search_without plain (Ascii.eqb "2") re_tahun _
               ltac:(vm_compute; reflexivity) Hc).
    reflexivity. }
  split; [exact He|]. intros ml locale_month filename.
  unfold parse_metadata, parse_metadata_with.
  destruct (detect_jenis ml text _ filename) as [[j c] m].
  cbn [tanggal_surat tahun]. rewrite He. split; reflexivity.
Qed.

Lemma no_date_without_2_witness :
  free_of "2" "Jakarta, 5 Mei 1999" = true
  /\ extract_tanggal "Jakarta, 5 Mei 1999" = None.
Proof.
  split; [reflexivity|].
  apply (no_date_without_2 "Jakarta, 5 Mei 1999"). reflexivity.
Defined.

(** ** Text extraction *)

Section ExtractorFacts.

Variable temp_upload_path : path.
Variable TMP_UPLOAD_NAME : string.
Variable TEXT_FILENAME : string.
Variable extract_text_from_pdf : path -> outcome (option string * bool).
Variable extract_text_from_docx : path -> outcome (option string).
Variable external_ocr_pdf : option (path -> string + string).
Variable ocr_pdf_to_text : path -> internal_ocr.

(** X26.  extract_text_and_save reports ocr_used only for a PDF whose parser
    flagged it as scanned and found fewer than 50 words; the returned text
    and statistics are then those of the OCR run, and the text is not blank. *)
Theorem ocr_fallback_conditions (content mime_type : string) (base_dir : path)
        (temp_file_name : option string) (e : extraction)
        (effects : list fs_action) :
  extract_text_and_save temp_upload_path TMP_UPLOAD_NAME TEXT_FILENAME
    extract_text_from_pdf extract_text_from_docx external_ocr_pdf
    ocr_pdf_to_text content mime_type base_dir temp_file_name
  = Done e effects ->
  ocr_used e = true ->
  mime_type = PDF_MIME
  /\ exists tmp_path text,
       extract_text_from_pdf tmp_path = Returned (text, true)
       /\ List.length (split_ws (strip (or_empty text))) < 50
       /\ text_content e = fst (run_ocr external_ocr_pdf ocr_pdf_to_text tmp_path)
       /\ extraction_ocr_stats e = snd (run_ocr external_ocr_pdf ocr_pdf_to_text tmp_path)
       /\ strip (text_content e) <> "".
Proof.
  unfold extract_text_and_save. cbv zeta.
  destruct (String.eqb mime_type PDF_MIME) eqn:Em.
  - apply String.eqb_eq in Em.
    match goal with
    | |- context [extract_text_from_pdf ?p] => set (tmp := p)
    end.
    destruct (extract_text_from_pdf tmp) as [[text is_scanned]|] eqn:Ep;
      [|discriminate].
    destruct is_scanned; cbn [andb];
      [|intros H; injection H as <- _; discriminate].
    destruct (List.length (split_ws (strip (or_empty text))) <? 50) eqn:Ew;
      [|intros H; injection H as <- _; discriminate].
    destruct (run_ocr external_ocr_pdf ocr_pdf_to_text tmp) as [ocr_text ocr_stats] eqn:Eo.
    destruct (truthy_str ocr_text && (0 <? String.length (strip ocr_text)))
             eqn:Et; intros H; injection H as <- _; [|discriminate].
    intros _. split; [exact Em|]. exists tmp, text.
    split; [exact Ep|]. split; [now apply Nat.ltb_lt|].
    cbn [text_content extraction_ocr_stats]. rewrite Eo. cbn [fst snd].
    repeat split.
    apply andb_prop in Et. destruct Et as [_ Et]. apply Nat.ltb_lt in Et.
    intros Hs. rewrite Hs in Et. cbn in Et. lia.
  - destruct (String.eqb mime_type DOCX_MIME).
    + destruct (extract_text_from_docx _); intros H; injection H as <- _;
        discriminate.
    + intros H; injection H as <- _; discriminate.
Qed.

(** X27.  Taking the file-system calls to succeed, extract_text_and_save
    creates the temporary directory, writes the upload there, writes
    text.txt into base_dir exactly when the extracted text is not empty
    (returning its path, otherwise None) and finally removes the temporary
    file; only when the PDF parser raises does the function fail, leaving
    the temporary file behind. *)
Theorem extraction_files (content mime_type : string) (base_dir : path)
        (temp_file_name : option string) :
  exists tmp_path,
    match extract_text_and_save temp_upload_path TMP_UPLOAD_NAME TEXT_FILENAME
            extract_text_from_pdf extract_text_from_docx external_ocr_pdf
            ocr_pdf_to_text content mime_type base_dir temp_file_name with
    | Done e effects =>
        (text_content e = "" ->
         text_path e = None
         /\ effects = [Mkdir temp_upload_path; WriteBytes tmp_path content;
                       Unlink tmp_path])
        /\ (text_content e <> "" ->
            text_path e = Some (base_dir ++ [TEXT_FILENAME])%list
            /\ effects = [Mkdir temp_upload_path; WriteBytes tmp_path content;
                          WriteText (base_dir ++ [TEXT_FILENAME])%list
                                    (text_content e);
                          Unlink tmp_path])
    | Failed effects =>
        mime_type = PDF_MIME
        /\ extract_text_from_pdf tmp_path = Raised
        /\ effects = [Mkdir temp_upload_path; WriteBytes tmp_path content]
    end.
Proof.
  unfold extract_text_and_save. cbv zeta.
  match goal with
  | |- context [WriteBytes ?p content] => set (tmp := p)
  end.
  exists tmp.
  assert (Hfin : forall t u s,
             (text_content
                {| text_path := if truthy_str t
                                then Some (base_dir ++ [TEXT_FILENAME])%list
                                else None;
                   text_content := t; ocr_used := u;
                   extraction_ocr_stats := s |} = "" ->
              (if truthy_str t then Some (base_dir ++ [TEXT_FILENAME])%list
               else None) = None
              /\ ([Mkdir temp_upload_path; WriteBytes tmp content]
                    ++ match (if truthy_str t
                              then Some (base_dir ++ [TEXT_FILENAME])%list
                              else None) with
                       | Some p => [WriteText p t]
                       | None => []
                       end ++ [Unlink tmp])%list
                 = [Mkdir temp_upload_path; WriteBytes tmp content; Unlink tmp])
             /\ (text_content
                   {| text_path := if truthy_str t
                                   then Some (base_dir ++ [TEXT_FILENAME])%list
                                   else None;
                      text_content := t; ocr_used := u;
                      extraction_ocr_stats := s |} <> "" ->
                 (if truthy_str t then Some (base_dir ++ [TEXT_FILENAME])%list
                  else None) = Some (base_dir ++ [TEXT_FILENAME])%list
                 /\ ([Mkdir temp_upload_path; WriteBytes tmp content]
                       ++ match (if truthy_str t
                                 then Some (base_dir ++ [TEXT_FILENAME])%list
                                 else None) with
                          | Some p => [WriteText p t]
                          | None => []
                          end ++ [Unlink tmp])%list
                    = [Mkdir temp_upload_path; WriteBytes tmp content;
                       WriteText (base_dir ++ [TEXT_FILENAME])%list t;
                       Unlink tmp])).
  { intros t u s. cbn [text_content]. destruct t as [|c t]; cbn [truthy_str].
    - split; [intros _; split; reflexivity | intros H; now elim H].
    - split; [discriminate | intros _; split; reflexivity]. }
  destruct (String.eqb mime_type PDF_MIME) eqn:Em.
  - apply String.eqb_eq in Em.
    destruct (extract_text_from_pdf tmp) as [[text is_scanned]|] eqn:Ep;
      [|repeat split; assumption].
    destruct (is_scanned && _); [|apply Hfin].
    destruct (run_ocr _ _ _) as [ocr_text ocr_stats].
    destruct (truthy_str ocr_text && _); apply Hfin.
  - destruct (String.eqb mime_type DOCX_MIME); [|apply Hfin].
    destruct (extract_text_from_docx _); apply Hfin.
Qed.

End ExtractorFacts.

(** The extractor the application uses. *)
Section DefaultExtractor.

Variable temp_upload_path : path.
Variable TMP_UPLOAD_NAME : string.
Variable TEXT_FILENAME : string.
Variable extract_text_from_pdf : path -> outcome (option string * bool).
Variable extract_text_from_docx : path -> outcome (option string).
Variable d : deps.
Variable open : path -> list page + string.

(** X28.  With the default extractor (no external OCR function), the
    returned text has no leading or trailing whitespace, and when ocr_used
    is reported the statistics are those of ocr_pdf_to_text with at least
    one successful page. *)
Theorem default_extraction_text (content mime_type : string) (base_dir : path)
        (temp_file_name : option string) (e : extraction)
        (effects : list fs_action) :
  extract_text_and_save temp_upload_path TMP_UPLOAD_NAME TEXT_FILENAME
    extract_text_from_pdf extract_text_from_docx None (default_ocr d open)
    content mime_type base_dir temp_file_name
  = Done e effects ->
  strip (text_content e) = text_content e
  /\ (ocr_used e = true ->
      exists s, extraction_ocr_stats e = Some (OcrStats s)
                /\ 0 < stat_success_pages s).
Proof.
  unfold extract_text_and_save. cbv zeta.
  assert (Hstrip : forall t, strip (strip t) = strip t)
    by (intros t; apply strip_by_idem).
  destruct (String.eqb mime_type PDF_MIME).
  - match goal with
    | |- context [extract_text_from_pdf ?p] => set (tmp := p)
    end.
    destruct (extract_text_from_pdf tmp) as [[text is_scanned]|];
      [|discriminate].
    destruct (is_scanned && _);
      [|intros H; injection H as <- _; cbn; split; [apply Hstrip | discriminate]].
    unfold run_ocr, default_ocr.
    pose proof (ocr_no_success_no_text d (open tmp)) as Hempty.
    pose proof (ocr_text_stripped d (open tmp)) as Hs.
    destruct (Ocr.ocr_pdf_to_text d (open tmp)) as [ocr_text s].
    cbn [fst snd] in Hempty, Hs.
    destruct (truthy_str ocr_text && _) eqn:Et;
      intros H; injection H as <- _; cbn [text_content ocr_used extraction_ocr_stats];
      (split; [|try discriminate]); try apply Hstrip; try exact Hs.
    intros _. exists s. split; [reflexivity|].
    apply andb_prop in Et. destruct Et as [Et _].
    destruct (stat_success_pages s); [|lia].
    rewrite (Hempty eq_refl) in Et. discriminate Et.
  - destruct (String.eqb mime_type DOCX_MIME).
    + destruct (extract_text_from_docx _); intros H; injection H as <- _;
        cbn; (split; [|discriminate]); [apply Hstrip | reflexivity].
    + intros H; injection H as <- _. cbn. split; [reflexivity | discriminate].
Qed.

End DefaultExtractor.

Lemma ocr_fallback_conditions_witness :
  PDF_MIME = PDF_MIME
  /\ exists tmp_path text,
       scanned_pdf tmp_path = Returned (text, true)
       /\ List.length (split_ws (strip (or_empty text))) < 50
       /\ "Nomor: 12/SM/2024"
          = fst (run_ocr None (default_ocr all_deps one_page) tmp_path)
       /\ Some (OcrStats {| total_pages := 1; stat_success_pages := 1;
                            stat_failed_pages := 0; total_chars := 17;
                            error := None |})
          = snd (run_ocr None (default_ocr all_deps one_page) tmp_path)
       /\ strip "Nomor: 12/SM/2024" <> "".
Proof.
  apply (ocr_fallback_conditions
           ["tmp"] "upload" "text.txt" scanned_pdf no_docx None
           (default_ocr all_deps one_page) "%PDF" PDF_MIME ["tmp"] None
           {| text_path := Some ["tmp"; "text.txt"];
              text_content := "Nomor: 12/SM/2024"; ocr_used := true;
              extraction_ocr_stats :=
                Some (OcrStats {| total_pages := 1; stat_success_pages := 1;
                                  stat_failed_pages := 0; total_chars := 17;
                                  error := None |}) |}
           [Mkdir ["tmp"]; WriteBytes ["tmp"; "upload.pdf"] "%PDF";
            WriteText ["tmp"; "text.txt"] "Nomor: 12/SM/2024";
            Unlink ["tmp"; "upload.pdf"]]).
  - vm_compute. reflexivity.
  - reflexivity.
Defined.

Lemma default_extraction_text_witness :
  strip "Nomor: 12/SM/2024" = "Nomor: 12/SM/2024".
Proof.
  apply (default_extraction_text
           ["tmp"] "upload" "text.txt" scanned_pdf no_docx all_deps one_page
           "%PDF" PDF_MIME ["tmp"] None
           {| text_path := Some ["tmp"; "text.txt"];
              text_content := "Nomor: 12/SM/2024"; ocr_used := true;
              extraction_ocr_stats :=
                Some (OcrStats {| total_pages := 1; stat_success_pages := 1;
                                  stat_failed_pages := 0; total_chars := 17;
                                  error := None |}) |}
           [Mkdir ["tmp"]; WriteBytes ["tmp"; "upload.pdf"] "%PDF";
            WriteText ["tmp"; "text.txt"] "Nomor: 12/SM/2024";
            Unlink ["tmp"; "upload.pdf"]]).
  vm_compute. reflexivity.
Defined.

(** ** The rule classifier *)

Lemma count_found_le (patterns : list regex) (t : string) :
  count_found patterns t <= List.length patterns.
Proof. unfold count_found. apply filter_length_le. Qed.

Lemma keluar_confidence_range (k : nat) :
  3 <= k <= 17 ->
  PrimFloat.leb 0.65 (keluar_confidence k) = true
  /\ PrimFloat.leb (keluar_confidence k) 0.95 = true
  /\ PrimFloat.ltb 0.7 (keluar_confidence k) = true.
Proof.
  intros H.
  do 18 (destruct k as [|k]; [try lia; vm_compute; repeat split|]). lia.
Qed.

Lemma masuk_confidence_range (k : nat) :
  1 <= k <= 8 ->
  PrimFloat.leb 0.65 (masuk_confidence k) = true
  /\ PrimFloat.leb (masuk_confidence k) 0.95 = true
  /\ PrimFloat.ltb 0.7 (masuk_confidence k) = (2 <=? k).
Proof.
  intros H.
  do 9 (destruct k as [|k]; [try lia; vm_compute; repeat split|]). lia.
Qed.

(** The three ways [classify_rules] answers. *)
Lemma classify_rules_cases (text : string) :
  let kc := count_found SURAT_KELUAR_INDICATORS (lower text) in
  let sc := count_found SURAT_INDICATORS (lower text) in
  (3 <= kc <= 17 /\ classify_rules text = ("keluar", keluar_confidence kc))
  \/ (kc < 3 /\ 1 <= sc <= 8
      /\ classify_rules text = ("masuk", masuk_confidence sc))
  \/ (kc < 3 /\ sc = 0 /\ classify_rules text = ("lainnya", 0.65%float)).
Proof.
  cbv zeta. unfold classify_rules.
  pose proof (count_found_le SURAT_KELUAR_INDICATORS (lower text)) as Hk.
  pose proof (count_found_le SURAT_INDICATORS (lower text)) as Hs.
  change (List.length SURAT_KELUAR_INDICATORS) with 17 in Hk.
  change (List.length SURAT_INDICATORS) with 8 in Hs.
  destruct (3 <=? count_found SURAT_KELUAR_INDICATORS (lower text)) eqn:E1.
  - apply Nat.leb_le in E1. left. split; [lia | reflexivity].
  - apply Nat.leb_gt in E1.
    destruct (1 <=? count_found SURAT_INDICATORS (lower text)) eqn:E2.
    + apply Nat.leb_le in E2. right. left. repeat split; (lia || reflexivity).
    + apply Nat.leb_gt in E2. right. right. repeat split; (lia || reflexivity).
Qed.

Lemma classify_rules_label (text : string) :
  In (fst (classify_rules text)) allowed_jenis
  /\ PrimFloat.leb 0.65 (snd (classify_rules text)) = true
  /\ PrimFloat.leb (snd (classify_rules text)) 0.95 = true.
Proof.
  destruct (classify_rules_cases text)
    as [[Hk ->] | [[_ [Hs ->]] | [_ [_ ->]]]]; cbn [fst snd allowed_jenis In].
  - destruct (keluar_confidence_range _ Hk) as [H1 [H2 _]]. tauto.
  - destruct (masuk_confidence_range _ Hs) as [H1 [H2 _]]. tauto.
  - split; [tauto|]. split; vm_compute; reflexivity.
Qed.

(** X29.  classify always answers "masuk", "keluar" or "lainnya", with or
    without a model and even when the model raises; without a model the
    confidence lies between 0.65 and 0.95. *)
Theorem classify_label (ML_MODEL : option (string -> outcome (string * float)))
        (text : string) :
  In (fst (classify ML_MODEL text)) allowed_jenis
  /\ (ML_MODEL = None ->
      PrimFloat.leb 0.65 (snd (classify ML_MODEL text)) = true
      /\ PrimFloat.leb (snd (classify ML_MODEL text)) 0.95 = true).
Proof.
  destruct (classify_rules_label text) as [H1 H2].
  unfold classify. destruct ML_MODEL as [predict|].
  - split; [|discriminate]. unfold classify_ml.
    destruct (predict text) as [[prediction confidence]|]; [|exact H1].
    destruct (PrimFloat.ltb confidence 0.70); [exact H1|].
    cbn [fst]. destruct (String.eqb prediction "keluar"); cbn; tauto.
  - split; [exact H1 | intros _; exact H2].
Qed.

(** X30.  Without a model, the /predict-jenis endpoint labels the method
    "ml", although only rules ran, exactly when at least 3 outgoing-letter
    indicators or at least 2 letter indicators are found: always for
    "keluar", never for "lainnya". *)
Theorem predict_jenis_method_without_model (text : string) :
  let kc := count_found SURAT_KELUAR_INDICATORS (lower text) in
  let sc := count_found SURAT_INDICATORS (lower text) in
  let '(jenis, confidence, method) := predict_jenis None text in
  (jenis = "keluar" -> method = "ml")
  /\ (jenis = "lainnya" -> method = "rule-based")
  /\ (method = "ml" <-> 3 <= kc \/ 2 <= sc).
Proof.
  cbv zeta. unfold predict_jenis, classify.
  destruct (classify_rules_cases text)
    as [[Hk ->] | [[Hk [Hs ->]] | [Hk [Hs ->]]]].
  - destruct (keluar_confidence_range _ Hk) as [_ [_ ->]].
    repeat split; try discriminate; try tauto.
  - destruct (masuk_confidence_range _ Hs) as [_ [_ ->]].
    destruct (2 <=? count_found SURAT_INDICATORS (lower text)) eqn:E.
    + apply Nat.leb_le in E. repeat split; try discriminate; tauto.
    + apply Nat.leb_gt in E. repeat split; try discriminate.
      intros [H | H]; lia.
  - change (PrimFloat.ltb 0.7 0.65) with false. cbv iota.
    repeat split; try discriminate. intros [H | H]; lia.
Qed.
